(** * Orbit dashboard: credential rotation and the retrying dispatcher

    A shallow embedding of the core of [dashboard.py]: the credential pool
    [GEMINI_API_KEYS] with its session cursor [key_index], the functions
    [configure_genai], [resolve_model_name], [rotate_key] and [ask_orbit],
    and the statements at the top of the script that initialise the session
    on every rerun; and, around that core, the handlers of the page: the
    loading of the keychain, the difficulty selector, the chat turn and its
    archive, the cleaning of the quiz answer and the grading of the quiz,
    the curriculum manager and the interests editor.

    - Python integers are [Z]; [%] is [Z.modulo] (both round towards minus
      infinity, so the result has the sign of the divisor) and raises
      [ZeroDivisionError] on a zero divisor.
    - Text is [string], holding the UTF-8 encoding of the Python text, so
      that a character outside ASCII takes two to four bytes.  The searches,
      [replace], [split] and [join] of the script have ASCII operands and
      work on the bytes; [lower()], [strip()], [len()] and slices work on
      the characters and are modelled on them.
    - A raised object carries whether it is an instance of [Exception],
      which decides if an [except Exception] clause catches it, and its
      [str(e)], which is all the dispatcher reads of it.
    - The client library and the UI toolkit are the environment.  Every call
      to them is appended to a chronological [trace]; the two calls that
      reach the network, [list_models] and [generate_content], are answered
      by oracles that may depend on the whole history.  [configure],
      [GenerativeModel], [toast], [sleep] and [print] return normally in
      [configure_genai], [rotate_key] and [ask_orbit]; what the dispatcher
      does when they raise is [ask_orbit_env], which takes what they raise
      from a third oracle and is [ask_orbit] when that oracle is [quiet].
    - A model handle is taken to send its requests with the credential that
      is configured when it is built; the script builds a handle right after
      each [configure_genai] and never reconfigures under a live handle. *)

From Stdlib Require Import ZArith List String Ascii Bool Lia.
Import ListNotations.

Open Scope string_scope.
Open Scope list_scope.
Open Scope Z_scope.

(** ** Python strings *)

Module PyStr.

(** [needle in hay] *)
Fixpoint contains (needle hay : string) : bool :=
  String.prefix needle hay ||
  match hay with
  | EmptyString => false
  | String _ rest => contains needle rest
  end.

Definition lower_ascii (c : ascii) : ascii :=
  let n := nat_of_ascii c in
  if (Nat.leb 65 n && Nat.leb n 90)%bool then ascii_of_nat (n + 32) else c.

(** The two characters outside ASCII whose lowercase form holds an ASCII
    letter, in UTF-8: U+212A KELVIN SIGN, which lowers to "k", and U+0130
    LATIN CAPITAL LETTER I WITH DOT ABOVE, which lowers to "i" followed by
    U+0307 COMBINING DOT ABOVE. *)
Definition kelvin_sign : string := String "226" (String "132" (String "170" EmptyString)).
Definition capital_i_dot : string := String "196" (String "176" EmptyString).
Definition small_i_dot : string := String "i" (String "204" (String "135" EmptyString)).

(** [s.lower()], up to the spelling of the characters outside ASCII in the
    result: the capitals A to Z and the two characters above are lowered as
    Python lowers them; the lowercase form of every other character holds
    no ASCII character, and the character is left as it is.  A search for
    an ASCII needle in the result, which is all the script does with it,
    cannot tell the difference. *)
Fixpoint lower (s : string) : string :=
  match s with
  | EmptyString => EmptyString
  | String c rest =>
      match rest with
      | String c2 rest2 =>
          if (Ascii.eqb c "196" && Ascii.eqb c2 "176")%bool
          then small_i_dot ++ lower rest2
          else match rest2 with
               | String c3 rest3 =>
                   if (Ascii.eqb c "226" && Ascii.eqb c2 "132" && Ascii.eqb c3 "170")%bool
                   then String "k" (lower rest3)
                   else String (lower_ascii c) (lower rest)
               | EmptyString => String (lower_ascii c) (lower rest)
               end
      | EmptyString => String (lower_ascii c) (lower rest)
      end
  end.

(** Scan of [s.replace(old, new)] for a non-empty [old]: [skip] counts the
    characters of a match that are still to be dropped. *)
Fixpoint replace_scan (old new : string) (skip : nat) (s : string) : string :=
  match s with
  | EmptyString => EmptyString
  | String c rest =>
      match skip with
      | S k => replace_scan old new k rest
      | O =>
          if String.prefix old s
          then new ++ replace_scan old new (String.length old - 1) rest
          else String c (replace_scan old new O rest)
      end
  end.

(** With an empty [old], Python puts [new] before every character and at
    the end. *)
Fixpoint intersperse (new s : string) : string :=
  match s with
  | EmptyString => new
  | String c rest => new ++ String c (intersperse new rest)
  end.

(** [s.replace(old, new)] *)
Definition replace (old new s : string) : string :=
  match old with
  | EmptyString => intersperse new s
  | String _ _ => replace_scan old new O s
  end.

End PyStr.

(** ** Python lists and integers *)

(** [len(l)] *)
Definition len {A} (l : list A) : Z := Z.of_nat (List.length l).

(** [range(n)] *)
Definition range (n : Z) : list Z := map Z.of_nat (seq 0 (Z.to_nat n)).

(** ** Exceptions and the state monad of the script *)

(** A raised object: whether it is an instance of [Exception] (what the
    [except Exception] clauses of the script catch; [KeyboardInterrupt],
    [SystemExit] and the toolkit's stop signal are not) and its [str(e)]. *)
Record PyExc := mkExc { is_Exception : bool; exc_str : string }.

Inductive Res (A : Type) : Type :=
| Ok (a : A)
| Raise (e : PyExc).
Arguments Ok {A} a.
Arguments Raise {A} e.

Definition ZeroDivisionError : PyExc := mkExc true "integer modulo by zero".
Definition IndexError : PyExc := mkExc true "list index out of range".
Definition StopException : PyExc := mkExc false "".

(** [a % b] *)
Definition py_mod (a b : Z) : Res Z :=
  if b =? 0 then Raise ZeroDivisionError else Ok (a mod b).

(** [l[i]]: a negative index counts from the end. *)
Definition py_getitem {A} (l : list A) (i : Z) : Res A :=
  let j := if i <? 0 then len l + i else i in
  if j <? 0 then Raise IndexError
  else match nth_error l (Z.to_nat j) with
       | Some a => Ok a
       | None => Raise IndexError
       end.

Definition M (S A : Type) : Type := S -> Res A * S.

Definition ret {S A} (a : A) : M S A := fun s => (Ok a, s).

Definition bind {S A B} (m : M S A) (k : A -> M S B) : M S B :=
  fun s =>
    match m s with
    | (Ok a, s') => k a s'
    | (Raise e, s') => (Raise e, s')
    end.

Definition lift_res {S A} (r : Res A) : M S A := fun s => (r, s).

Notation "x <- m ;; k" := (bind m (fun x => k))
  (at level 61, m at next level, right associativity).
Notation "m ;; k" := (bind m (fun _ => k))
  (at level 61, right associativity).

(** [try: body  except Exception as e: handler e] *)
Definition try_except {S A} (body : M S A) (handler : PyExc -> M S A) : M S A :=
  fun s =>
    match body s with
    | (Ok a, s') => (Ok a, s')
    | (Raise e, s') => if is_Exception e then handler e s' else (Raise e, s')
    end.

(** What the body of a [for] loop does to the enclosing function. *)
Inductive Flow (A : Type) : Type :=
| Continue
| Return (a : A).
Arguments Continue {A}.
Arguments Return {A} a.

(** [for x in xs: body x], where the body may [return]. *)
Fixpoint for_in {S A B} (xs : list A) (body : A -> M S (Flow B)) : M S (Flow B) :=
  match xs with
  | [] => ret Continue
  | x :: rest =>
      fl <- body x ;;
      match fl with
      | Return b => ret (Return b)
      | Continue => for_in rest body
      end
  end.

(** ** The environment *)

(** [genai.GenerativeModel(name)]: the handle sends its requests with the
    credential that is configured when it is built. *)
Record ModelHandle := mkHandle { handle_name : string; handle_key : option string }.

(** An entry of the backend's catalog. *)
Record ModelInfo := mkModelInfo {
  name : string;
  supported_generation_methods : list string
}.

Inductive Event :=
| EvConfigure (key : string)                   (* genai.configure(api_key=key) *)
| EvListModels                                 (* genai.list_models() *)
| EvGenerate (h : ModelHandle) (prompt : string) (* h.generate_content(prompt) *)
| EvSleep (secs : Z)                           (* time.sleep(secs) *)
| EvToastNoBackup                              (* st.toast("No backup keys available.") *)
| EvToastSwapped (n : Z)                       (* st.toast("Swapped to Key #n") *)
| EvPrintChatError (msg : string)              (* print("Chat Error: msg") *)
| EvNoKeysError.                               (* st.error("NO API KEYS FOUND!") *)

(** The client library's global configuration and the history of calls. *)
Record Genai := mkGenai { api_key : option string; trace : list Event }.

Definition emit (ev : Event) : M Genai unit :=
  fun g => (Ok tt, mkGenai (api_key g) (trace g ++ [ev])).

Definition genai_configure (key : string) : M Genai unit :=
  fun g => (Ok tt, mkGenai (Some key) (trace g ++ [EvConfigure key])).

Definition GenerativeModel (model_name : string) : M Genai ModelHandle :=
  fun g => (Ok (mkHandle model_name (api_key g)), g).

Definition time_sleep (secs : Z) : M Genai unit := emit (EvSleep secs).

(** ** More of Python's text methods *)

Module PyText.

(** [c.isspace()] for the characters of one byte: tab to carriage return,
    the four separators from 28 to 31, and the space. *)
Definition is_space (c : ascii) : bool :=
  let n := nat_of_ascii c in
  (Nat.leb 9 n && Nat.leb n 13) || (Nat.leb 28 n && Nat.leb n 32).

(** The whitespace characters of two bytes: U+0085 and U+00A0. *)
Definition is_space2 (a b : ascii) : bool :=
  Ascii.eqb a "194" && (Ascii.eqb b "133" || Ascii.eqb b "160").

(** The whitespace characters of three bytes: U+1680, U+2000 to U+200A,
    U+2028, U+2029, U+202F, U+205F and U+3000. *)
Definition is_space3 (a b c : ascii) : bool :=
  let n := nat_of_ascii c in
  (Ascii.eqb a "225" && Ascii.eqb b "154" && Ascii.eqb c "128")
  || (Ascii.eqb a "226" && Ascii.eqb b "128" &&
      ((Nat.leb 128 n && Nat.leb n 138)
       || Ascii.eqb c "168" || Ascii.eqb c "169" || Ascii.eqb c "175"))
  || (Ascii.eqb a "226" && Ascii.eqb b "129" && Ascii.eqb c "159")
  || (Ascii.eqb a "227" && Ascii.eqb b "128" && Ascii.eqb c "128").

(** The text behind the whitespace character [s] starts with, when it
    starts with one. *)
Definition after_space (s : string) : option string :=
  match s with
  | EmptyString => None
  | String a r1 =>
      if is_space a then Some r1
      else match r1 with
           | EmptyString => None
           | String b r2 =>
               if is_space2 a b then Some r2
               else match r2 with
                    | EmptyString => None
                    | String c r3 => if is_space3 a b c then Some r3 else None
                    end
           end
  end.

(** [s.lstrip()] *)
Fixpoint lstrip (s : string) : string :=
  match s with
  | EmptyString => EmptyString
  | String a r1 =>
      if is_space a then lstrip r1
      else match r1 with
           | EmptyString => s
           | String b r2 =>
               if is_space2 a b then lstrip r2
               else match r2 with
                    | EmptyString => s
                    | String c r3 => if is_space3 a b c then lstrip r3 else s
                    end
           end
  end.

(** [s.rstrip()]: the text is cut where nothing but whitespace follows. *)
Fixpoint rstrip (s : string) : string :=
  match s with
  | EmptyString => EmptyString
  | String c rest =>
      match lstrip s with
      | EmptyString => EmptyString
      | String _ _ => String c (rstrip rest)
      end
  end.

(** [s.strip()] *)
Definition strip (s : string) : string := rstrip (lstrip s).

(** Scan of [s.split(sep)] for a non-empty [sep]: the piece up to the next
    separator and the pieces after it; [skip] counts the characters of a
    separator that are still to be dropped. *)
Fixpoint split_scan (sep : string) (skip : nat) (s : string) : string * list string :=
  match s with
  | EmptyString => (EmptyString, [])
  | String c rest =>
      match skip with
      | S k => split_scan sep k rest
      | O =>
          if String.prefix sep s
          then let '(piece, pieces) := split_scan sep (String.length sep - 1) rest in
               (EmptyString, piece :: pieces)
          else let '(piece, pieces) := split_scan sep O rest in
               (String c piece, pieces)
      end
  end.

Definition ValueError : PyExc := mkExc true "empty separator".

(** [s.split(sep)] *)
Definition split (sep s : string) : Res (list string) :=
  match sep with
  | EmptyString => Raise ValueError
  | String _ _ => let '(piece, pieces) := split_scan sep O s in Ok (piece :: pieces)
  end.

(** [sep.join(l)] *)
Fixpoint join (sep : string) (l : list string) : string :=
  match l with
  | [] => EmptyString
  | [x] => x
  | x :: rest => x ++ sep ++ join sep rest
  end.

(** A byte that continues a character of several bytes. *)
Definition is_continuation (c : ascii) : bool :=
  let n := nat_of_ascii c in Nat.leb 128 n && Nat.ltb n 192.

(** [len(s)]: the characters of [s], one for every byte that starts one. *)
Fixpoint len (s : string) : nat :=
  match s with
  | EmptyString => O
  | String c rest => ((if is_continuation c then 0 else 1) + len rest)%nat
  end.

(** [s[:n]]: the first [n] characters of [s], each with all its bytes. *)
Fixpoint take (n : nat) (s : string) : string :=
  match s with
  | EmptyString => EmptyString
  | String c rest =>
      if is_continuation c then String c (take n rest)
      else match n with
           | O => EmptyString
           | S k => String c (take k rest)
           end
  end.

End PyText.

(** No byte of the text is outside ASCII. *)
Fixpoint plain (s : string) : bool :=
  match s with
  | EmptyString => true
  | String c rest => Nat.ltb (nat_of_ascii c) 128 && plain rest
  end.

(** The text does not start inside a character. *)
Definition starts_character (s : string) : bool :=
  match s with
  | EmptyString => true
  | String c _ => negb (PyText.is_continuation c)
  end.

(** ** The script *)

Section Orbit.

(** The responses of the backend are opaque to the dispatcher. *)
Variable Response : Type.

(** The credential pool, fixed for a run of the script. *)
Variable GEMINI_API_KEYS : list string.

(** The backend: what a catalog probe and a generation request answer,
    given the calls made so far. *)
Variable list_models : list Event -> option string -> Res (list ModelInfo).
Variable generate_content : list Event -> ModelHandle -> string -> Res Response.

Definition genai_list_models : M Genai (list ModelInfo) :=
  fun g => (list_models (trace g) (api_key g),
            mkGenai (api_key g) (trace g ++ [EvListModels])).

(** [configure_genai()], reading [st.session_state.key_index]. *)
Definition configure_genai (key_index : Z) : M Genai bool :=
  try_except
    (idx <- lift_res (py_mod key_index (len GEMINI_API_KEYS)) ;;
     current_key <- lift_res (py_getitem GEMINI_API_KEYS idx) ;;
     genai_configure current_key ;;
     ret true)
    (fun _ => ret false).


(** ** Model-name resolution *)

(** Priority 1: Flash 1.5, neither a "latest" alias nor experimental. *)
Definition is_flash_1_5 (m : string) : bool :=
  PyStr.contains "gemini-1.5-flash" m
  && negb (PyStr.contains "latest" m)
  && negb (PyStr.contains "exp" m).

(** Priority 2: any Flash outside the 2.x line, not experimental. *)
Definition is_any_flash (m : string) : bool :=
  PyStr.contains "flash" m
  && negb (PyStr.contains "gemini-2" m)
  && negb (PyStr.contains "exp" m).

Definition strip_models (m : string) : string := PyStr.replace "models/" "" m.

(** ['generateContent' in m.supported_generation_methods] *)
Definition can_generate (m : ModelInfo) : bool :=
  existsb (String.eqb "generateContent") (supported_generation_methods m).

Definition valid_models_of (models : list ModelInfo) : list string :=
  map name (filter can_generate models).

(** [resolve_model_name()], reading [st.session_state.key_index] through
    [configure_genai].  [Continue] out of the [try] block is the fall to the
    last line of the function. *)
Definition resolve_model_name (key_index : Z) : M Genai string :=
  fl <- try_except
          (configure_genai key_index ;;
           models <- genai_list_models ;;
           let valid_models := valid_models_of models in
           fl1 <- for_in valid_models
                    (fun m => if is_flash_1_5 m
                              then ret (Return (strip_models m))
                              else ret Continue) ;;
           match fl1 with
           | Return r => ret (Return r)
           | Continue =>
               fl2 <- for_in valid_models
                        (fun m => if is_any_flash m
                                  then ret (Return (strip_models m))
                                  else ret Continue) ;;
               match fl2 with
               | Return r => ret (Return r)
               | Continue =>
                   match valid_models with
                   | m :: _ => ret (Return (strip_models m))
                   | [] => ret Continue
                   end
               end
           end)
          (fun _ => ret Continue) ;;
  match fl with
  | Return r => ret r
  | Continue => ret "gemini-1.5-flash"
  end.

(** The selection as the specification words it: the first model of each
    priority class, in the order of the classes, else the fallback. *)
Definition select_by_priority (valid_models : list string) : string :=
  match find is_flash_1_5 valid_models with
  | Some m => strip_models m
  | None =>
      match find is_any_flash valid_models with
      | Some m => strip_models m
      | None =>
          match valid_models with
          | m :: _ => strip_models m
          | [] => "gemini-1.5-flash"
          end
      end
  end.

(** ** Rotation and dispatch *)

(** The session entries and the module global the functions below work on,
    once the top of the script has run: [st.session_state.key_index],
    [st.session_state.model_name], the global [model], and the client
    library. *)
Record State := mkState {
  key_index : Z;
  model_name : string;
  model : ModelHandle;
  genai : Genai
}.

Definition lift_genai {A} (m : M Genai A) : M State A :=
  fun s =>
    let '(r, g) := m (genai s) in
    (r, mkState (key_index s) (model_name s) (model s) g).

Definition get_key_index : M State Z := fun s => (Ok (key_index s), s).
Definition set_key_index (k : Z) : M State unit :=
  fun s => (Ok tt, mkState k (model_name s) (model s) (genai s)).
Definition get_model_name : M State string := fun s => (Ok (model_name s), s).
Definition get_model : M State ModelHandle := fun s => (Ok (model s), s).
Definition set_model (h : ModelHandle) : M State unit :=
  fun s => (Ok tt, mkState (key_index s) (model_name s) h (genai s)).

(** [rotate_key()] *)
Definition rotate_key : M State bool :=
  if len GEMINI_API_KEYS <=? 1 then
    lift_genai (emit EvToastNoBackup) ;;
    ret false
  else
    k <- get_key_index ;;
    k' <- lift_res (py_mod (k + 1) (len GEMINI_API_KEYS)) ;;
    set_key_index k' ;;
    k <- get_key_index ;;
    lift_genai (configure_genai k) ;;
    n <- get_model_name ;;
    h <- lift_genai (GenerativeModel n) ;;
    set_model h ;;
    k <- get_key_index ;;
    lift_genai (emit (EvToastSwapped (k + 1))) ;;
    ret true.

(** [model.generate_content(prompt)] *)
Definition model_generate_content (prompt : string) : M State Response :=
  h <- get_model ;;
  lift_genai (fun g => (generate_content (trace g) h prompt,
                        mkGenai (api_key g) (trace g ++ [EvGenerate h prompt]))).

Definition is_quota (err_msg : string) : bool :=
  PyStr.contains "429" err_msg
  || PyStr.contains "quota" (PyStr.lower err_msg)
  || PyStr.contains "ResourceExhausted" err_msg.

Definition is_auth (err_msg : string) : bool :=
  PyStr.contains "403" err_msg
  || PyStr.contains "leaked" (PyStr.lower err_msg)
  || PyStr.contains "API key" err_msg.

(** One turn of the retry loop of [ask_orbit]; Python's [None] is [None]. *)
Definition ask_orbit_attempt (prompt : string) (max_retries attempt : Z)
  : M State (Flow (option Response)) :=
  try_except
    (r <- model_generate_content prompt ;;
     ret (Return (Some r)))
    (fun e =>
       let err_msg := exc_str e in
       if is_quota err_msg || is_auth err_msg then
         rotated <- rotate_key ;;
         if rotated : bool then
           lift_genai (time_sleep 1) ;;
           ret Continue
         else ret (Return None)
       else
         lift_genai (emit (EvPrintChatError err_msg)) ;;
         if attempt <? max_retries - 1 then
           lift_genai (time_sleep 1) ;;
           ret Continue
         else ret (Return None)).

(** [ask_orbit(prompt)] *)
Definition ask_orbit (prompt : string) : M State (option Response) :=
  let max_retries := len GEMINI_API_KEYS + 1 in
  fl <- for_in (range max_retries) (ask_orbit_attempt prompt max_retries) ;;
  match fl with
  | Return r => ret r
  | Continue => ret None
  end.

(** ** The dispatcher when the library calls raise *)

(** The calls that [configure_genai], [rotate_key] and the handler of
    [ask_orbit] make besides the request. *)
Inductive Call :=
| Logged (ev : Event)               (* configure, toast, sleep, print: the history records them *)
| Build (model_name : string).      (* genai.GenerativeModel(model_name) *)

(** The one call among them that stands inside a [try]: [genai.configure],
    in [configure_genai]. *)
Definition protected (c : Call) : bool :=
  match c with
  | Logged (EvConfigure _) => true
  | _ => false
  end.

Section Library.

(** What such a call raises, if anything, given the calls made so far. *)
Variable lib : list Event -> Call -> option PyExc.

Definition emit_env (ev : Event) : M Genai unit :=
  fun g =>
    (match lib (trace g) (Logged ev) with Some e => Raise e | None => Ok tt end,
     mkGenai (api_key g) (trace g ++ [ev])).

(** A [configure] that raises leaves the configuration as it was. *)
Definition genai_configure_env (key : string) : M Genai unit :=
  fun g =>
    match lib (trace g) (Logged (EvConfigure key)) with
    | Some e => (Raise e, mkGenai (api_key g) (trace g ++ [EvConfigure key]))
    | None => (Ok tt, mkGenai (Some key) (trace g ++ [EvConfigure key]))
    end.

Definition GenerativeModel_env (model_name : string) : M Genai ModelHandle :=
  fun g =>
    match lib (trace g) (Build model_name) with
    | Some e => (Raise e, g)
    | None => (Ok (mkHandle model_name (api_key g)), g)
    end.

(** [configure_genai()] *)
Definition configure_genai_env (key_index : Z) : M Genai bool :=
  try_except
    (idx <- lift_res (py_mod key_index (len GEMINI_API_KEYS)) ;;
     current_key <- lift_res (py_getitem GEMINI_API_KEYS idx) ;;
     genai_configure_env current_key ;;
     ret true)
    (fun _ => ret false).

(** [rotate_key()] *)
Definition rotate_key_env : M State bool :=
  if len GEMINI_API_KEYS <=? 1 then
    lift_genai (emit_env EvToastNoBackup) ;;
    ret false
  else
    k <- get_key_index ;;
    k' <- lift_res (py_mod (k + 1) (len GEMINI_API_KEYS)) ;;
    set_key_index k' ;;
    k <- get_key_index ;;
    lift_genai (configure_genai_env k) ;;
    n <- get_model_name ;;
    h <- lift_genai (GenerativeModel_env n) ;;
    set_model h ;;
    k <- get_key_index ;;
    lift_genai (emit_env (EvToastSwapped (k + 1))) ;;
    ret true.

(** One turn of the retry loop of [ask_orbit]: what the handler calls is
    outside the [try] and raises to the caller of [ask_orbit]. *)
Definition ask_orbit_attempt_env (prompt : string) (max_retries attempt : Z)
  : M State (Flow (option Response)) :=
  try_except
    (r <- model_generate_content prompt ;;
     ret (Return (Some r)))
    (fun e =>
       let err_msg := exc_str e in
       if is_quota err_msg || is_auth err_msg then
         rotated <- rotate_key_env ;;
         if rotated : bool then
           lift_genai (emit_env (EvSleep 1)) ;;
           ret Continue
         else ret (Return None)
       else
         lift_genai (emit_env (EvPrintChatError err_msg)) ;;
         if attempt <? max_retries - 1 then
           lift_genai (emit_env (EvSleep 1)) ;;
           ret Continue
         else ret (Return None)).

(** [ask_orbit(prompt)] *)
Definition ask_orbit_env (prompt : string) : M State (option Response) :=
  let max_retries := len GEMINI_API_KEYS + 1 in
  fl <- for_in (range max_retries) (ask_orbit_attempt_env prompt max_retries) ;;
  match fl with
  | Return r => ret r
  | Continue => ret None
  end.

End Library.

(** The library whose calls all return normally. *)
Definition quiet (tr : list Event) (c : Call) : option PyExc := None.

(** ** The top of the script and the session *)

(** [st.session_state] between reruns: an entry is absent until it is first
    assigned. *)
Record SessionStore := mkStore {
  ss_key_index : option Z;
  ss_model_name : option string
}.

Definition AttributeError : PyExc := mkExc true "st.session_state has no such attribute".

Definition Script : Type := SessionStore * Genai.

Definition lift_lib {A} (m : M Genai A) : M Script A :=
  fun s => let '(r, g) := m (snd s) in (r, (fst s, g)).

Definition has_key_index : M Script bool :=
  fun s => (Ok (match ss_key_index (fst s) with Some _ => true | None => false end), s).
Definition has_model_name : M Script bool :=
  fun s => (Ok (match ss_model_name (fst s) with Some _ => true | None => false end), s).

Definition read_key_index : M Script Z :=
  fun s => (match ss_key_index (fst s) with
            | Some k => Ok k
            | None => Raise AttributeError
            end, s).
Definition read_model_name : M Script string :=
  fun s => (match ss_model_name (fst s) with
            | Some n => Ok n
            | None => Raise AttributeError
            end, s).

Definition write_key_index (k : Z) : M Script unit :=
  fun s => (Ok tt, (mkStore (Some k) (ss_model_name (fst s)), snd s)).
Definition write_model_name (n : string) : M Script unit :=
  fun s => (Ok tt, (mkStore (ss_key_index (fst s)) (Some n), snd s)).

(** [st.stop()] *)
Definition st_stop {A} : M Script A := fun s => (Raise StopException, s).

(** The statements of the script above the first UI code, run on every
    rerun: the pool check, the two session defaults, and the binding of the
    global [model].  The result is the state the functions work on. *)
Definition script_top : M Script State :=
  (if match GEMINI_API_KEYS with [] => true | _ => false end
   then lift_lib (emit EvNoKeysError) ;; st_stop
   else ret tt) ;;
  present <- has_key_index ;;
  (if present : bool then ret tt else write_key_index 0) ;;
  present <- has_model_name ;;
  (if present : bool then ret tt
   else k <- read_key_index ;;
        n <- lift_lib (resolve_model_name k) ;;
        write_model_name n) ;;
  k <- read_key_index ;;
  lift_lib (configure_genai k) ;;
  n <- read_model_name ;;
  h <- lift_lib (GenerativeModel n) ;;
  (fun s => (Ok (mkState k n h (snd s)), s)).

(** The functions run on [State]; what they leave is what the session and
    the library hold afterwards. *)
Definition with_state {A} (st : State) (m : M State A) : M Script A :=
  fun s =>
    let '(r, st') := m st in
    (r, (mkStore (Some (key_index st')) (Some (model_name st')), genai st')).

Fixpoint dispatch_all (prompts : list string) : M State unit :=
  match prompts with
  | [] => ret tt
  | p :: rest => ask_orbit p ;; dispatch_all rest
  end.

(** One run of the script: the top, then the dispatches its UI makes. *)
Definition script_run (prompts : list string) : M Script unit :=
  st <- script_top ;;
  with_state st (dispatch_all prompts).

(** A session over an unchanged pool: the reruns of the script, each with
    its dispatches; what a run raises ends that run only. *)
Fixpoint session (runs : list (list string)) (s : Script) : Script :=
  match runs with
  | [] => s
  | prompts :: rest => session rest (snd (script_run prompts s))
  end.

Definition fresh_session : SessionStore := mkStore None None.

(** How many catalog probes a history holds. *)
Definition probes (tr : list Event) : nat :=
  List.length (filter (fun ev => match ev with EvListModels => true | _ => false end) tr).

(** The handles the generation requests of a history went through. *)
Definition generated (tr : list Event) : list ModelHandle :=
  flat_map (fun ev => match ev with EvGenerate h _ => [h] | _ => [] end) tr.

(** The state after [n] calls of [rotate_key]. *)
Fixpoint rotate_n (n : nat) (st : State) : State :=
  match n with
  | O => st
  | S k => rotate_n k (snd (rotate_key st))
  end.

(** The cursor after each of the first [n] calls of [rotate_key]. *)
Fixpoint cursors (n : nat) (st : State) : list Z :=
  match n with
  | O => []
  | S k => let st' := snd (rotate_key st) in key_index st' :: cursors k st'
  end.

(** ** States and histories named in the statements *)

(** The pool entry at an index. *)
Definition credential (i : Z) : string := nth (Z.to_nat i) GEMINI_API_KEYS "".

(** [st] with further calls in the history. *)
Definition log (evs : list Event) (st : State) : State :=
  mkState (key_index st) (model_name st) (model st)
          (mkGenai (api_key (genai st)) (trace (genai st) ++ evs)).

(** [st] once the cursor has moved to the next credential and the handle
    has been rebuilt on it. *)
Definition rotated (st : State) : State :=
  let k := (key_index st + 1) mod len GEMINI_API_KEYS in
  mkState k (model_name st)
          (mkHandle (model_name st) (Some (credential k)))
          (mkGenai (Some (credential k))
                   (trace (genai st) ++ [EvConfigure (credential k); EvToastSwapped (k + 1)])).

(** A failed request followed by a rotation and the pause. *)
Definition quota_round (prompt : string) (st : State) : State :=
  log [EvSleep 1] (rotated (log [EvGenerate (model st) prompt] st)).

Fixpoint quota_rounds (prompt : string) (n : nat) (st : State) : State :=
  match n with
  | O => st
  | S k => quota_rounds prompt k (quota_round prompt st)
  end.

(** A failed request that is retried in place after the pause. *)
Definition transient_round (prompt msg : string) (st : State) : State :=
  log [EvGenerate (model st) prompt; EvPrintChatError msg; EvSleep 1] st.

(** How many rotations a history holds. *)
Definition rotations (tr : list Event) : nat :=
  List.length (filter (fun ev => match ev with EvToastSwapped _ => true | _ => false end) tr).

(** The error classes of the dispatcher. *)
Definition rotates (e : PyExc) : bool := is_quota (exc_str e) || is_auth (exc_str e).

(** A step leaves a relation between the state before and after. *)
Definition preserves {S A} (R : S -> S -> Prop) (m : M S A) : Prop :=
  forall s, R s (snd (m s)).

(** Whatever a step raises has the property [P]. *)
Definition raises_only {S A} (P : PyExc -> Prop) (m : M S A) : Prop :=
  forall s e s', m s = (Raise e, s') -> P e.

(** Whatever a step returns has the property [Q]. *)
Definition yields {S A} (Q : A -> Prop) (m : M S A) : Prop :=
  forall s a s', m s = (Ok a, s') -> Q a.

(** Same cached model name, same number of catalog probes. *)
Definition same_resolution (s s' : State) : Prop :=
  model_name s' = model_name s /\
  probes (trace (genai s')) = probes (trace (genai s)).

Definition same_probes (g g' : Genai) : Prop :=
  probes (trace g') = probes (trace g).

(** ** Sample inputs *)

Definition one_key : list string := ["key-A"].
Definition two_keys : list string := ["key-A"; "key-B"].
Definition three_keys : list string := ["key-A"; "key-B"; "key-C"].

Definition sample_handle : ModelHandle := mkHandle "gemini-1.5-flash" (Some "key-A").

Definition sample_state (cursor : Z) : State :=
  mkState cursor "gemini-1.5-flash" sample_handle (mkGenai (Some "key-A") []).

Definition quota_error : PyExc := mkExc true "429 Resource has been exhausted (e.g. check quota).".
Definition server_error : PyExc := mkExc true "500 An internal error has occurred.".

Definition always_quota (tr : list Event) (h : ModelHandle) (p : string) : Res string :=
  Raise quota_error.

(** Fails once with a server fault, then answers. *)
Definition flaky_once (tr : list Event) (h : ModelHandle) (p : string) : Res string :=
  match generated tr with
  | [] => Raise server_error
  | _ => Ok "pong"
  end.

Definition always_answers (tr : list Event) (h : ModelHandle) (p : string) : Res string :=
  Ok "pong".

(** Out of quota on the first two requests of the history, then answers. *)
Definition quota_twice (tr : list Event) (h : ModelHandle) (p : string) : Res string :=
  match generated tr with
  | [] | [_] => Raise quota_error
  | _ => Ok "pong"
  end.

Definition always_server_error (tr : list Event) (h : ModelHandle) (p : string) : Res string :=
  Raise server_error.

Definition keyboard_interrupt : PyExc := mkExc false "KeyboardInterrupt".

Definition always_interrupted (tr : list Event) (h : ModelHandle) (p : string) : Res string :=
  Raise keyboard_interrupt.

Definition UnicodeEncodeError : PyExc :=
  mkExc true "'charmap' codec can't encode character".

(** A standard output that cannot encode the cross mark of the chat error
    line: [print] raises. *)
Definition print_fails (tr : list Event) (c : Call) : option PyExc :=
  match c with
  | Logged (EvPrintChatError _) => Some UnicodeEncodeError
  | _ => None
  end.

(** A client library that refuses every [configure] with an error. *)
Definition configure_refused (tr : list Event) (c : Call) : option PyExc :=
  match c with
  | Logged (EvConfigure _) => Some (mkExc true "configure refused")
  | _ => None
  end.

Definition sample_catalog (tr : list Event) (key : option string) : Res (list ModelInfo) :=
  Ok [ mkModelInfo "models/gemini-1.5-flash-latest" ["generateContent"; "countTokens"];
       mkModelInfo "models/embedding-001" ["embedContent"];
       mkModelInfo "models/gemini-1.5-flash" ["generateContent"; "countTokens"] ].

(** * The rest of the script *)

(** ** The keychain (lines 19-36) *)

(** What [st.secrets.get("GEMINI_KEYS")] gives: nothing, text, a list of
    text, or a value of another type (a number, a table) with its truth
    value. *)
Inductive SecretValue :=
| SvNone
| SvStr (s : string)
| SvList (l : list string)
| SvOther (truth : bool).

Definition truthy (v : SecretValue) : bool :=
  match v with
  | SvNone => false
  | SvStr s => negb (String.eqb s "")
  | SvList l => match l with [] => false | _ => true end
  | SvOther b => b
  end.

Definition NoSplitError : PyExc := mkExc true "object has no attribute split".

(** [[k.strip() for k in text.split(",")]] *)
Definition split_keys (text : string) : Res (list string) :=
  match PyText.split "," text with
  | Ok parts => Ok (map PyText.strip parts)
  | Raise e => Raise e
  end.

Definition get_state {S} : M S S := fun s => (Ok s, s).
Definition put_state {S} (s : S) : M S unit := fun _ => (Ok tt, s).

(** The module-level loading of [GEMINI_API_KEYS], which is the state. *)
Definition load_keys (secrets_get : Res SecretValue) (environ_get : Res (option string))
  : M (list string) unit :=
  put_state [] ;;
  try_except
    (raw_keys <- lift_res secrets_get ;;
     if truthy raw_keys then
       match raw_keys with
       | SvList l => put_state l
       | SvStr s => keys <- lift_res (split_keys s) ;; put_state keys
       | SvNone | SvOther _ => lift_res (Raise NoSplitError)
       end
     else ret tt)
    (fun _ => ret tt) ;;
  keys <- get_state ;;
  match keys with
  | [] =>
      try_except
        (keys_str <- lift_res environ_get ;;
         match keys_str with
         | Some s =>
             if negb (String.eqb s "")
             then keys <- lift_res (split_keys s) ;; put_state keys
             else ret tt
         | None => ret tt
         end)
        (fun _ => ret tt)
  | _ :: _ => ret tt
  end.

Fixpoint count_commas (s : string) : nat :=
  match s with
  | EmptyString => O
  | String c rest => ((if Ascii.eqb c "," then 1 else 0) + count_commas rest)%nat
  end.

(** What [split_keys] is stated with. *)
Definition comma_free (s : string) : Prop := PyStr.contains "," s = false.
Definition stripped (s : string) : Prop := PyText.strip s = s.

Definition comma_pieces (s : string) : list string :=
  let '(piece, pieces) := PyText.split_scan "," 0 s in piece :: pieces.

(** What the environment variable alone gives. *)
Definition keys_from_environ (environ_get : Res (option string)) : list string :=
  match environ_get with
  | Ok (Some s) =>
      if String.eqb s "" then []
      else match split_keys s with Ok keys => keys | Raise _ => [] end
  | _ => []
  end.

(** ** The interests editor (lines 396-401) *)

(** The text the editor shows: [", ".join(config['interests'])]. *)
Definition interests_text (interests : list string) : string :=
  PyText.join ", " interests.

(** What "Update Interests" stores: [[x.strip() for x in curr.split(",")]]. *)
Definition update_interests (curr : string) : Res (list string) :=
  match PyText.split "," curr with
  | Ok parts => Ok (map PyText.strip parts)
  | Raise e => Raise e
  end.

(** ** The curriculum manager (lines 378-394) *)

(** [u in units] *)
Definition py_in_list (u : string) (units : list string) : bool :=
  existsb (String.eqb u) units.

(** The loop of the "Add" button over the selected units; the result is
    [config['current_units']] and [changed]. *)
Fixpoint add_units (adds : list string) (current_units : list string) (changed : bool)
  : list string * bool :=
  match adds with
  | [] => (current_units, changed)
  | u :: rest =>
      if negb (py_in_list u current_units)
      then add_units rest (current_units ++ [u]) true
      else add_units rest current_units changed
  end.

(** [l.remove(x)]: the first occurrence goes; [ValueError] without one. *)
Fixpoint list_remove (x : string) (l : list string) : option (list string) :=
  match l with
  | [] => None
  | y :: rest =>
      if String.eqb x y then Some rest
      else match list_remove x rest with
           | Some rest' => Some (y :: rest')
           | None => None
           end
  end.

Definition RemoveError : PyExc := mkExc true "list.remove(x): x not in list".
Definition RerunException : PyExc := mkExc false "rerun".
Definition DuplicateWidgetID : PyExc := mkExc true "DuplicateWidgetID".

(** The state of the "Drop" loop: the list being iterated and mutated, the
    widget keys registered so far in the run, and how many saves were
    attempted. *)
Record DropState := mkDrop {
  ds_units : list string;
  ds_keys : list string;
  ds_saves : nat
}.

Section Drop.

(** Which checkboxes are ticked, and what [save_config] answers at each
    attempt of the run. *)
Variable checked : string -> bool.
Variable save_config_result : nat -> list string -> Res bool.

(** [st.checkbox(label, key=unit)] *)
Definition st_checkbox (key : string) : M DropState bool :=
  fun s =>
    if py_in_list key (ds_keys s)
    then (Raise DuplicateWidgetID, s)
    else (Ok (checked key), mkDrop (ds_units s) (key :: ds_keys s) (ds_saves s)).

Definition units_remove (u : string) : M DropState unit :=
  fun s =>
    match list_remove u (ds_units s) with
    | Some l => (Ok tt, mkDrop l (ds_keys s) (ds_saves s))
    | None => (Raise RemoveError, s)
    end.

Definition drop_save : M DropState bool :=
  fun s => (save_config_result (ds_saves s) (ds_units s),
            mkDrop (ds_units s) (ds_keys s) (S (ds_saves s))).

(** [for unit in config['current_units']: ...] ([u] here) with the list iterator's
    index [i]; the list shrinks under the iterator.  The answer is whether
    the iterator ran to its end within [fuel] turns. *)
Fixpoint drop_loop (fuel : nat) (i : nat) : M DropState bool :=
  fun s =>
    match nth_error (ds_units s) i with
    | None => (Ok true, s)
    | Some u =>
        match fuel with
        | O => (Ok false, s)
        | S fuel' =>
            (ticked <- st_checkbox u ;;
             (if ticked : bool then
                units_remove u ;;
                saved <- drop_save ;;
                if saved : bool then lift_res (Raise RerunException) else ret tt
              else ret tt) ;;
             drop_loop fuel' (S i)) s
        end
    end.

(** The loop as the script runs it: the list's length is fuel enough. *)
Definition drop_units : M DropState bool :=
  fun s => drop_loop (List.length (ds_units s)) 0 s.

(** The units whose box is not ticked. *)
Definition unchecked (l : list string) : list string :=
  filter (fun u => negb (checked u)) l.

End Drop.

(** The elements at the odd positions. *)
Fixpoint odd_positions (l : list string) : list string :=
  match l with
  | _ :: y :: rest => y :: odd_positions rest
  | _ => []
  end.

(** ** The quiz form (lines 348-360) *)

Section Quiz.

(** The values answers are made of, with Python's [==] and [None]. *)
Variable Val : Type.
Variable py_eq : Val -> Val -> bool.

Record Question := mkQuestion {
  q_answer : Val;
  q_explanation : string
}.

Inductive QuizEvent :=
| QuizCorrect (number : nat)
| QuizWrong (number : nat) (correct : Val)
| QuizCaption (explanation : string)
| QuizMetric (score total : nat)
| QuizBalloons.

(** The loop of "Submit Quiz" from question [i] on: the score and the
    messages shown. *)
Fixpoint grade_from (i : nat) (quiz_data : list Question) (answers : nat -> Val)
         (score : nat) : nat * list QuizEvent :=
  match quiz_data with
  | [] => (score, [])
  | q :: rest =>
      if py_eq (answers i) (q_answer q)
      then let '(final, shown) := grade_from (S i) rest answers (S score) in
           (final, QuizCorrect (S i) :: shown)
      else let '(final, shown) := grade_from (S i) rest answers score in
           (final, QuizWrong (S i) (q_answer q) :: QuizCaption (q_explanation q) :: shown)
  end.

(** The body of "Submit Quiz"; [answers i] is [quiz_answers.get(i)]. *)
Definition submit_quiz (quiz_data : list Question) (answers : nat -> Val) : list QuizEvent :=
  let total := List.length quiz_data in
  let '(score, shown) := grade_from 0 quiz_data answers 0 in
  shown ++ [QuizMetric score total]
        ++ (if Nat.eqb score total then [QuizBalloons] else []).

Definition quiz_score (quiz_data : list Question) (answers : nat -> Val) : nat :=
  fst (grade_from 0 quiz_data answers 0).

(** Every question from position [i] on is answered with a value equal to
    its key. *)
Definition all_correct (i : nat) (quiz_data : list Question) (answers : nat -> Val)
  : Prop :=
  forall j q, nth_error quiz_data j = Some q ->
              py_eq (answers (i + j)%nat) (q_answer q) = true.

End Quiz.

(** ** Archiving a chat (lines 229-250) *)

Definition MAX_ARCHIVED_SESSIONS : nat := 10.

Record Message := mkMessage { role : string; content : string }.

Record Archive := mkArchive {
  timestamp : string;
  summary : string;
  messages : list Message
}.

(** [next((m['content'] for m in msgs if m['role'] == 'user'), "Empty Session")] *)
Definition first_user_msg (current_msgs : list Message) : string :=
  match find (fun m => String.eqb (role m) "user") current_msgs with
  | Some m => content m
  | None => "Empty Session"
  end.

(** [(msg[:40] + '...') if len(msg) > 40 else msg] *)
Definition summarise (msg : string) : string :=
  if Nat.ltb 40 (PyText.len msg)
  then (PyText.take 40 msg ++ "...")%string
  else msg.

(** The body of "New Chat" that files the session: the stored archives
    ([None] when the config has no such entry) and the live messages give
    the archives to store; nothing is filed for an empty chat.  [now] is the
    formatted clock reading. *)
Definition archive_session (now : string) (archived_sessions : option (list Archive))
           (current_msgs : list Message) : option (list Archive) :=
  match current_msgs with
  | [] => archived_sessions
  | _ :: _ =>
      let existing := match archived_sessions with Some l => l | None => [] end in
      let session_archive :=
        mkArchive now (summarise (first_user_msg current_msgs)) current_msgs in
      Some (firstn MAX_ARCHIVED_SESSIONS (session_archive :: existing))
  end.

(** ** The difficulty selector (lines 209-216) *)

Definition diffs : list string :=
  ["Easy (Review)"; "Medium (Standard)"; "Hard (Exam Prep)";
   "Asian Parent Expectations (Extreme)"].

(** [l.index(x)] *)
Fixpoint list_index (x : string) (l : list string) : option nat :=
  match l with
  | [] => None
  | y :: rest =>
      if String.eqb x y then Some O
      else match list_index x rest with
           | Some n => Some (S n)
           | None => None
           end
  end.

(** [config.get('difficulty', "Asian Parent Expectations (Extreme)")] *)
Definition curr_diff (difficulty : option string) : string :=
  match difficulty with
  | Some d => d
  | None => "Asian Parent Expectations (Extreme)"
  end.

(** [diffs.index(curr_diff) if curr_diff in diffs else 3] *)
Definition difficulty_index (difficulty : option string) : nat :=
  if py_in_list (curr_diff difficulty) diffs
  then match list_index (curr_diff difficulty) diffs with
       | Some n => n
       | None => 3
       end
  else 3.

(** What the selector shows when the user has not touched it:
    [diffs[idx]]. *)
Definition default_choice (difficulty : option string) : string :=
  nth (difficulty_index difficulty) diffs "".

(** [if new_diff != curr_diff: config['difficulty'] = new_diff; save_config(config)]:
    the entry afterwards, and whether a save was asked for. *)
Definition difficulty_update (difficulty : option string) (new_diff : string)
  : option string * bool :=
  if negb (String.eqb new_diff (curr_diff difficulty))
  then (Some new_diff, true)
  else (difficulty, false).

(** ** More names for the statements about the dispatcher *)

(** The handle and the client configuration are those of the credential
    under the cursor, taken modulo the pool length as [configure_genai]
    takes it. *)
Definition bound (st : State) : Prop :=
  model st =
    mkHandle (model_name st) (Some (credential (key_index st mod len GEMINI_API_KEYS))) /\
  api_key (genai st) = Some (credential (key_index st mod len GEMINI_API_KEYS)).

(** ** The chat tab (lines 258-281) *)

(** What [config['active_session']] is: missing, a list of its own, or the
    very list object [st.session_state.messages] holds, so that an append to
    the one shows in the other. *)
Inductive ActiveRef :=
| ActiveMissing
| ActiveOwn (l : list Message)
| ActiveShared.

Inductive ChatEvent :=
| ChatMarkdown (who text : string)               (* with st.chat_message(who): st.markdown(text) *)
| ChatError                                      (* st.error("Connection Interrupted.") *)
| ChatSave (active : option (list Message)).     (* save_config(config), with what it holds *)

Record Chat := mkChat {
  dispatcher : State;
  chat_messages : list Message;                  (* st.session_state.messages *)
  active_session : ActiveRef;                    (* config['active_session'] *)
  current_units : list string;                   (* config['current_units'] *)
  difficulty : option string;                    (* config['difficulty'], when present *)
  shown : list ChatEvent
}.

(** The value of [config['active_session']]. *)
Definition active_value (c : Chat) : option (list Message) :=
  match active_session c with
  | ActiveMissing => None
  | ActiveOwn l => Some l
  | ActiveShared => Some (chat_messages c)
  end.

(** [l[-n:]] for a positive [n] *)
Definition last_n {A} (n : nat) (l : list A) : list A :=
  skipn (List.length l - n) l.

Definition KeyError : PyExc := mkExc true "KeyError".

Section ChatTab.

(** [response.text], which the client library may refuse with an error;
    the f-string that builds the context; and what [save_config] answers
    after the events so far. *)
Variable response_text : Response -> Res string.
Variable render_ctx : list string -> string -> list Message -> string -> string.
Variable save_config : list ChatEvent -> option (list Message) -> Res bool.

Definition messages_append (m : Message) : M Chat unit :=
  fun c => (Ok tt, mkChat (dispatcher c) (chat_messages c ++ [m]) (active_session c)
                          (current_units c) (difficulty c) (shown c)).

Definition chat_show (ev : ChatEvent) : M Chat unit :=
  fun c => (Ok tt, mkChat (dispatcher c) (chat_messages c) (active_session c)
                          (current_units c) (difficulty c) (shown c ++ [ev])).

Definition get_chat : M Chat Chat := fun c => (Ok c, c).

(** [config['difficulty']] *)
Definition read_difficulty : M Chat string :=
  fun c => (match difficulty c with Some d => Ok d | None => Raise KeyError end, c).

Definition chat_ask_orbit (ctx : string) : M Chat (option Response) :=
  fun c =>
    let '(r, st) := ask_orbit ctx (dispatcher c) in
    (r, mkChat st (chat_messages c) (active_session c)
               (current_units c) (difficulty c) (shown c)).

(** [config['active_session'] = st.session_state.messages] *)
Definition share_active : M Chat unit :=
  fun c => (Ok tt, mkChat (dispatcher c) (chat_messages c) ActiveShared
                          (current_units c) (difficulty c) (shown c)).

(** [save_config(config)]; its answer is not looked at here. *)
Definition chat_save : M Chat unit :=
  fun c =>
    (match save_config (shown c) (active_value c) with
     | Ok _ => Ok tt
     | Raise e => Raise e
     end,
     mkChat (dispatcher c) (chat_messages c) (active_session c)
            (current_units c) (difficulty c) (shown c ++ [ChatSave (active_value c)])).

(** The body of [if prompt := st.chat_input(...)]. *)
Definition chat_turn (prompt : string) : M Chat unit :=
  messages_append (mkMessage "user" prompt) ;;
  chat_show (ChatMarkdown "user" prompt) ;;
  c <- get_chat ;;
  d <- read_difficulty ;;
  let ctx := render_ctx (current_units c) d (last_n 6 (chat_messages c)) prompt in
  response_obj <- chat_ask_orbit ctx ;;
  match response_obj with
  | Some r =>
      text <- lift_res (response_text r) ;;
      if negb (String.eqb text "") then
        chat_show (ChatMarkdown "assistant" text) ;;
        messages_append (mkMessage "assistant" text) ;;
        share_active ;;
        chat_save
      else chat_show ChatError
  | None => chat_show ChatError
  end.

(** The context a turn sends, in terms of the state it starts from. *)
Definition turn_ctx (prompt : string) (c : Chat) (d : string) : string :=
  render_ctx (current_units c) d
             (last_n 6 (chat_messages c ++ [mkMessage "user" prompt])) prompt.

End ChatTab.

(** ** Cleaning the quiz answer (line 326) *)

(** [s[n:]] *)
Fixpoint string_drop (n : nat) (s : string) : string :=
  match n, s with
  | S k, String _ rest => string_drop k rest
  | _, _ => s
  end.

(** [response.text.replace("```json", "").replace("```", "").strip()] *)
Definition clean_text (text : string) : string :=
  PyText.strip (PyStr.replace "```" "" (PyStr.replace "```json" "" text)).

(** What the removal of the fences keeps true of a text. *)
Definition unfenced (s : string) : Prop :=
  PyStr.contains "```" (PyStr.replace "```" "" s) = false /\
  (String.prefix "``" (PyStr.replace "```" "" s) = true -> String.prefix "``" s = true) /\
  (String.prefix "`" (PyStr.replace "```" "" s) = true -> String.prefix "`" s = true).


(** ** Sample inputs for the rest of the page *)

Definition sample_keys_text : string := " key-A, key-B ".
Definition sample_interests : list string := ["chess"; "rust"].
Definition sample_units : list string := ["Calculus"; "Physics"; "Chemistry"; "Biology"].

Definition physics_ticked (u : string) : bool := String.eqb u "Physics".
Definition none_ticked (u : string) : bool := false.
Definition all_ticked (u : string) : bool := true.
Definition save_succeeds (n : nat) (units : list string) : Res bool := Ok true.
Definition save_fails (n : nat) (units : list string) : Res bool := Ok false.

(** Out of quota on the first request of the history, a server fault on
    every later one. *)
Definition quota_then_server (tr : list Event) (h : ModelHandle) (p : string) : Res string :=
  match generated tr with
  | [] => Raise quota_error
  | _ => Raise server_error
  end.

Definition sample_response_text (r : string) : Res string := Ok r.

Definition sample_render_ctx (units : list string) (d : string) (window : list Message)
           (prompt : string) : string :=
  (PyText.join ", " units ++ "; " ++ d ++ "; " ++ prompt)%string.

Definition sample_save_config (shown : list ChatEvent) (active : option (list Message))
  : Res bool := Ok true.

Definition sample_chat : Chat :=
  mkChat (sample_state 0) [] ActiveShared ["Calculus"] (Some "Easy (Review)") [].

(** Text outside ASCII: U+00A0 NO-BREAK SPACE, a whitespace character of
    two bytes; the letter e with an acute accent, of two bytes; and an
    error message that spells "leaked" with U+212A KELVIN SIGN. *)
Definition no_break_space : string := String "194" (String "160" "").
Definition e_acute : string := String "195" (String "169" "").

Fixpoint text_repeat (n : nat) (s : string) : string :=
  match n with
  | O => ""
  | S k => (s ++ text_repeat k s)%string
  end.

Definition leaked_with_kelvin_sign : PyExc :=
  mkExc true ("Your key was lea" ++ PyStr.kelvin_sign ++ "ed.").

(** ** Facts about the Python primitives *)

Lemma len_pos {A} (l : list A) : l <> [] -> 0 < len l.
Proof. destruct l; [congruence | unfold len; simpl; lia]. Qed.

Lemma py_mod_ok (a b : Z) : b <> 0 -> py_mod a b = Ok (a mod b).
Proof.
  intros Hb. unfold py_mod.
  destruct (Z.eqb_spec b 0); [contradiction | reflexivity].
Qed.

Lemma py_getitem_ok {A} (l : list A) (d : A) (i : Z) :
  0 <= i < len l -> py_getitem l i = Ok (nth (Z.to_nat i) l d).
Proof.
  intros [Hlo Hhi]. unfold py_getitem.
  destruct (Z.ltb_spec i 0); [lia |].
  destruct (Z.ltb_spec i 0); [lia |].
  assert (Hn : (Z.to_nat i < List.length l)%nat) by (unfold len in Hhi; lia).
  destruct (nth_error l (Z.to_nat i)) eqn:E.
  - rewrite (nth_error_nth _ _ d E). reflexivity.
  - apply nth_error_None in E. lia.
Qed.

Lemma range_cons (n : nat) :
  range (Z.of_nat n + 1) = 0 :: map Z.of_nat (seq 1 n).
Proof.
  unfold range. replace (Z.to_nat (Z.of_nat n + 1)) with (S n) by lia.
  reflexivity.
Qed.

Lemma configure_genai_ok (cursor : Z) (g : Genai) :
  GEMINI_API_KEYS <> [] ->
  configure_genai cursor g =
    (Ok true,
     mkGenai (Some (credential (cursor mod len GEMINI_API_KEYS)))
             (trace g ++ [EvConfigure (credential (cursor mod len GEMINI_API_KEYS))])).
Proof.
  intros Hne. pose proof (len_pos _ Hne) as Hpos.
  unfold configure_genai, try_except, bind, lift_res, genai_configure, ret.
  rewrite py_mod_ok by lia.
  rewrite (py_getitem_ok _ "") by (apply Z.mod_pos_bound; lia).
  reflexivity.
Qed.

Lemma configure_genai_empty (cursor : Z) (g : Genai) :
  GEMINI_API_KEYS = [] -> configure_genai cursor g = (Ok false, g).
Proof.
  intros He. unfold configure_genai, try_except, bind, lift_res.
  rewrite He. reflexivity.
Qed.

(** C10. For every integer cursor and every non-empty pool, the index
    [configure_genai] computes is the cursor modulo the pool length, it lies
    within the pool, the lookup succeeds there, and the call configures
    that credential and answers [True]. *)
Theorem configure_genai_wraps_cursor (cursor : Z) (g : Genai) :
  GEMINI_API_KEYS <> [] ->
  let idx := cursor mod len GEMINI_API_KEYS in
  0 <= idx < len GEMINI_API_KEYS /\
  py_mod cursor (len GEMINI_API_KEYS) = Ok idx /\
  py_getitem GEMINI_API_KEYS idx = Ok (credential idx) /\
  In (credential idx) GEMINI_API_KEYS /\
  configure_genai cursor g =
    (Ok true, mkGenai (Some (credential idx)) (trace g ++ [EvConfigure (credential idx)])).
Proof.
  intros Hne idx. pose proof (len_pos _ Hne) as Hpos.
  assert (Hidx : 0 <= idx < len GEMINI_API_KEYS) by (apply Z.mod_pos_bound; lia).
  split; [exact Hidx |].
  split; [apply py_mod_ok; lia |].
  split; [apply py_getitem_ok; exact Hidx |].
  split.
  - unfold credential. apply nth_In. unfold len in Hidx. lia.
  - apply configure_genai_ok; assumption.
Qed.

(** ** Rotation *)

Lemma rotate_key_single (st : State) :
  len GEMINI_API_KEYS <= 1 ->
  rotate_key st = (Ok false, log [EvToastNoBackup] st).
Proof.
  intros H. unfold rotate_key.
  destruct (Z.leb_spec (len GEMINI_API_KEYS) 1); [reflexivity | lia].
Qed.

Lemma rotate_key_multi (st : State) :
  2 <= len GEMINI_API_KEYS ->
  rotate_key st = (Ok true, rotated st).
Proof.
  intros H. unfold rotate_key.
  destruct (Z.leb_spec (len GEMINI_API_KEYS) 1); [lia |].
  assert (Hne : GEMINI_API_KEYS <> []) by (intros E; rewrite E in H; unfold len in H; simpl in H; lia).
  unfold bind, get_key_index, lift_res, set_key_index, lift_genai, get_model_name,
    set_model, GenerativeModel, emit, ret; simpl.
  rewrite py_mod_ok by lia. simpl.
  rewrite configure_genai_ok by assumption. simpl.
  rewrite Z.mod_mod by lia.
  unfold rotated. rewrite <- app_assoc. reflexivity.
Qed.

(** C2. With at least two entries in the pool [rotate_key] answers [True]
    and moves the cursor to [(cursor + 1) mod length]; with exactly one entry
    it answers [False] and the cursor keeps its value.  Both hold from every
    integer cursor. *)
Theorem rotate_key_contract (st : State) :
  (2 <= len GEMINI_API_KEYS ->
   fst (rotate_key st) = Ok true /\
   key_index (snd (rotate_key st)) = (key_index st + 1) mod len GEMINI_API_KEYS) /\
  (len GEMINI_API_KEYS = 1 ->
   fst (rotate_key st) = Ok false /\
   key_index (snd (rotate_key st)) = key_index st).
Proof.
  split; intros H.
  - rewrite rotate_key_multi by assumption. split; reflexivity.
  - rewrite rotate_key_single by lia. split; reflexivity.
Qed.

Lemma cursors_multi (n : nat) (st : State) :
  2 <= len GEMINI_API_KEYS ->
  cursors n st =
    map (fun j => (key_index st + Z.of_nat j) mod len GEMINI_API_KEYS) (seq 1 n).
Proof.
  intros H. revert st. induction n as [| n IH]; intros st; [reflexivity |].
  simpl cursors. rewrite rotate_key_multi by assumption. simpl snd.
  rewrite IH. cbn [seq map]. f_equal.
  rewrite <- (seq_shift n 1), map_map. apply map_ext. intros j.
  unfold rotated; simpl key_index.
  rewrite Zplus_mod_idemp_l. f_equal. lia.
Qed.

Lemma rotate_n_cursor (n : nat) (st : State) :
  2 <= len GEMINI_API_KEYS ->
  (0 < n)%nat ->
  key_index (rotate_n n st) = (key_index st + Z.of_nat n) mod len GEMINI_API_KEYS.
Proof.
  intros H. revert st. induction n as [| n IH]; intros st Hn; [lia |].
  simpl rotate_n. rewrite rotate_key_multi by assumption. simpl snd.
  destruct n as [| n].
  - reflexivity.
  - rewrite IH by lia. unfold rotated; simpl key_index.
    rewrite Zplus_mod_idemp_l. f_equal. lia.
Qed.

Lemma offsets_nodup (c n : Z) (m : nat) :
  0 < n -> Z.of_nat m <= n ->
  NoDup (map (fun j => (c + Z.of_nat j) mod n) (seq 0 m)).
Proof.
  intros Hn Hm.
  apply NoDup_map_NoDup_ForallPairs; [| apply seq_NoDup].
  intros i j Hi Hj E. apply in_seq in Hi, Hj.
  assert (Hd : (Z.of_nat i - Z.of_nat j) mod n = 0).
  { replace (Z.of_nat i - Z.of_nat j) with ((c + Z.of_nat i) - (c + Z.of_nat j)) by lia.
    rewrite Zminus_mod, E, Z.sub_diag. apply Z.mod_0_l. lia. }
  apply Z.mod_divide in Hd; [| lia].
  destruct Hd as [q Hq].
  assert (q = 0) by nia. subst q. lia.
Qed.

(** C8, amended.  With at least two entries in the pool and from every
    integer cursor: the start together with the cursor after each of the
    [N - 1] calls of [rotate_key] in between are pairwise distinct; [N]
    calls leave the cursor at the start modulo [N]; and that is the start
    exactly when the start is inside the pool ([0 <= cursor < N]). *)
Theorem rotate_key_full_cycle (st : State) :
  2 <= len GEMINI_API_KEYS ->
  NoDup (key_index st :: cursors (List.length GEMINI_API_KEYS - 1) st) /\
  key_index (rotate_n (List.length GEMINI_API_KEYS) st) =
    key_index st mod len GEMINI_API_KEYS /\
  (key_index (rotate_n (List.length GEMINI_API_KEYS) st) = key_index st <->
   0 <= key_index st < len GEMINI_API_KEYS).
Proof.
  intros HN.
  assert (Hend : key_index (rotate_n (List.length GEMINI_API_KEYS) st) =
                 key_index st mod len GEMINI_API_KEYS).
  { rewrite rotate_n_cursor by (unfold len in HN; lia || assumption).
    fold (len GEMINI_API_KEYS).
    rewrite <- Zplus_mod_idemp_r, Z.mod_same, Z.add_0_r by lia. reflexivity. }
  split; [| split; [exact Hend |]].
  - rewrite cursors_multi by assumption. constructor.
    + intros Hin. apply in_map_iff in Hin as (j & Hj & Hr). apply in_seq in Hr.
      assert (Hk : 0 <= key_index st < len GEMINI_API_KEYS)
        by (rewrite <- Hj; apply Z.mod_pos_bound; lia).
      pose proof (Z.div_mod (key_index st + Z.of_nat j) (len GEMINI_API_KEYS)) as Hd.
      rewrite Hj in Hd.
      set (q := (key_index st + Z.of_nat j) / len GEMINI_API_KEYS) in Hd.
      assert (Hjq : Z.of_nat j = len GEMINI_API_KEYS * q) by lia.
      assert (Hjn : 0 < Z.of_nat j < len GEMINI_API_KEYS) by (unfold len in *; lia).
      assert (0 < q) by nia. assert (q < 1) by nia. lia.
    + pose proof (offsets_nodup (key_index st + 1) (len GEMINI_API_KEYS)
                    (List.length GEMINI_API_KEYS - 1)) as Hnd.
      rewrite <- (seq_shift (List.length GEMINI_API_KEYS - 1) 0), map_map.
      erewrite map_ext; [apply Hnd; unfold len in *; lia |].
      intros j. cbv beta. f_equal. lia.
  - rewrite Hend. split.
    + intros E. rewrite <- E. apply Z.mod_pos_bound. lia.
    + intros Hc. apply Z.mod_small. exact Hc.
Qed.

(** ** One turn of the retry loop *)

Lemma log_log (e1 e2 : list Event) (st : State) :
  log e2 (log e1 st) = log (e1 ++ e2) st.
Proof. unfold log; simpl. rewrite app_assoc. reflexivity. Qed.

Lemma attempt_success (prompt : string) (max_retries attempt : Z) (st : State) (r : Response) :
  generate_content (trace (genai st)) (model st) prompt = Ok r ->
  ask_orbit_attempt prompt max_retries attempt st =
    (Ok (Return (Some r)), log [EvGenerate (model st) prompt] st).
Proof.
  intros H.
  unfold ask_orbit_attempt, try_except, bind, model_generate_content, get_model, lift_genai.
  simpl. rewrite H. reflexivity.
Qed.

Lemma attempt_uncaught (prompt : string) (max_retries attempt : Z) (st : State) (e : PyExc) :
  generate_content (trace (genai st)) (model st) prompt = Raise e ->
  is_Exception e = false ->
  ask_orbit_attempt prompt max_retries attempt st =
    (Raise e, log [EvGenerate (model st) prompt] st).
Proof.
  intros H He.
  unfold ask_orbit_attempt, try_except, bind, model_generate_content, get_model, lift_genai.
  simpl. rewrite H, He. reflexivity.
Qed.

Lemma attempt_rotating (prompt : string) (max_retries attempt : Z) (st : State) (e : PyExc) :
  generate_content (trace (genai st)) (model st) prompt = Raise e ->
  is_Exception e = true ->
  rotates e = true ->
  ask_orbit_attempt prompt max_retries attempt st =
    if len GEMINI_API_KEYS <=? 1
    then (Ok (Return None), log [EvGenerate (model st) prompt; EvToastNoBackup] st)
    else (Ok Continue, quota_round prompt st).
Proof.
  intros H He Hr. unfold rotates in Hr.
  unfold ask_orbit_attempt, try_except, bind, model_generate_content, get_model, lift_genai.
  simpl. rewrite H, He, Hr.
  fold (log [EvGenerate (model st) prompt] st).
  destruct (Z.leb_spec (len GEMINI_API_KEYS) 1).
  - rewrite rotate_key_single by assumption. rewrite log_log. reflexivity.
  - rewrite rotate_key_multi by lia. reflexivity.
Qed.

Lemma attempt_transient (prompt : string) (max_retries attempt : Z) (st : State) (e : PyExc) :
  generate_content (trace (genai st)) (model st) prompt = Raise e ->
  is_Exception e = true ->
  rotates e = false ->
  ask_orbit_attempt prompt max_retries attempt st =
    if attempt <? max_retries - 1
    then (Ok Continue, transient_round prompt (exc_str e) st)
    else (Ok (Return None),
          log [EvGenerate (model st) prompt; EvPrintChatError (exc_str e)] st).
Proof.
  intros H He Hr. unfold rotates in Hr.
  unfold ask_orbit_attempt, try_except, bind, model_generate_content, get_model, lift_genai.
  simpl. rewrite H, He, Hr.
  destruct (attempt <? max_retries - 1); unfold transient_round, log; simpl;
    rewrite <- ?app_assoc; reflexivity.
Qed.

Lemma ask_orbit_unfold (prompt : string) (st : State) :
  ask_orbit prompt st =
    match for_in (0 :: map Z.of_nat (seq 1 (List.length GEMINI_API_KEYS)))
                 (ask_orbit_attempt prompt (len GEMINI_API_KEYS + 1)) st with
    | (Ok (Return r), st') => (Ok r, st')
    | (Ok Continue, st') => (Ok None, st')
    | (Raise e, st') => (Raise e, st')
    end.
Proof.
  unfold ask_orbit. cbv zeta.
  replace (range (len GEMINI_API_KEYS + 1))
    with (0 :: map Z.of_nat (seq 1 (List.length GEMINI_API_KEYS)))
    by (symmetry; apply range_cons).
  unfold bind at 1.
  destruct (for_in _ _ st) as [[[| r] | e] st']; reflexivity.
Qed.

(** ** The dispatcher *)

(** C7. When the first request succeeds, [ask_orbit] returns its response;
    the state it leaves differs from the one it found by that single request
    in the history: the cursor, the handle and the configured credential are
    the same, and no rotation, pause or further request took place. *)
Theorem ask_orbit_first_success (prompt : string) (st : State) (r : Response) :
  generate_content (trace (genai st)) (model st) prompt = Ok r ->
  ask_orbit prompt st = (Ok (Some r), log [EvGenerate (model st) prompt] st) /\
  key_index (snd (ask_orbit prompt st)) = key_index st /\
  rotations (trace (genai (snd (ask_orbit prompt st)))) = rotations (trace (genai st)) /\
  generated (trace (genai (snd (ask_orbit prompt st)))) =
    generated (trace (genai st)) ++ [model st].
Proof.
  intros H.
  assert (E : ask_orbit prompt st = (Ok (Some r), log [EvGenerate (model st) prompt] st)).
  { rewrite ask_orbit_unfold. cbn [for_in]. unfold bind at 1.
    rewrite (attempt_success _ _ _ _ _ H). reflexivity. }
  rewrite E. simpl. repeat split.
  - unfold rotations. rewrite filter_app, length_app. simpl. lia.
  - unfold generated. rewrite flat_map_app. reflexivity.
Qed.

(** C4. With exactly one credential in the pool, a request that fails with
    a Quota- or Auth-class error ends the loop on the spot, whatever turns
    are left: the rotation it attempts answers [False], the loop returns
    [None], and so does [ask_orbit] when the failure is that of its first
    request, with a second turn still in its budget of two.  The cursor and
    the handle keep their values; the history gains the request and the
    notice that no backup key exists. *)
Theorem ask_orbit_single_key_terminal (prompt : string) (st : State) (e : PyExc) :
  len GEMINI_API_KEYS = 1 ->
  generate_content (trace (genai st)) (model st) prompt = Raise e ->
  is_Exception e = true ->
  is_quota (exc_str e) || is_auth (exc_str e) = true ->
  let st' := log [EvGenerate (model st) prompt; EvToastNoBackup] st in
  (forall max_retries attempt remaining,
     for_in (attempt :: remaining) (ask_orbit_attempt prompt max_retries) st =
       (Ok (Return None), st')) /\
  ask_orbit prompt st = (Ok None, st') /\
  fst (rotate_key (log [EvGenerate (model st) prompt] st)) = Ok false /\
  range (len GEMINI_API_KEYS + 1) = [0; 1] /\
  key_index st' = key_index st /\
  model st' = model st.
Proof.
  intros H1 H He Hr st'.
  assert (Hloop : forall max_retries attempt remaining,
     for_in (attempt :: remaining) (ask_orbit_attempt prompt max_retries) st =
       (Ok (Return None), st')).
  { intros mr a rest. cbn [for_in]. unfold bind at 1.
    rewrite (attempt_rotating _ _ _ _ _ H He Hr).
    destruct (Z.leb_spec (len GEMINI_API_KEYS) 1); [reflexivity | lia]. }
  split; [exact Hloop |].
  split; [rewrite ask_orbit_unfold, Hloop; reflexivity |].
  split; [rewrite rotate_key_single by lia; reflexivity |].
  rewrite H1. repeat split.
Qed.

Lemma generated_app (tr evs : list Event) :
  generated (tr ++ evs) = generated tr ++ generated evs.
Proof. unfold generated. apply flat_map_app. Qed.

Lemma rotations_app (tr evs : list Event) :
  rotations (tr ++ evs) = (rotations tr + rotations evs)%nat.
Proof. unfold rotations. rewrite filter_app, length_app. reflexivity. Qed.

Lemma probes_app (tr evs : list Event) :
  probes (tr ++ evs) = (probes tr + probes evs)%nat.
Proof. unfold probes. rewrite filter_app, length_app. reflexivity. Qed.

(** The loop when every request through the handle fails with a Transient
    error: [attempt] is the index of the next turn and [n] the number of
    turns left, so that [attempt + n] is the budget. *)
Lemma transient_loop (prompt : string) (h : ModelHandle) :
  (forall tr, exists e,
      generate_content tr h prompt = Raise e /\
      is_Exception e = true /\ rotates e = false) ->
  forall (n attempt : nat) (st : State),
    model st = h ->
    (attempt + n = S (List.length GEMINI_API_KEYS))%nat ->
    exists st',
      for_in (map Z.of_nat (seq attempt n))
             (ask_orbit_attempt prompt (len GEMINI_API_KEYS + 1)) st =
        (Ok (match n with O => Continue | S _ => Return None end), st') /\
      key_index st' = key_index st /\
      model st' = h /\
      generated (trace (genai st')) = generated (trace (genai st)) ++ repeat h n /\
      rotations (trace (genai st')) = rotations (trace (genai st)).
Proof.
  intros Hfail. induction n as [| n IH]; intros attempt st Hm Hsum.
  - exists st. simpl. rewrite app_nil_r. repeat split; auto.
  - destruct (Hfail (trace (genai st))) as (e & Hg & He & Hr).
    rewrite <- Hm in Hg.
    cbn [seq map for_in]. unfold bind at 1.
    rewrite (attempt_transient _ _ _ _ _ Hg He Hr).
    destruct (Z.ltb_spec (Z.of_nat attempt) (len GEMINI_API_KEYS + 1 - 1)) as [Hlt | Hge].
    + destruct n as [| n]; [exfalso; unfold len in Hlt; lia |].
      destruct (IH (S attempt) (transient_round prompt (exc_str e) st))
        as (st' & Hrun & Hk & Hm' & Hgen & Hrot); [exact Hm | lia |].
      exists st'. rewrite Hrun. split; [reflexivity |].
      split; [exact Hk |]. split; [exact Hm' |].
      split.
      * rewrite Hgen. unfold transient_round, log; simpl.
        rewrite generated_app, <- app_assoc, Hm. reflexivity.
      * rewrite Hrot. unfold transient_round, log; simpl.
        rewrite rotations_app. unfold rotations at 2. simpl. lia.
    + destruct n as [| n]; [| exfalso; unfold len in Hge; lia].
      eexists. split; [reflexivity |]. unfold log; simpl.
      split; [reflexivity |]. split; [exact Hm |].
      split.
      * rewrite generated_app, Hm. reflexivity.
      * rewrite rotations_app. unfold rotations at 2. simpl. lia.
Qed.

(** C6. With a non-empty pool: (1) one turn whose request fails with a
    Transient error continues with the same cursor and handle after the
    pause exactly when its index is below the last one of the budget, and
    returns [None] otherwise; (2) when the first request fails with a
    Transient error and the second succeeds, [ask_orbit] returns the second
    response, both requests having gone through the same handle, with the
    cursor unchanged and no rotation; (3) when every request through the
    handle fails with a Transient error, [ask_orbit] makes as many requests
    as the budget, [N + 1], all through that handle, never rotates, and
    returns [None]. *)
Theorem ask_orbit_transient_retry (prompt : string) (st : State) :
  GEMINI_API_KEYS <> [] ->
  (forall e max_retries attempt,
     generate_content (trace (genai st)) (model st) prompt = Raise e ->
     is_Exception e = true ->
     is_quota (exc_str e) || is_auth (exc_str e) = false ->
     ask_orbit_attempt prompt max_retries attempt st =
       if attempt <? max_retries - 1
       then (Ok Continue,
             log [EvGenerate (model st) prompt; EvPrintChatError (exc_str e); EvSleep 1] st)
       else (Ok (Return None),
             log [EvGenerate (model st) prompt; EvPrintChatError (exc_str e)] st)) /\
  (forall e r,
     generate_content (trace (genai st)) (model st) prompt = Raise e ->
     is_Exception e = true ->
     is_quota (exc_str e) || is_auth (exc_str e) = false ->
     generate_content
       (trace (genai st) ++ [EvGenerate (model st) prompt; EvPrintChatError (exc_str e); EvSleep 1])
       (model st) prompt = Ok r ->
     ask_orbit prompt st =
       (Ok (Some r),
        log [EvGenerate (model st) prompt; EvPrintChatError (exc_str e); EvSleep 1;
             EvGenerate (model st) prompt] st) /\
     key_index (snd (ask_orbit prompt st)) = key_index st /\
     model (snd (ask_orbit prompt st)) = model st /\
     rotations (trace (genai (snd (ask_orbit prompt st)))) = rotations (trace (genai st))) /\
  ((forall tr, exists e,
       generate_content tr (model st) prompt = Raise e /\
       is_Exception e = true /\
       is_quota (exc_str e) || is_auth (exc_str e) = false) ->
   exists st',
     ask_orbit prompt st = (Ok None, st') /\
     key_index st' = key_index st /\
     model st' = model st /\
     generated (trace (genai st')) =
       generated (trace (genai st)) ++ repeat (model st) (S (List.length GEMINI_API_KEYS)) /\
     rotations (trace (genai st')) = rotations (trace (genai st))).
Proof.
  intros Hne. split; [| split].
  - intros e mr a Hg He Hr. apply attempt_transient; assumption.
  - intros e r Hg He Hr Hg2.
    assert (E : ask_orbit prompt st =
       (Ok (Some r),
        log [EvGenerate (model st) prompt; EvPrintChatError (exc_str e); EvSleep 1;
             EvGenerate (model st) prompt] st)).
    { rewrite ask_orbit_unfold.
      destruct GEMINI_API_KEYS as [| k0 pool] eqn:Epool; [congruence |].
      cbn [List.length seq map for_in]. unfold bind at 1.
      rewrite (attempt_transient _ _ _ _ _ Hg He Hr).
      destruct (Z.ltb_spec 0 (len (k0 :: pool) + 1 - 1)) as [_ | Hge];
        [| unfold len in Hge; simpl List.length in Hge; lia].
      unfold bind at 1.
      rewrite (attempt_success prompt _ _ (transient_round prompt (exc_str e) st) r)
        by exact Hg2.
      unfold transient_round. rewrite log_log. reflexivity. }
    rewrite E. simpl. repeat split.
    rewrite rotations_app. unfold rotations at 2. simpl. lia.
  - intros Hfail.
    destruct (transient_loop prompt (model st) Hfail
                (S (List.length GEMINI_API_KEYS)) 0%nat st eq_refl eq_refl)
      as (st' & Hrun & Hk & Hm & Hgen & Hrot).
    exists st'. rewrite ask_orbit_unfold.
    change (0 :: map Z.of_nat (seq 1 (List.length GEMINI_API_KEYS)))
      with (map Z.of_nat (seq 0 (S (List.length GEMINI_API_KEYS)))).
    rewrite Hrun. repeat split; assumption.
Qed.

(** The loop when every request fails with an error that rotates. *)
Lemma quota_loop (prompt : string) (max_retries : Z) :
  2 <= len GEMINI_API_KEYS ->
  (forall tr h, exists e,
      generate_content tr h prompt = Raise e /\
      is_Exception e = true /\ rotates e = true) ->
  forall (attempts : list Z) (st : State),
    for_in attempts (ask_orbit_attempt prompt max_retries) st =
      (Ok Continue, quota_rounds prompt (List.length attempts) st).
Proof.
  intros HN Hfail. induction attempts as [| a rest IH]; intros st; [reflexivity |].
  destruct (Hfail (trace (genai st)) (model st)) as (e & Hg & He & Hr).
  cbn [for_in List.length quota_rounds]. unfold bind at 1.
  rewrite (attempt_rotating _ _ _ _ _ Hg He Hr).
  destruct (Z.leb_spec (len GEMINI_API_KEYS) 1); [lia |].
  apply IH.
Qed.

(** The handle [rotate_key] builds for a cursor. *)
Lemma quota_round_fields (prompt : string) (st : State) :
  let k := (key_index st + 1) mod len GEMINI_API_KEYS in
  key_index (quota_round prompt st) = k /\
  model_name (quota_round prompt st) = model_name st /\
  model (quota_round prompt st) = mkHandle (model_name st) (Some (credential k)) /\
  generated (trace (genai (quota_round prompt st))) =
    generated (trace (genai st)) ++ [model st] /\
  rotations (trace (genai (quota_round prompt st))) = S (rotations (trace (genai st))).
Proof.
  unfold quota_round, rotated, log; simpl. repeat split.
  - unfold generated. rewrite !flat_map_app. simpl. rewrite !app_nil_r. reflexivity.
  - unfold rotations. rewrite !filter_app, !length_app. simpl. lia.
Qed.

Lemma quota_rounds_fields (prompt : string) (n : nat) (st : State) :
  let h j := mkHandle (model_name st)
               (Some (credential ((key_index st + Z.of_nat j) mod len GEMINI_API_KEYS))) in
  key_index (quota_rounds prompt (S n) st) =
    (key_index st + Z.of_nat (S n)) mod len GEMINI_API_KEYS /\
  generated (trace (genai (quota_rounds prompt (S n) st))) =
    generated (trace (genai st)) ++ model st :: map h (seq 1 n) /\
  rotations (trace (genai (quota_rounds prompt (S n) st))) =
    (rotations (trace (genai st)) + S n)%nat.
Proof.
  revert st. induction n as [| n IH]; intros st h;
    destruct (quota_round_fields prompt st) as (Hk & Hn & Hm & Hg & Hr).
  - cbn [quota_rounds seq map]. rewrite Hk, Hg, Hr. repeat split. lia.
  - change (quota_rounds prompt (S (S n)) st)
      with (quota_rounds prompt (S n) (quota_round prompt st)).
    destruct (IH (quota_round prompt st)) as (Hk' & Hg' & Hr').
    rewrite Hk', Hg', Hr', Hk, Hn, Hm, Hg, Hr. repeat split.
    + rewrite Zplus_mod_idemp_l. f_equal. lia.
    + rewrite <- app_assoc. cbn [app seq map]. do 3 f_equal.
      rewrite <- (seq_shift n 1), map_map. apply map_ext. intros j.
      unfold h. rewrite Zplus_mod_idemp_l. do 4 f_equal. lia.
    + lia.
Qed.

(** Every entry of the pool lies one to [N] steps ahead of any cursor. *)
Lemma pool_covered (cursor : Z) (key : string) :
  In key GEMINI_API_KEYS ->
  exists j, In j (seq 1 (List.length GEMINI_API_KEYS)) /\
            credential ((cursor + Z.of_nat j) mod len GEMINI_API_KEYS) = key.
Proof.
  intros Hin. destruct (In_nth _ _ "" Hin) as (i & Hi & Hnth).
  set (N := len GEMINI_API_KEYS).
  assert (HN : 0 < N) by (unfold N, len; lia).
  pose proof (Z.mod_pos_bound (Z.of_nat i - cursor - 1) N HN) as Hb.
  exists (S (Z.to_nat ((Z.of_nat i - cursor - 1) mod N))). split.
  - apply in_seq. subst N. unfold len in *. lia.
  - unfold credential. rewrite <- Hnth. f_equal.
    replace (cursor + Z.of_nat (S (Z.to_nat ((Z.of_nat i - cursor - 1) mod N))))
      with ((cursor + 1) + (Z.of_nat i - cursor - 1) mod N) by lia.
    rewrite Zplus_mod_idemp_r.
    replace (cursor + 1 + (Z.of_nat i - cursor - 1)) with (Z.of_nat i) by lia.
    rewrite Z.mod_small by (unfold N, len; lia). lia.
Qed.

(** C1. With [N >= 2] credentials and every request failing with a
    Quota-class error, [ask_orbit] returns [None] after exactly [N + 1]
    requests and as many rotations: the first request goes through the
    handle it found, the [j]-th one after it through a handle rebuilt on the
    credential [j] places further round the pool, so that every credential
    of the pool has been tried; the cursor ends [N + 1] places further. *)
Theorem ask_orbit_all_quota (prompt : string) (st : State) :
  2 <= len GEMINI_API_KEYS ->
  (forall tr h, exists e,
      generate_content tr h prompt = Raise e /\
      is_Exception e = true /\
      is_quota (exc_str e) = true) ->
  let N := List.length GEMINI_API_KEYS in
  let tried j := mkHandle (model_name st)
                   (Some (credential ((key_index st + Z.of_nat j) mod len GEMINI_API_KEYS))) in
  exists st' requests,
    ask_orbit prompt st = (Ok None, st') /\
    generated (trace (genai st')) = generated (trace (genai st)) ++ requests /\
    requests = model st :: map tried (seq 1 N) /\
    List.length requests = S N /\
    Z.of_nat (List.length requests) = len GEMINI_API_KEYS + 1 /\
    rotations (trace (genai st')) = (rotations (trace (genai st)) + S N)%nat /\
    key_index st' = (key_index st + (len GEMINI_API_KEYS + 1)) mod len GEMINI_API_KEYS /\
    (forall key, In key GEMINI_API_KEYS ->
                 In (mkHandle (model_name st) (Some key)) requests).
Proof.
  intros HN Hfail N tried.
  assert (Hfail' : forall tr h, exists e,
      generate_content tr h prompt = Raise e /\
      is_Exception e = true /\ rotates e = true).
  { intros tr h. destruct (Hfail tr h) as (e & Hg & He & Hq).
    exists e. unfold rotates. rewrite Hq. auto. }
  destruct (quota_rounds_fields prompt N st) as (Hk & Hg & Hr).
  exists (quota_rounds prompt (S N) st), (model st :: map tried (seq 1 N)).
  split.
  { rewrite ask_orbit_unfold, (quota_loop prompt _ HN Hfail').
    cbn [List.length]. rewrite length_map, length_seq. reflexivity. }
  split; [exact Hg |]. split; [reflexivity |].
  split; [cbn [List.length]; rewrite length_map, length_seq; reflexivity |].
  split; [cbn [List.length]; rewrite length_map, length_seq; unfold N, len; lia |].
  split; [exact Hr |].
  split; [rewrite Hk; f_equal; unfold N, len; lia |].
  intros key Hin. right.
  destruct (pool_covered (key_index st) key Hin) as (j & Hj & Hc).
  apply in_map_iff. exists j. split; [| exact Hj].
  unfold tried. rewrite Hc. reflexivity.
Qed.

(** ** What a step raises and returns *)

Section Outcomes.

Context {S : Type}.

Lemma raises_ret (P : PyExc -> Prop) {A} (a : A) : raises_only (S := S) P (ret a).
Proof. intros s e s' H. discriminate H. Qed.

Lemma raises_bind (P : PyExc -> Prop) {A B} (m : M S A) (k : A -> M S B) :
  raises_only P m -> (forall a, raises_only P (k a)) -> raises_only P (bind m k).
Proof.
  intros Hm Hk s e s' H. unfold bind in H.
  destruct (m s) as [[a | e0] s0] eqn:E.
  - exact (Hk a _ _ _ H).
  - injection H as <- <-. exact (Hm _ _ _ E).
Qed.

Lemma raises_lift_res (P : PyExc -> Prop) {A} (r : Res A) :
  (forall e, r = Raise e -> P e) -> raises_only (S := S) P (lift_res r).
Proof.
  intros Hr s e s' H. unfold lift_res in H. injection H as -> _.
  apply Hr. reflexivity.
Qed.

(** Out of a [try] comes what the handler raises and what the body raises
    outside the [Exception] class. *)
Lemma raises_try_except (P : PyExc -> Prop) {A} (body : M S A) (handler : PyExc -> M S A) :
  raises_only (fun e => is_Exception e = false -> P e) body ->
  (forall e, raises_only P (handler e)) ->
  raises_only P (try_except body handler).
Proof.
  intros Hb Hh s e s' H. unfold try_except in H.
  destruct (body s) as [[a | e0] s0] eqn:E; [discriminate H |].
  destruct (is_Exception e0) eqn:He.
  - exact (Hh e0 _ _ _ H).
  - injection H as <- <-. exact (Hb _ _ _ E He).
Qed.

Lemma raises_for_in (P : PyExc -> Prop) {A B} (xs : list A) (body : A -> M S (Flow B)) :
  (forall x, raises_only P (body x)) -> raises_only P (for_in xs body).
Proof.
  intros Hb. induction xs as [| x rest IH]; cbn [for_in]; [apply raises_ret |].
  apply raises_bind; [apply Hb |]. intros [| b]; [exact IH | apply raises_ret].
Qed.

Lemma yields_ret {A} (Q : A -> Prop) (a : A) : Q a -> yields (S := S) Q (ret a).
Proof. intros Ha s b s' H. injection H as <- _. exact Ha. Qed.

Lemma yields_bind {A B} (R : A -> Prop) (Q : B -> Prop) (m : M S A) (k : A -> M S B) :
  yields R m -> (forall a, R a -> yields Q (k a)) -> yields Q (bind m k).
Proof.
  intros Hm Hk s b s' H. unfold bind in H.
  destruct (m s) as [[a | e0] s0] eqn:E; [| discriminate H].
  exact (Hk a (Hm _ _ _ E) _ _ _ H).
Qed.

Lemma yields_anything {A} (m : M S A) : yields (fun _ => True) m.
Proof. intros s a s' _. exact I. Qed.

Lemma yields_try_except {A} (Q : A -> Prop) (body : M S A) (handler : PyExc -> M S A) :
  yields Q body -> (forall e, yields Q (handler e)) -> yields Q (try_except body handler).
Proof.
  intros Hb Hh s a s' H. unfold try_except in H.
  destruct (body s) as [[a0 | e0] s0] eqn:E.
  - injection H as <- <-. exact (Hb _ _ _ E).
  - destruct (is_Exception e0); [exact (Hh e0 _ _ _ H) | discriminate H].
Qed.

Lemma yields_for_in {A B} (Q : Flow B -> Prop) (xs : list A) (body : A -> M S (Flow B)) :
  Q Continue -> (forall x, yields Q (body x)) -> yields Q (for_in xs body).
Proof.
  intros Hc Hb. induction xs as [| x rest IH]; cbn [for_in]; [apply yields_ret, Hc |].
  apply (yields_bind Q); [apply Hb |].
  intros [| b] Hfl; [exact IH | apply yields_ret, Hfl].
Qed.

End Outcomes.

Lemma raises_lift_genai (P : PyExc -> Prop) {A} (m : M Genai A) :
  raises_only P m -> raises_only P (lift_genai m).
Proof.
  intros Hm s e s' H. unfold lift_genai in H.
  destruct (m (genai s)) as [r g] eqn:E. injection H as -> _. exact (Hm _ _ _ E).
Qed.

Lemma py_mod_raises (a b : Z) (e : PyExc) : py_mod a b = Raise e -> is_Exception e = true.
Proof.
  unfold py_mod. destruct (b =? 0); intros H; [| discriminate H].
  injection H as <-. reflexivity.
Qed.

Lemma py_getitem_raises {A} (l : list A) (i : Z) (e : PyExc) :
  py_getitem l i = Raise e -> is_Exception e = true.
Proof.
  unfold py_getitem. destruct (_ <? 0).
  - intros H. injection H as <-. reflexivity.
  - destruct (nth_error _ _); intros H; [discriminate H |]. injection H as <-. reflexivity.
Qed.

(** ** What the dispatcher raises *)

Section LibraryFacts.

Variable lib : list Event -> Call -> option PyExc.
Variable prompt : string.

(** [P] holds of what the library raises where the script does not catch
    it, and of what a request raises outside the [Exception] class. *)
Variable P : PyExc -> Prop.
Hypothesis from_library :
  forall tr c e, lib tr c = Some e -> (protected c = true -> is_Exception e = false) -> P e.
Hypothesis from_request :
  forall tr h e, generate_content tr h prompt = Raise e -> is_Exception e = false -> P e.

Lemma emit_env_raises (ev : Event) :
  protected (Logged ev) = false -> raises_only P (emit_env lib ev).
Proof.
  intros Hp g e g' H. unfold emit_env in H.
  destruct (lib (trace g) (Logged ev)) as [e0 |] eqn:E; [| discriminate H].
  injection H as <- _. apply (from_library _ _ _ E). rewrite Hp. discriminate.
Qed.

Lemma GenerativeModel_env_raises (n : string) : raises_only P (GenerativeModel_env lib n).
Proof.
  intros g e g' H. unfold GenerativeModel_env in H.
  destruct (lib (trace g) (Build n)) as [e0 |] eqn:E; [| discriminate H].
  injection H as <- _. apply (from_library _ _ _ E). discriminate.
Qed.

Lemma configure_genai_env_raises (k : Z) : raises_only P (configure_genai_env lib k).
Proof.
  unfold configure_genai_env.
  apply raises_try_except; [| intros e; apply raises_ret].
  apply raises_bind.
  { apply raises_lift_res. intros e H He. rewrite (py_mod_raises _ _ _ H) in He.
    discriminate He. }
  intros idx. apply raises_bind.
  { apply raises_lift_res. intros e H He. rewrite (py_getitem_raises _ _ _ H) in He.
    discriminate He. }
  intros key. apply raises_bind; [| intros _; apply raises_ret].
  intros g e g' H He. unfold genai_configure_env in H.
  destruct (lib (trace g) (Logged (EvConfigure key))) as [e0 |] eqn:E; [| discriminate H].
  injection H as <- _. apply (from_library _ _ _ E). intros _. exact He.
Qed.

Lemma rotate_key_env_raises : raises_only P (rotate_key_env lib).
Proof.
  unfold rotate_key_env. destruct (Z.leb_spec (len GEMINI_API_KEYS) 1) as [Hle | Hgt].
  - apply raises_bind; [| intros _; apply raises_ret].
    apply raises_lift_genai, emit_env_raises. reflexivity.
  - apply raises_bind; [intros s e s' H; discriminate H |]. intros k.
    apply raises_bind.
    { apply raises_lift_res. intros e H. unfold py_mod in H.
      destruct (Z.eqb_spec (len GEMINI_API_KEYS) 0); [lia | discriminate H]. }
    intros k'. apply raises_bind; [intros s e s' H; discriminate H |]. intros _.
    apply raises_bind; [intros s e s' H; discriminate H |]. intros k2.
    apply raises_bind; [apply raises_lift_genai, configure_genai_env_raises |]. intros _.
    apply raises_bind; [intros s e s' H; discriminate H |]. intros n.
    apply raises_bind; [apply raises_lift_genai, GenerativeModel_env_raises |]. intros h.
    apply raises_bind; [intros s e s' H; discriminate H |]. intros _.
    apply raises_bind; [intros s e s' H; discriminate H |]. intros k3.
    apply raises_bind; [| intros _; apply raises_ret].
    apply raises_lift_genai, emit_env_raises. reflexivity.
Qed.

Lemma attempt_env_raises (max_retries attempt : Z) :
  raises_only P (ask_orbit_attempt_env lib prompt max_retries attempt).
Proof.
  unfold ask_orbit_attempt_env. apply raises_try_except.
  - apply raises_bind; [| intros r; apply raises_ret].
    intros s e s' H He.
    unfold model_generate_content, bind, get_model, lift_genai in H.
    destruct (generate_content (trace (genai s)) (model s) prompt) as [r | e0] eqn:E;
      [discriminate H |].
    injection H as <- _. exact (from_request _ _ _ E He).
  - intros e. cbv zeta. destruct (is_quota (exc_str e) || is_auth (exc_str e)).
    + apply raises_bind; [apply rotate_key_env_raises |].
      intros [|]; [| apply raises_ret].
      apply raises_bind; [| intros _; apply raises_ret].
      apply raises_lift_genai, emit_env_raises. reflexivity.
    + apply raises_bind; [apply raises_lift_genai, emit_env_raises; reflexivity |].
      intros _. destruct (attempt <? max_retries - 1); [| apply raises_ret].
      apply raises_bind; [| intros _; apply raises_ret].
      apply raises_lift_genai, emit_env_raises. reflexivity.
Qed.

Lemma ask_orbit_env_raises : raises_only P (ask_orbit_env lib prompt).
Proof.
  unfold ask_orbit_env. cbv zeta.
  apply raises_bind; [apply raises_for_in; intros a; apply attempt_env_raises |].
  intros [| r]; apply raises_ret.
Qed.

End LibraryFacts.

(** A response that comes out of the loop is one the backend gave to a
    request for the prompt. *)
Lemma attempt_env_yields (lib : list Event -> Call -> option PyExc) (prompt : string)
      (max_retries attempt : Z) :
  yields (fun fl => forall resp, fl = Return (Some resp) ->
                                 exists tr h, generate_content tr h prompt = Ok resp)
         (ask_orbit_attempt_env lib prompt max_retries attempt).
Proof.
  unfold ask_orbit_attempt_env. apply yields_try_except.
  - apply (yields_bind (fun r => exists tr h, generate_content tr h prompt = Ok r)).
    + intros s r s' H. unfold model_generate_content, bind, get_model, lift_genai in H.
      destruct (generate_content (trace (genai s)) (model s) prompt) as [r0 | e0] eqn:E;
        [| discriminate H].
      injection H as <- _. eauto.
    + intros r Hr. apply yields_ret. intros resp E. injection E as <-. exact Hr.
  - intros e. cbv zeta. destruct (is_quota (exc_str e) || is_auth (exc_str e)).
    + apply (yields_bind (fun _ => True)); [apply yields_anything |].
      intros [|] _.
      * apply (yields_bind (fun _ => True)); [apply yields_anything |].
        intros _ _. apply yields_ret. intros resp E. discriminate E.
      * apply yields_ret. intros resp E. discriminate E.
    + apply (yields_bind (fun _ => True)); [apply yields_anything |].
      intros _ _. destruct (attempt <? max_retries - 1).
      * apply (yields_bind (fun _ => True)); [apply yields_anything |].
        intros _ _. apply yields_ret. intros resp E. discriminate E.
      * apply yields_ret. intros resp E. discriminate E.
Qed.

Lemma ask_orbit_env_yields (lib : list Event -> Call -> option PyExc) (prompt : string) :
  yields (fun r => forall resp, r = Some resp ->
                                exists tr h, generate_content tr h prompt = Ok resp)
         (ask_orbit_env lib prompt).
Proof.
  unfold ask_orbit_env. cbv zeta.
  apply (yields_bind (fun fl => forall resp, fl = Return (Some resp) ->
                                  exists tr h, generate_content tr h prompt = Ok resp)).
  - apply yields_for_in; [intros resp E; discriminate E |].
    intros a. apply attempt_env_yields.
  - intros [| r] Hfl; apply yields_ret.
    + intros resp E. discriminate E.
    + intros resp E. apply Hfl. rewrite E. reflexivity.
Qed.

(** With a library whose calls all return, the dispatcher is the
    [ask_orbit] of the other statements. *)
Lemma ask_orbit_env_quiet (prompt : string) (st : State) :
  ask_orbit_env quiet prompt st = ask_orbit prompt st.
Proof. reflexivity. Qed.

(** C3, amended.  [ask_orbit] returns and raises nothing, whatever the
    prompt and the state, provided that what a request raises is an
    instance of [Exception] and that the library calls it makes outside a
    [try] ([st.toast], [genai.GenerativeModel], [time.sleep] and [print])
    return normally, [genai.configure] being free to raise an instance of
    [Exception].  Its result is then [None] or a response, and a response
    it returns is one the backend gave to a request for this prompt. *)
Theorem ask_orbit_never_raises (lib : list Event -> Call -> option PyExc)
        (prompt : string) (st : State) :
  (forall tr h e, generate_content tr h prompt = Raise e -> is_Exception e = true) ->
  (forall tr c e, lib tr c = Some e -> protected c = true /\ is_Exception e = true) ->
  exists (r : option Response) (st' : State),
    ask_orbit_env lib prompt st = (Ok r, st') /\
    (forall resp, r = Some resp ->
                  exists tr h, generate_content tr h prompt = Ok resp).
Proof.
  intros Hexc Hlib.
  destruct (ask_orbit_env lib prompt st) as [[r | e] st'] eqn:E.
  - exists r, st'. split; [reflexivity |]. exact (ask_orbit_env_yields lib prompt _ _ _ E).
  - exfalso. apply (ask_orbit_env_raises lib prompt (fun _ => False)) with st e st';
      [| | exact E].
    + intros tr c e0 H Hp. destruct (Hlib _ _ _ H) as [Hc He].
      rewrite (Hp Hc) in He. discriminate He.
    + intros tr h e0 H He. rewrite (Hexc _ _ _ H) in He. discriminate He.
Qed.

(** ** Model-name resolution *)

Lemma for_in_first {S} (p : string -> bool) (f : string -> string)
      (l : list string) (s : S) :
  for_in l (fun m => if p m then ret (Return (f m)) else ret Continue) s =
    (Ok (match find p l with Some m => Return (f m) | None => Continue end), s).
Proof.
  induction l as [| m l IH]; [reflexivity |].
  cbn [for_in find]. unfold bind at 1.
  destruct (p m); [reflexivity | exact IH].
Qed.

Lemma configure_genai_total (cursor : Z) (g : Genai) :
  exists b, configure_genai cursor g = (Ok b, snd (configure_genai cursor g)) /\
            probes (trace (snd (configure_genai cursor g))) = probes (trace g).
Proof.
  assert (GEMINI_API_KEYS = [] \/ GEMINI_API_KEYS <> []) as [E | E]
    by (destruct GEMINI_API_KEYS; [left | right]; congruence).
  - exists false. rewrite configure_genai_empty by exact E. auto.
  - exists true. rewrite configure_genai_ok by exact E.
    split; [reflexivity |]. simpl. rewrite probes_app. unfold probes at 2. simpl. lia.
Qed.

Lemma resolve_model_name_eq (cursor : Z) (g : Genai) :
  let g1 := snd (configure_genai cursor g) in
  resolve_model_name cursor g =
    (match list_models (trace g1) (api_key g1) with
     | Ok models => Ok (select_by_priority (valid_models_of models))
     | Raise e => if is_Exception e then Ok "gemini-1.5-flash" else Raise e
     end,
     mkGenai (api_key g1) (trace g1 ++ [EvListModels])).
Proof.
  intros g1. destruct (configure_genai_total cursor g) as (b & Hc & _).
  fold g1 in Hc.
  unfold resolve_model_name, try_except. unfold bind at 1. unfold bind at 1.
  rewrite Hc. unfold bind at 1. unfold genai_list_models.
  destruct (list_models (trace g1) (api_key g1)) as [models | e].
  - unfold bind at 1. rewrite for_in_first. unfold select_by_priority.
    destruct (find is_flash_1_5 (valid_models_of models)); [reflexivity |].
    unfold bind at 1. rewrite for_in_first.
    destruct (find is_any_flash (valid_models_of models)); [reflexivity |].
    destruct (valid_models_of models); reflexivity.
  - destruct (is_Exception e); reflexivity.
Qed.

Lemma find_flash_1_5 (valid_models : list string) :
  In "models/gemini-1.5-flash" valid_models ->
  (forall m, In m valid_models ->
             m = "models/gemini-1.5-flash" \/ m = "models/gemini-1.5-flash-latest") ->
  find is_flash_1_5 valid_models = Some "models/gemini-1.5-flash".
Proof.
  induction valid_models as [| m l IH]; intros Hin Hall; [contradiction |].
  cbn [find]. destruct (Hall m (or_introl eq_refl)) as [-> | ->].
  - reflexivity.
  - change (is_flash_1_5 "models/gemini-1.5-flash-latest") with false. cbv iota.
    apply IH.
    + destruct Hin as [E | Hin]; [discriminate E | exact Hin].
    + intros m' Hm'. apply Hall. right. exact Hm'.
Qed.

(** C5. [resolve_model_name] configures the client, probes the catalog once
    and returns: when the probe answers, the name the priorities select
    among the models that can generate content, with the "models/" prefix
    removed -- the first Flash 1.5 that is neither "latest" nor "exp", else
    the first "flash" that is neither "gemini-2" nor "exp", else the first
    model, else "gemini-1.5-flash"; when the probe raises an error,
    "gemini-1.5-flash".  A catalog whose capable models are
    "models/gemini-1.5-flash" and "models/gemini-1.5-flash-latest", in any
    order, resolves to "gemini-1.5-flash". *)
Theorem resolve_model_name_priority (cursor : Z) (g : Genai) :
  let g1 := snd (configure_genai cursor g) in
  let probe := list_models (trace g1) (api_key g1) in
  resolve_model_name cursor g =
    (match probe with
     | Ok models => Ok (select_by_priority (valid_models_of models))
     | Raise e => if is_Exception e then Ok "gemini-1.5-flash" else Raise e
     end,
     mkGenai (api_key g1) (trace g1 ++ [EvListModels])) /\
  (forall models m,
     probe = Ok models ->
     find is_flash_1_5 (valid_models_of models) = Some m ->
     fst (resolve_model_name cursor g) = Ok (PyStr.replace "models/" "" m)) /\
  (forall models m,
     probe = Ok models ->
     find is_flash_1_5 (valid_models_of models) = None ->
     find is_any_flash (valid_models_of models) = Some m ->
     fst (resolve_model_name cursor g) = Ok (PyStr.replace "models/" "" m)) /\
  (forall models m rest,
     probe = Ok models ->
     find is_flash_1_5 (valid_models_of models) = None ->
     find is_any_flash (valid_models_of models) = None ->
     valid_models_of models = m :: rest ->
     fst (resolve_model_name cursor g) = Ok (PyStr.replace "models/" "" m)) /\
  (forall models,
     probe = Ok models ->
     valid_models_of models = [] ->
     fst (resolve_model_name cursor g) = Ok "gemini-1.5-flash") /\
  (forall e,
     probe = Raise e ->
     is_Exception e = true ->
     fst (resolve_model_name cursor g) = Ok "gemini-1.5-flash") /\
  (forall models,
     probe = Ok models ->
     In "models/gemini-1.5-flash" (valid_models_of models) ->
     (forall m, In m (valid_models_of models) ->
                m = "models/gemini-1.5-flash" \/ m = "models/gemini-1.5-flash-latest") ->
     fst (resolve_model_name cursor g) = Ok "gemini-1.5-flash").
Proof.
  intros g1 probe. pose proof (resolve_model_name_eq cursor g) as E.
  split; [exact E |]. rewrite E. cbn [fst]. unfold select_by_priority.
  subst probe. fold g1. repeat split.
  - intros models m Hp Hf. rewrite Hp, Hf. reflexivity.
  - intros models m Hp Hf Hf2. rewrite Hp, Hf, Hf2. reflexivity.
  - intros models m rest Hp Hf Hf2 Hv. rewrite Hp, Hf, Hf2, Hv. reflexivity.
  - intros models Hp Hv. rewrite Hp, Hv. reflexivity.
  - intros e Hp He. rewrite Hp, He. reflexivity.
  - intros models Hp Hin Hall. rewrite Hp, (find_flash_1_5 _ Hin Hall). reflexivity.
Qed.

(** ** What a step leaves unchanged *)

Section Frames.

Context {S : Type} (R : S -> S -> Prop).
Hypothesis R_refl : forall s, R s s.
Hypothesis R_trans : forall a b c, R a b -> R b c -> R a c.

Lemma preserves_ret {A} (a : A) : preserves R (ret a).
Proof. intros s. apply R_refl. Qed.

Lemma preserves_bind {A B} (m : M S A) (k : A -> M S B) :
  preserves R m -> (forall a, preserves R (k a)) -> preserves R (bind m k).
Proof.
  intros Hm Hk s. unfold bind. specialize (Hm s).
  destruct (m s) as [[a | e] s1]; simpl in *.
  - eapply R_trans; [exact Hm | apply Hk].
  - exact Hm.
Qed.

Lemma preserves_try_except {A} (body : M S A) (handler : PyExc -> M S A) :
  preserves R body -> (forall e, preserves R (handler e)) ->
  preserves R (try_except body handler).
Proof.
  intros Hb Hh s. unfold try_except. specialize (Hb s).
  destruct (body s) as [[a | e] s1]; simpl in *; [exact Hb |].
  destruct (is_Exception e); [| exact Hb].
  eapply R_trans; [exact Hb | apply Hh].
Qed.

Lemma preserves_for_in {A B} (xs : list A) (body : A -> M S (Flow B)) :
  (forall x, preserves R (body x)) -> preserves R (for_in xs body).
Proof.
  intros Hb. induction xs as [| x rest IH]; cbn [for_in].
  - apply preserves_ret.
  - apply preserves_bind; [apply Hb |].
    intros [| b]; [exact IH | apply preserves_ret].
Qed.

End Frames.

Lemma same_resolution_refl (s : State) : same_resolution s s.
Proof. split; reflexivity. Qed.

Lemma same_resolution_trans (a b c : State) :
  same_resolution a b -> same_resolution b c -> same_resolution a c.
Proof. unfold same_resolution. intros [? ?] [? ?]. split; congruence. Qed.

Lemma emit_same_probes (ev : Event) :
  ev <> EvListModels -> preserves same_probes (emit ev).
Proof.
  intros Hev g. unfold same_probes, emit; simpl.
  rewrite probes_app. unfold probes at 2.
  destruct ev; try contradiction; simpl; lia.
Qed.

Lemma lift_genai_same_resolution {A} (m : M Genai A) :
  preserves same_probes m -> preserves same_resolution (lift_genai m).
Proof.
  intros Hm s. specialize (Hm (genai s)). unfold lift_genai.
  destruct (m (genai s)) as [r g]. split; [reflexivity | exact Hm].
Qed.

Lemma state_bind_same_resolution {A B} (m : M State A) (k : A -> M State B) :
  preserves same_resolution m -> (forall a, preserves same_resolution (k a)) ->
  preserves same_resolution (bind m k).
Proof. apply preserves_bind. exact same_resolution_trans. Qed.

Lemma state_ret_same_resolution {A} (a : A) :
  preserves same_resolution (ret a).
Proof. apply preserves_ret. exact same_resolution_refl. Qed.

Lemma log_same_resolution (ev : Event) :
  ev <> EvListModels -> preserves same_resolution (lift_genai (emit ev)).
Proof. intros H. apply lift_genai_same_resolution, emit_same_probes, H. Qed.

Lemma rotate_key_same_resolution : preserves same_resolution rotate_key.
Proof.
  intros st. destruct (Z.leb_spec (len GEMINI_API_KEYS) 1).
  - rewrite rotate_key_single by assumption.
    unfold log; split; simpl; [reflexivity |].
    rewrite probes_app. unfold probes at 2. simpl. lia.
  - rewrite rotate_key_multi by lia.
    unfold rotated; split; simpl; [reflexivity |].
    rewrite probes_app. unfold probes at 2. simpl. lia.
Qed.

Lemma model_generate_content_same_resolution (prompt : string) :
  preserves same_resolution (model_generate_content prompt).
Proof.
  intros st. unfold model_generate_content, bind, get_model, lift_genai; simpl.
  split; simpl; [reflexivity |].
  rewrite probes_app. unfold probes at 2. simpl. lia.
Qed.

Lemma attempt_same_resolution (prompt : string) (max_retries attempt : Z) :
  preserves same_resolution (ask_orbit_attempt prompt max_retries attempt).
Proof.
  unfold ask_orbit_attempt.
  apply preserves_try_except; [exact same_resolution_trans | |].
  - apply state_bind_same_resolution.
    + apply model_generate_content_same_resolution.
    + intros r. apply state_ret_same_resolution.
  - intros e. destruct (is_quota (exc_str e) || is_auth (exc_str e)).
    + apply state_bind_same_resolution; [apply rotate_key_same_resolution |].
      intros [|]; [| apply state_ret_same_resolution].
      apply state_bind_same_resolution; [| intros; apply state_ret_same_resolution].
      apply log_same_resolution. discriminate.
    + apply state_bind_same_resolution; [apply log_same_resolution; discriminate |].
      intros _. destruct (attempt <? max_retries - 1); [| apply state_ret_same_resolution].
      apply state_bind_same_resolution; [| intros; apply state_ret_same_resolution].
      apply log_same_resolution. discriminate.
Qed.

Lemma ask_orbit_same_resolution (prompt : string) :
  preserves same_resolution (ask_orbit prompt).
Proof.
  unfold ask_orbit. cbv zeta. apply state_bind_same_resolution.
  - apply preserves_for_in;
      [exact same_resolution_refl | exact same_resolution_trans |].
    intros a. apply attempt_same_resolution.
  - intros [| r]; apply state_ret_same_resolution.
Qed.

Lemma dispatch_all_same_resolution (prompts : list string) :
  preserves same_resolution (dispatch_all prompts).
Proof.
  induction prompts as [| p rest IH]; cbn [dispatch_all].
  - apply state_ret_same_resolution.
  - apply state_bind_same_resolution; [apply ask_orbit_same_resolution |].
    intros _. exact IH.
Qed.

(** ** The session *)

Lemma pool_cases : GEMINI_API_KEYS = [] \/ GEMINI_API_KEYS <> [].
Proof. destruct GEMINI_API_KEYS; [left | right]; congruence. Qed.

Lemma pool_nonempty_test :
  GEMINI_API_KEYS <> [] ->
  match GEMINI_API_KEYS with [] => true | _ :: _ => false end = false.
Proof. destruct GEMINI_API_KEYS; [congruence | reflexivity]. Qed.

Lemma script_top_stops (s : Script) :
  GEMINI_API_KEYS = [] ->
  script_top s =
    (Raise StopException,
     (fst s, mkGenai (api_key (snd s)) (trace (snd s) ++ [EvNoKeysError]))).
Proof.
  intros E. unfold script_top. rewrite E.
  destruct s as [ss g]. reflexivity.
Qed.

(** With the name cached, the top of the script binds the handle to it
    without a probe. *)
Lemma script_top_cached (s : Script) (n : string) :
  GEMINI_API_KEYS <> [] ->
  ss_model_name (fst s) = Some n ->
  exists st s1,
    script_top s = (Ok st, s1) /\
    model_name st = n /\
    probes (trace (genai st)) = probes (trace (snd s)).
Proof.
  intros Hne Hn. destruct s as [[ki mn] g]. simpl in Hn. subst mn.
  unfold script_top. rewrite (pool_nonempty_test Hne).
  set (k := match ki with Some k => k | None => 0 end).
  destruct (configure_genai_total k g) as (b & Hc & Hp).
  exists (mkState k n (mkHandle n (api_key (snd (configure_genai k g))))
                  (snd (configure_genai k g))).
  exists (mkStore (Some k) (Some n), snd (configure_genai k g)).
  split; [| split; [reflexivity | exact Hp]].
  destruct ki as [k' |]; unfold bind, ret, has_key_index, has_model_name,
    write_key_index, read_key_index, read_model_name, lift_lib, GenerativeModel;
    simpl; fold k; rewrite Hc; reflexivity.
Qed.

(** Without it, the top of the script probes once and caches the name,
    as long as what the probe raises is an error. *)
Lemma script_top_fresh (s : Script) :
  (forall tr key e, list_models tr key = Raise e -> is_Exception e = true) ->
  GEMINI_API_KEYS <> [] ->
  ss_model_name (fst s) = None ->
  exists st s1,
    script_top s = (Ok st, s1) /\
    probes (trace (genai st)) = S (probes (trace (snd s))).
Proof.
  intros Hexc Hne Hn. destruct s as [[ki mn] g]. simpl in Hn. subst mn.
  unfold script_top. rewrite (pool_nonempty_test Hne).
  set (k := match ki with Some k => k | None => 0 end).
  pose proof (resolve_model_name_eq k g) as Hres. cbv zeta in Hres.
  destruct (configure_genai_total k g) as (b & _ & Hp).
  set (g1 := snd (configure_genai k g)) in *.
  set (g2 := mkGenai (api_key g1) (trace g1 ++ [EvListModels])) in *.
  assert (Hname : exists nm, resolve_model_name k g = (Ok nm, g2)).
  { rewrite Hres. destruct (list_models (trace g1) (api_key g1)) as [ms | e] eqn:El.
    - eauto.
    - rewrite (Hexc _ _ _ El). eauto. }
  destruct Hname as (nm & Hnm).
  destruct (configure_genai_total k g2) as (b2 & Hc2 & Hp2).
  exists (mkState k nm (mkHandle nm (api_key (snd (configure_genai k g2))))
                  (snd (configure_genai k g2))).
  exists (mkStore (Some k) (Some nm), snd (configure_genai k g2)).
  split.
  - destruct ki as [k' |]; unfold bind, ret, has_key_index, has_model_name,
      write_key_index, write_model_name, read_key_index, read_model_name, lift_lib,
      GenerativeModel; simpl; fold k; rewrite Hnm; simpl; rewrite Hc2; reflexivity.
  - simpl. rewrite Hp2. unfold g2; simpl. rewrite probes_app, Hp.
    unfold probes at 2. simpl. lia.
Qed.

Lemma script_run_cached (prompts : list string) (s : Script) (n : string) :
  ss_model_name (fst s) = Some n ->
  ss_model_name (fst (snd (script_run prompts s))) = Some n /\
  probes (trace (snd (snd (script_run prompts s)))) = probes (trace (snd s)).
Proof.
  intros Hn. unfold script_run, bind.
  destruct pool_cases as [E | E].
  - rewrite script_top_stops by exact E. simpl. split; [exact Hn |].
    rewrite probes_app. unfold probes at 2. simpl. lia.
  - destruct (script_top_cached s n E Hn) as (st & s1 & Htop & Hname & Hp).
    rewrite Htop. unfold with_state.
    destruct (dispatch_all_same_resolution prompts st) as [Hn' Hp'].
    destruct (dispatch_all prompts st) as [r st']. simpl in *.
    split; [congruence | congruence].
Qed.

Lemma script_run_fresh (prompts : list string) (s : Script) :
  (forall tr key e, list_models tr key = Raise e -> is_Exception e = true) ->
  ss_model_name (fst s) = None ->
  (ss_model_name (fst (snd (script_run prompts s))) = None /\
   probes (trace (snd (snd (script_run prompts s)))) = probes (trace (snd s))) \/
  (exists n, ss_model_name (fst (snd (script_run prompts s))) = Some n /\
   probes (trace (snd (snd (script_run prompts s)))) = S (probes (trace (snd s)))).
Proof.
  intros Hexc Hn. unfold script_run, bind.
  destruct pool_cases as [E | E].
  - left. rewrite script_top_stops by exact E. simpl. split; [exact Hn |].
    rewrite probes_app. unfold probes at 2. simpl. lia.
  - right. destruct (script_top_fresh s Hexc E Hn) as (st & s1 & Htop & Hp).
    rewrite Htop. unfold with_state.
    destruct (dispatch_all_same_resolution prompts st) as [Hn' Hp'].
    destruct (dispatch_all prompts st) as [r st']. simpl in *.
    exists (model_name st'). split; [reflexivity | congruence].
Qed.

Lemma session_cached (runs : list (list string)) (s : Script) (n : string) :
  ss_model_name (fst s) = Some n ->
  ss_model_name (fst (session runs s)) = Some n /\
  probes (trace (snd (session runs s))) = probes (trace (snd s)).
Proof.
  revert s. induction runs as [| prompts rest IH]; intros s Hn; [auto |].
  cbn [session]. destruct (script_run_cached prompts s n Hn) as [Hn1 Hp1].
  destruct (IH _ Hn1) as [Hn2 Hp2]. split; congruence.
Qed.

Lemma session_fresh (runs : list (list string)) (s : Script) :
  (forall tr key e, list_models tr key = Raise e -> is_Exception e = true) ->
  ss_model_name (fst s) = None ->
  (probes (trace (snd (session runs s))) <= S (probes (trace (snd s))))%nat.
Proof.
  intros Hexc. revert s. induction runs as [| prompts rest IH]; intros s Hn.
  - simpl. lia.
  - cbn [session].
    destruct (script_run_fresh prompts s Hexc Hn) as [[Hn1 Hp1] | (n & Hn1 & Hp1)].
    + specialize (IH _ Hn1). lia.
    + destruct (session_cached rest _ n Hn1) as [_ Hp2]. lia.
Qed.

(** C9. (1) With at least two entries in the pool, [rotate_key] answers
    [True] and leaves the session's model name as it was, a handle rebuilt
    under that same name on the credential the new cursor selects, and a
    history with no further catalog probe.  (2) Once the model name is in
    the session, no sequence of reruns and dispatches changes it or probes
    the catalog.  (3) From a fresh session, when what a probe raises is an
    error, all the reruns and dispatches of the session, with every
    rotation they make, probe the catalog at most once. *)
Theorem rotation_keeps_resolved_name :
  (forall st,
     2 <= len GEMINI_API_KEYS ->
     let k := (key_index st + 1) mod len GEMINI_API_KEYS in
     fst (rotate_key st) = Ok true /\
     model_name (snd (rotate_key st)) = model_name st /\
     model (snd (rotate_key st)) = mkHandle (model_name st) (Some (credential k)) /\
     py_getitem GEMINI_API_KEYS k = Ok (credential k) /\
     probes (trace (genai (snd (rotate_key st)))) = probes (trace (genai st))) /\
  (forall runs s n,
     ss_model_name (fst s) = Some n ->
     ss_model_name (fst (session runs s)) = Some n /\
     probes (trace (snd (session runs s))) = probes (trace (snd s))) /\
  ((forall tr key e, list_models tr key = Raise e -> is_Exception e = true) ->
   forall runs g,
     (probes (trace (snd (session runs (fresh_session, g)))) <= S (probes (trace g)))%nat).
Proof.
  split; [| split].
  - intros st HN k.
    destruct (rotate_key_same_resolution st) as [Hn Hp].
    rewrite rotate_key_multi in * by assumption. simpl in *.
    repeat split; try assumption.
    apply py_getitem_ok. apply Z.mod_pos_bound. lia.
  - intros runs s n. apply session_cached.
  - intros Hexc runs g. apply (session_fresh runs (fresh_session, g) Hexc). reflexivity.
Qed.

(** * Facts about the text methods *)

(** *** Prefixes and searches *)

Lemma prefix_empty (s : string) : String.prefix "" s = true.
Proof. destruct s; reflexivity. Qed.

Lemma prefix_cons (a c : ascii) (n t : string) :
  String.prefix (String a n) (String c t) =
    if ascii_dec a c then String.prefix n t else false.
Proof. reflexivity. Qed.

Lemma prefix_split (p s : string) :
  String.prefix p s = true -> exists r, s = (p ++ r)%string.
Proof.
  revert s. induction p as [| a p IH]; intros s H; [exists s; reflexivity |].
  destruct s as [| c s]; [discriminate H |].
  rewrite prefix_cons in H. destruct (ascii_dec a c) as [<- |]; [| discriminate H].
  destruct (IH s H) as (r & ->). exists r. reflexivity.
Qed.

Lemma prefix_weaken (a b s : string) :
  String.prefix (a ++ b) s = true -> String.prefix a s = true.
Proof.
  revert s. induction a as [| c a IH]; intros s H; [apply prefix_empty |].
  destruct s as [| d s]; [discriminate H |].
  cbn [String.append] in H. rewrite prefix_cons in *.
  destruct (ascii_dec c d); [apply IH, H | discriminate H].
Qed.

Lemma prefix_app_r (n a b : string) :
  String.prefix n a = true -> String.prefix n (a ++ b) = true.
Proof.
  revert a. induction n as [| c n IH]; intros a H; [apply prefix_empty |].
  destruct a as [| d a]; [discriminate H |].
  cbn [String.append]. rewrite prefix_cons in *.
  destruct (ascii_dec c d); [apply IH, H | discriminate H].
Qed.

Lemma prefix_app_same (p r : string) : String.prefix p (p ++ r) = true.
Proof.
  induction p as [| a p IH]; [apply prefix_empty |].
  cbn [String.append]. rewrite prefix_cons.
  destruct (ascii_dec a a); [exact IH | congruence].
Qed.

Lemma contains_cons_r (n : string) (c : ascii) (r : string) :
  PyStr.contains n r = true -> PyStr.contains n (String c r) = true.
Proof. intros H. cbn [PyStr.contains]. rewrite H. apply orb_true_r. Qed.

Lemma contains_app_r (n a b : string) :
  PyStr.contains n a = true -> PyStr.contains n (a ++ b) = true.
Proof.
  induction a as [| c a IH]; intros H.
  - cbn [PyStr.contains] in H. rewrite orb_false_r in H.
    destruct n; [| discriminate H].
    destruct b; cbn [String.append PyStr.contains]; rewrite ?prefix_empty; reflexivity.
  - cbn [String.append PyStr.contains] in *. apply orb_true_iff in H as [H | H].
    + change (String c (a ++ b)) with (String c a ++ b)%string.
      rewrite (prefix_app_r _ _ _ H). reflexivity.
    + rewrite (IH H). apply orb_true_r.
Qed.

Lemma contains_app_l (n a b : string) :
  PyStr.contains n b = true -> PyStr.contains n (a ++ b) = true.
Proof.
  intros H. induction a as [| c a IH]; [exact H |].
  cbn [String.append]. apply contains_cons_r, IH.
Qed.

Lemma contains_weaken (a b s : string) :
  PyStr.contains (a ++ b) s = true -> PyStr.contains a s = true.
Proof.
  induction s as [| c s IH]; cbn [PyStr.contains]; intros H.
  - rewrite orb_false_r in *. apply (prefix_weaken a b), H.
  - apply orb_true_iff in H as [H | H].
    + rewrite (prefix_weaken a b _ H). reflexivity.
    + rewrite (IH H). apply orb_true_r.
Qed.

Lemma contains_found (n a b : string) : PyStr.contains n (a ++ n ++ b) = true.
Proof.
  apply contains_app_l.
  pose proof (prefix_app_same n b) as H.
  destruct (n ++ b)%string; cbn [PyStr.contains]; rewrite H; reflexivity.
Qed.

Lemma append_length (a b : string) :
  String.length (a ++ b)%string = (String.length a + String.length b)%nat.
Proof. induction a as [| c a IH]; cbn [String.append String.length]; [reflexivity | lia]. Qed.

Lemma append_assoc (a b c : string) : ((a ++ b) ++ c = a ++ b ++ c)%string.
Proof. induction a as [| x a IH]; cbn [String.append]; [reflexivity | rewrite IH; reflexivity]. Qed.

Lemma append_empty_r (a : string) : (a ++ "")%string = a.
Proof. induction a as [| x a IH]; cbn [String.append]; [reflexivity | rewrite IH; reflexivity]. Qed.

(** Induction on the length of a text. *)
Lemma string_length_ind (P : string -> Prop) :
  (forall s, (forall t, (String.length t < String.length s)%nat -> P t) -> P s) ->
  forall s, P s.
Proof.
  intros H s.
  assert (G : forall n t, (String.length t < n)%nat -> P t).
  { induction n as [| n IH]; intros t Ht; [lia |].
    apply H. intros u Hu. apply IH. lia. }
  apply (G (S (String.length s))). lia.
Qed.

(** *** strip *)

Lemma after_space_shorter (s r : string) :
  PyText.after_space s = Some r ->
  exists w, s = (w ++ r)%string /\ w <> "" /\ PyText.after_space w = Some "".
Proof.
  unfold PyText.after_space. intros H.
  destruct s as [| a r1]; [discriminate H |].
  destruct (PyText.is_space a) eqn:Ea.
  { injection H as <-. exists (String a ""). cbn. rewrite Ea. repeat split. discriminate. }
  destruct r1 as [| b r2]; [discriminate H |].
  destruct (PyText.is_space2 a b) eqn:Eb.
  { injection H as <-. exists (String a (String b "")). cbn. rewrite Ea, Eb.
    repeat split. discriminate. }
  destruct r2 as [| c r3]; [discriminate H |].
  destruct (PyText.is_space3 a b c) eqn:Ec; [| discriminate H].
  injection H as <-. exists (String a (String b (String c ""))). cbn.
  rewrite Ea, Eb, Ec. repeat split. discriminate.
Qed.

Lemma lstrip_eq (s : string) :
  PyText.lstrip s =
    match PyText.after_space s with
    | Some r => PyText.lstrip r
    | None => s
    end.
Proof.
  destruct s as [| a r1]; [reflexivity |].
  unfold PyText.after_space.
  destruct (PyText.is_space a) eqn:Ea; [cbn [PyText.lstrip]; rewrite Ea; reflexivity |].
  destruct r1 as [| b r2]; [cbn [PyText.lstrip]; rewrite Ea; reflexivity |].
  destruct (PyText.is_space2 a b) eqn:Eb;
    [cbn [PyText.lstrip]; rewrite Ea, Eb; reflexivity |].
  destruct r2 as [| c r3]; [cbn [PyText.lstrip]; rewrite Ea, Eb; reflexivity |].
  cbn [PyText.lstrip]. rewrite Ea, Eb. destruct (PyText.is_space3 a b c); reflexivity.
Qed.

Lemma after_space_app (a r b : string) :
  PyText.after_space a = Some r -> PyText.after_space (a ++ b) = Some (r ++ b)%string.
Proof.
  unfold PyText.after_space. intros H.
  destruct a as [| x r1]; [discriminate H |]. cbn [String.append].
  destruct (PyText.is_space x); [injection H as <-; reflexivity |].
  destruct r1 as [| y r2]; [discriminate H |]. cbn [String.append].
  destruct (PyText.is_space2 x y); [injection H as <-; reflexivity |].
  destruct r2 as [| z r3]; [discriminate H |]. cbn [String.append].
  destruct (PyText.is_space3 x y z); [injection H as <-; reflexivity | discriminate H].
Qed.

Lemma lstrip_suffix (s : string) : exists pre, s = (pre ++ PyText.lstrip s)%string.
Proof.
  induction s as [s IH] using string_length_ind.
  rewrite lstrip_eq. destruct (PyText.after_space s) as [r |] eqn:E; [| exists ""; reflexivity].
  destruct (after_space_shorter s r E) as (w & -> & Hw & _).
  destruct (IH r) as (pre & Hpre).
  { rewrite append_length. destruct w; [congruence | cbn; lia]. }
  exists (w ++ pre)%string. rewrite append_assoc, <- Hpre. reflexivity.
Qed.

Lemma lstrip_no_space (s : string) : PyText.after_space (PyText.lstrip s) = None.
Proof.
  induction s as [s IH] using string_length_ind.
  rewrite lstrip_eq. destruct (PyText.after_space s) as [r |] eqn:E; [| exact E].
  destruct (after_space_shorter s r E) as (w & -> & Hw & _).
  apply IH. rewrite append_length. destruct w; [congruence | cbn; lia].
Qed.

Lemma lstrip_fixed (s : string) : PyText.after_space s = None -> PyText.lstrip s = s.
Proof. intros H. rewrite lstrip_eq, H. reflexivity. Qed.

Lemma lstrip_idempotent (s : string) : PyText.lstrip (PyText.lstrip s) = PyText.lstrip s.
Proof. apply lstrip_fixed, lstrip_no_space. Qed.

(** Whitespace in front is dropped whatever follows. *)
Lemma lstrip_app_space (a b : string) :
  PyText.lstrip a = "" -> PyText.lstrip (a ++ b) = PyText.lstrip b.
Proof.
  induction a as [a IH] using string_length_ind. intros H.
  rewrite lstrip_eq in H. destruct (PyText.after_space a) as [r |] eqn:E.
  - rewrite (lstrip_eq (a ++ b)), (after_space_app a r b E).
    destruct (after_space_shorter a r E) as (w & -> & Hw & _).
    apply IH; [| exact H]. rewrite append_length. destruct w; [congruence | cbn; lia].
  - subst a. reflexivity.
Qed.

Lemma rstrip_cons (c : ascii) (rest : string) :
  PyText.rstrip (String c rest) =
    match PyText.lstrip (String c rest) with
    | EmptyString => EmptyString
    | String _ _ => String c (PyText.rstrip rest)
    end.
Proof. reflexivity. Qed.

(** What [rstrip] cuts off is whitespace. *)
Lemma rstrip_prefix (s : string) :
  exists tail, s = (PyText.rstrip s ++ tail)%string /\ PyText.lstrip tail = "".
Proof.
  induction s as [| c rest (tail & IH & Ht)]; [exists ""; split; reflexivity |].
  rewrite rstrip_cons. destruct (PyText.lstrip (String c rest)) eqn:E.
  - exists (String c rest). split; [reflexivity | exact E].
  - exists tail. split; [cbn [String.append]; rewrite <- IH; reflexivity | exact Ht].
Qed.

Lemma rstrip_idempotent (s : string) : PyText.rstrip (PyText.rstrip s) = PyText.rstrip s.
Proof.
  induction s as [| c rest IH]; [reflexivity |].
  rewrite rstrip_cons. destruct (PyText.lstrip (String c rest)) eqn:E; [reflexivity |].
  rewrite rstrip_cons, IH.
  destruct (PyText.lstrip (String c (PyText.rstrip rest))) eqn:E2; [| reflexivity].
  destruct (rstrip_prefix rest) as (tail & Hrest & Ht).
  pose proof (lstrip_app_space (String c (PyText.rstrip rest)) tail E2) as H.
  cbn [String.append] in H. rewrite <- Hrest, Ht in H. congruence.
Qed.

Lemma rstrip_no_space (s : string) :
  PyText.after_space s = None -> PyText.after_space (PyText.rstrip s) = None.
Proof.
  intros H. destruct (rstrip_prefix s) as (tail & Hs & _).
  destruct (PyText.after_space (PyText.rstrip s)) as [r |] eqn:E; [| reflexivity].
  apply (after_space_app _ _ tail) in E. rewrite <- Hs in E. congruence.
Qed.

Lemma strip_idempotent_eq (s : string) : PyText.strip (PyText.strip s) = PyText.strip s.
Proof.
  unfold PyText.strip.
  rewrite (lstrip_fixed (PyText.rstrip (PyText.lstrip s)))
    by apply rstrip_no_space, lstrip_no_space.
  apply rstrip_idempotent.
Qed.

Lemma lstrip_contains (n s : string) :
  PyStr.contains n (PyText.lstrip s) = true -> PyStr.contains n s = true.
Proof.
  intros H. destruct (lstrip_suffix s) as (pre & E). rewrite E.
  apply contains_app_l, H.
Qed.

Lemma strip_contains (n s : string) :
  PyStr.contains n (PyText.strip s) = true -> PyStr.contains n s = true.
Proof.
  unfold PyText.strip. intros H. apply lstrip_contains.
  destruct (rstrip_prefix (PyText.lstrip s)) as (tail & E & _).
  rewrite E. apply contains_app_r, H.
Qed.

Lemma strip_after_space (x : string) : PyText.strip (String " " x) = PyText.strip x.
Proof. reflexivity. Qed.

(** *** len and slices *)

Lemma text_len_app (a b : string) : PyText.len (a ++ b) = (PyText.len a + PyText.len b)%nat.
Proof. induction a as [| c a IH]; cbn [String.append PyText.len]; [reflexivity | lia]. Qed.

Lemma take_len (n : nat) (s : string) : (PyText.len (PyText.take n s) <= n)%nat.
Proof.
  revert n. induction s as [| c s IH]; intros n; cbn [PyText.take PyText.len]; [lia |].
  destruct (PyText.is_continuation c) eqn:E.
  - cbn [PyText.len]. rewrite E. apply IH.
  - destruct n as [| k]; cbn [PyText.len]; [lia |]. rewrite E. specialize (IH k). lia.
Qed.

Lemma take_all (n : nat) (s : string) : (PyText.len s <= n)%nat -> PyText.take n s = s.
Proof.
  revert n. induction s as [| c s IH]; intros n H; cbn [PyText.take PyText.len] in *;
    [reflexivity |].
  destruct (PyText.is_continuation c).
  - rewrite IH by exact H. reflexivity.
  - destruct n as [| k]; [lia |]. rewrite IH by lia. reflexivity.
Qed.

Lemma take_prefix (n : nat) (s : string) : exists rest, s = (PyText.take n s ++ rest)%string.
Proof.
  revert n. induction s as [| c s IH]; intros n; [exists ""; reflexivity |].
  cbn [PyText.take]. destruct (PyText.is_continuation c).
  - destruct (IH n) as (rest & E). exists rest. cbn [String.append]. rewrite <- E. reflexivity.
  - destruct n as [| k]; [exists (String c s); reflexivity |].
    destruct (IH k) as (rest & E). exists rest. cbn [String.append]. rewrite <- E. reflexivity.
Qed.

(** *** lower *)

Lemma lower_kelvin (r : string) :
  PyStr.lower (PyStr.kelvin_sign ++ r) = String "k" (PyStr.lower r).
Proof. reflexivity. Qed.

Lemma lower_i_dot (r : string) :
  PyStr.lower (PyStr.capital_i_dot ++ r) = (PyStr.small_i_dot ++ PyStr.lower r)%string.
Proof. reflexivity. Qed.

Lemma lower_other (c : ascii) (r : string) :
  String.prefix PyStr.kelvin_sign (String c r) = false ->
  String.prefix PyStr.capital_i_dot (String c r) = false ->
  PyStr.lower (String c r) = String (PyStr.lower_ascii c) (PyStr.lower r).
Proof.
  unfold PyStr.kelvin_sign, PyStr.capital_i_dot. intros Hk Hi.
  destruct r as [| c2 r2]; [reflexivity |].
  rewrite !prefix_cons in Hi.
  cbn [PyStr.lower].
  destruct (Ascii.eqb_spec c "196") as [-> | N1]; cbn [andb].
  - destruct (ascii_dec "196" "196") as [_ | N]; [| congruence].
    destruct (Ascii.eqb_spec c2 "176") as [-> | N2].
    + destruct (ascii_dec "176" "176") as [_ | N]; [| congruence].
      rewrite prefix_empty in Hi. discriminate Hi.
    + destruct r2; reflexivity.
  - destruct r2 as [| c3 r3]; [reflexivity |].
    rewrite !prefix_cons in Hk.
    destruct (Ascii.eqb_spec c "226") as [-> | N3]; cbn [andb]; [| reflexivity].
    destruct (ascii_dec "226" "226") as [_ | N]; [| congruence].
    destruct (Ascii.eqb_spec c2 "132") as [-> | N4]; cbn [andb]; [| reflexivity].
    destruct (ascii_dec "132" "132") as [_ | N]; [| congruence].
    destruct (Ascii.eqb_spec c3 "170") as [-> | N5]; [| reflexivity].
    destruct (ascii_dec "170" "170") as [_ | N]; [| congruence].
    rewrite prefix_empty in Hk. discriminate Hk.
Qed.

Lemma lower_ascii_plain (c : ascii) :
  Nat.ltb (nat_of_ascii (PyStr.lower_ascii c)) 128 = Nat.ltb (nat_of_ascii c) 128.
Proof.
  unfold PyStr.lower_ascii.
  destruct (Nat.leb_spec 65 (nat_of_ascii c)) as [H1 | H1]; cbn [andb]; [| reflexivity].
  destruct (Nat.leb_spec (nat_of_ascii c) 90) as [H2 | H2]; [| reflexivity].
  rewrite nat_ascii_embedding by lia.
  destruct (Nat.ltb_spec (nat_of_ascii c + 32) 128), (Nat.ltb_spec (nat_of_ascii c) 128);
    (reflexivity || lia).
Qed.

Lemma plain_byte_no_lead (c : ascii) (r : string) :
  Nat.ltb (nat_of_ascii c) 128 = true ->
  String.prefix PyStr.kelvin_sign (String c r) = false /\
  String.prefix PyStr.capital_i_dot (String c r) = false.
Proof.
  intros H. unfold PyStr.kelvin_sign, PyStr.capital_i_dot. rewrite !prefix_cons.
  split.
  - destruct (ascii_dec "226" c) as [<- |]; [discriminate H | reflexivity].
  - destruct (ascii_dec "196" c) as [<- |]; [discriminate H | reflexivity].
Qed.

(** Behind a text whose lowercase form is plain, lowering goes on as from
    the start. *)
Lemma lower_app_plain (w a : string) :
  plain (PyStr.lower w) = true ->
  PyStr.lower (w ++ a) = (PyStr.lower w ++ PyStr.lower a)%string.
Proof.
  induction w as [w IH] using string_length_ind. intros H.
  destruct w as [| c w1]; [reflexivity |].
  destruct (String.prefix PyStr.kelvin_sign (String c w1)) eqn:Ek.
  { destruct (prefix_split _ _ Ek) as (r & E). rewrite E in *.
    rewrite append_assoc, !lower_kelvin in *. cbn [String.append]. f_equal.
    apply IH; [rewrite append_length; cbn; lia | exact H]. }
  destruct (String.prefix PyStr.capital_i_dot (String c w1)) eqn:Ei.
  { destruct (prefix_split _ _ Ei) as (r & E). rewrite E, lower_i_dot in H.
    discriminate H. }
  rewrite (lower_other c w1 Ek Ei) in *. cbn [plain] in H.
  apply andb_true_iff in H as [Hc Hw]. rewrite lower_ascii_plain in Hc.
  cbn [String.append].
  destruct (plain_byte_no_lead c (w1 ++ a) Hc) as [Hk Hi].
  rewrite (lower_other c (w1 ++ a) Hk Hi). cbn [String.append]. f_equal.
  apply IH; [cbn; lia | exact Hw].
Qed.

Lemma kelvin_inside (b t : string) :
  b <> "" -> starts_character t = true ->
  String.prefix PyStr.kelvin_sign (b ++ t) = String.prefix PyStr.kelvin_sign b.
Proof.
  intros Hb Ht. unfold PyStr.kelvin_sign.
  destruct b as [| c1 b]; [congruence |]. cbn [String.append]. rewrite !prefix_cons.
  destruct (ascii_dec "226" c1); [| reflexivity].
  destruct b as [| c2 b]; cbn [String.append].
  { destruct t as [| d t]; [reflexivity |]. rewrite prefix_cons.
    destruct (ascii_dec "132" d) as [<- |]; [discriminate Ht | reflexivity]. }
  rewrite !prefix_cons. destruct (ascii_dec "132" c2); [| reflexivity].
  destruct b as [| c3 b]; cbn [String.append].
  { destruct t as [| d t]; [reflexivity |]. rewrite prefix_cons.
    destruct (ascii_dec "170" d) as [<- |]; [discriminate Ht | reflexivity]. }
  rewrite !prefix_cons. destruct (ascii_dec "170" c3); [| reflexivity].
  rewrite !prefix_empty. reflexivity.
Qed.

Lemma i_dot_inside (b t : string) :
  b <> "" -> starts_character t = true ->
  String.prefix PyStr.capital_i_dot (b ++ t) = String.prefix PyStr.capital_i_dot b.
Proof.
  intros Hb Ht. unfold PyStr.capital_i_dot.
  destruct b as [| c1 b]; [congruence |]. cbn [String.append]. rewrite !prefix_cons.
  destruct (ascii_dec "196" c1); [| reflexivity].
  destruct b as [| c2 b]; cbn [String.append].
  { destruct t as [| d t]; [reflexivity |]. rewrite prefix_cons.
    destruct (ascii_dec "176" d) as [<- |]; [discriminate Ht | reflexivity]. }
  rewrite !prefix_cons. destruct (ascii_dec "176" c2); [| reflexivity].
  rewrite !prefix_empty. reflexivity.
Qed.

(** In front of a text that starts a character, lowering stops as at the
    end. *)
Lemma lower_app_character (b t : string) :
  starts_character t = true ->
  PyStr.lower (b ++ t) = (PyStr.lower b ++ PyStr.lower t)%string.
Proof.
  intros Ht. induction b as [b IH] using string_length_ind.
  destruct b as [| c b1]; [reflexivity |].
  destruct (String.prefix PyStr.kelvin_sign (String c b1)) eqn:Ek.
  { destruct (prefix_split _ _ Ek) as (r & E). rewrite E.
    rewrite append_assoc, !lower_kelvin. cbn [String.append]. f_equal.
    apply IH. rewrite E, append_length. cbn. lia. }
  destruct (String.prefix PyStr.capital_i_dot (String c b1)) eqn:Ei.
  { destruct (prefix_split _ _ Ei) as (r & E). rewrite E.
    rewrite append_assoc, !lower_i_dot, append_assoc. f_equal.
    apply IH. rewrite E, append_length. cbn. lia. }
  rewrite (lower_other c b1 Ek Ei).
  assert (Hk : String.prefix PyStr.kelvin_sign (String c b1 ++ t) = false)
    by (rewrite kelvin_inside by (discriminate || exact Ht); exact Ek).
  assert (Hi : String.prefix PyStr.capital_i_dot (String c b1 ++ t) = false)
    by (rewrite i_dot_inside by (discriminate || exact Ht); exact Ei).
  cbn [String.append] in *. rewrite (lower_other c (b1 ++ t) Hk Hi). f_equal.
  apply IH. cbn. lia.
Qed.

Lemma lower_plain_starts (w : string) :
  plain (PyStr.lower w) = true -> starts_character w = true.
Proof.
  intros H. destruct w as [| c w1]; [reflexivity |].
  destruct (String.prefix PyStr.kelvin_sign (String c w1)) eqn:Ek.
  { destruct (prefix_split _ _ Ek) as (r & E). injection E as -> _. reflexivity. }
  destruct (String.prefix PyStr.capital_i_dot (String c w1)) eqn:Ei.
  { destruct (prefix_split _ _ Ei) as (r & E). injection E as -> _. reflexivity. }
  rewrite (lower_other c w1 Ek Ei) in H. cbn [plain] in H.
  apply andb_true_iff in H as [Hc _]. rewrite lower_ascii_plain in Hc.
  unfold starts_character, PyText.is_continuation.
  apply Nat.ltb_lt in Hc.
  destruct (Nat.leb_spec 128 (nat_of_ascii c)); [lia | reflexivity].
Qed.

(** A word whose lowercase form is a plain needle is found in the lowercase
    form of any text around it. *)
Lemma lower_found (n b w a : string) :
  PyStr.lower w = n -> n <> "" -> plain n = true ->
  PyStr.contains n (PyStr.lower (b ++ w ++ a)) = true.
Proof.
  intros Hw Hn Hp. rewrite <- Hw in Hp.
  assert (Hs : starts_character (w ++ a) = true).
  { pose proof (lower_plain_starts w Hp) as H.
    destruct w as [| c w1]; [cbn in Hw; congruence | exact H]. }
  rewrite (lower_app_character b _ Hs), (lower_app_plain w a Hp), Hw.
  apply contains_found.
Qed.

(** * Facts about the rest of the script *)

(** *** split, strip and join *)

Lemma split_scan_comma (c : ascii) (rest : string) :
  PyText.split_scan "," 0 (String c rest) =
    let '(piece, pieces) := PyText.split_scan "," 0 rest in
    if Ascii.eqb c "," then (EmptyString, piece :: pieces) else (String c piece, pieces).
Proof.
  cbn [PyText.split_scan String.prefix String.length Nat.sub].
  destruct (ascii_dec "," c) as [E | E].
  - subst c.
    assert (String.prefix "" rest = true) as -> by (destruct rest; reflexivity).
    destruct (PyText.split_scan "," 0 rest) as [p ps]. reflexivity.
  - assert (Ascii.eqb c "," = false) as -> by (apply Ascii.eqb_neq; congruence).
    destruct (PyText.split_scan "," 0 rest) as [p ps]. reflexivity.
Qed.

Lemma split_comma (s : string) : PyText.split "," s = Ok (comma_pieces s).
Proof.
  unfold PyText.split, comma_pieces.
  destruct (PyText.split_scan "," 0 s). reflexivity.
Qed.

Lemma comma_pieces_nil : comma_pieces "" = [""].
Proof. reflexivity. Qed.

Lemma comma_pieces_cons (c : ascii) (rest : string) :
  comma_pieces (String c rest) =
    if Ascii.eqb c ","
    then "" :: comma_pieces rest
    else match comma_pieces rest with
         | piece :: pieces => String c piece :: pieces
         | [] => [String c ""]
         end.
Proof.
  unfold comma_pieces. rewrite split_scan_comma.
  destruct (PyText.split_scan "," 0 rest) as [p ps].
  destruct (Ascii.eqb c ","); reflexivity.
Qed.

Lemma contains_comma_cons (c : ascii) (rest : string) :
  PyStr.contains "," (String c rest) = Ascii.eqb c "," || PyStr.contains "," rest.
Proof.
  cbn [PyStr.contains String.prefix].
  destruct (ascii_dec "," c) as [E | E].
  - subst c. destruct rest; reflexivity.
  - assert (Ascii.eqb c "," = false) as -> by (apply Ascii.eqb_neq; congruence).
    reflexivity.
Qed.

Lemma comma_pieces_length (s : string) :
  List.length (comma_pieces s) = S (count_commas s).
Proof.
  induction s as [| c rest IH]; [reflexivity |].
  rewrite comma_pieces_cons. cbn [count_commas].
  destruct (Ascii.eqb c ",").
  - cbn [List.length]. rewrite IH. reflexivity.
  - destruct (comma_pieces rest) as [| p ps]; [discriminate IH |].
    cbn [List.length] in *. lia.
Qed.

Lemma comma_pieces_comma_free (s : string) : Forall comma_free (comma_pieces s).
Proof.
  induction s as [| c rest IH].
  - repeat constructor.
  - rewrite comma_pieces_cons. destruct (Ascii.eqb c ",") eqn:E.
    + constructor; [reflexivity | exact IH].
    + destruct (comma_pieces rest) as [| p ps]; [repeat constructor |].
      * unfold comma_free. rewrite contains_comma_cons, E. reflexivity.
      * inversion IH as [| ? ? Hp Hps]; subst. constructor; [| exact Hps].
        unfold comma_free in *. rewrite contains_comma_cons, E, Hp. reflexivity.
Qed.

Lemma comma_pieces_whole (x : string) : comma_free x -> comma_pieces x = [x].
Proof.
  unfold comma_free. induction x as [| c rest IH]; intros H; [reflexivity |].
  rewrite contains_comma_cons in H. apply orb_false_iff in H as [Hc Hr].
  rewrite comma_pieces_cons, Hc, (IH Hr). reflexivity.
Qed.

Lemma comma_pieces_app (x t : string) :
  comma_free x -> comma_pieces (x ++ String "," t)%string = x :: comma_pieces t.
Proof.
  unfold comma_free. induction x as [| c rest IH]; intros H.
  - cbn [String.append]. rewrite comma_pieces_cons. reflexivity.
  - rewrite contains_comma_cons in H. apply orb_false_iff in H as [Hc Hr].
    cbn [String.append]. rewrite comma_pieces_cons, Hc, (IH Hr). reflexivity.
Qed.

Lemma strip_idempotent (s : string) : stripped (PyText.strip s).
Proof. apply strip_idempotent_eq. Qed.

Lemma strip_comma_free (s : string) : comma_free s -> comma_free (PyText.strip s).
Proof.
  unfold comma_free. intros H.
  destruct (PyStr.contains "," (PyText.strip s)) eqn:E; [| reflexivity].
  apply strip_contains in E. congruence.
Qed.

Lemma split_keys_eq (text : string) :
  split_keys text = Ok (map PyText.strip (comma_pieces text)).
Proof. unfold split_keys. rewrite split_comma. reflexivity. Qed.

(** What [split_keys] produces: one entry more than there are commas, each
    one stripped and free of commas. *)
Lemma split_keys_shape (text : string) :
  exists keys,
    split_keys text = Ok keys /\
    List.length keys = S (count_commas text) /\
    Forall (fun k => stripped k /\ comma_free k) keys.
Proof.
  exists (map PyText.strip (comma_pieces text)).
  split; [apply split_keys_eq |].
  split; [rewrite length_map; apply comma_pieces_length |].
  apply Forall_map. eapply Forall_impl; [| apply comma_pieces_comma_free].
  intros k Hk. split; [apply strip_idempotent | apply strip_comma_free, Hk].
Qed.

Lemma join_cons2 (sep x y : string) (rest : list string) :
  PyText.join sep (x :: y :: rest) = (x ++ sep ++ PyText.join sep (y :: rest))%string.
Proof. reflexivity. Qed.

Lemma comma_pieces_join (x : string) (l : list string) :
  Forall comma_free (x :: l) ->
  comma_pieces (PyText.join ", " (x :: l)) = x :: map (String " ") l.
Proof.
  revert x. induction l as [| y rest IH]; intros x H.
  - inversion H; subst. apply comma_pieces_whole. assumption.
  - inversion H as [| ? ? Hx Hl]; subst.
    rewrite join_cons2. cbn [String.append].
    rewrite comma_pieces_app by exact Hx.
    rewrite comma_pieces_cons. cbn [Ascii.eqb Bool.eqb].
    rewrite (IH y Hl). reflexivity.
Qed.

Lemma strip_spaced (l : list string) :
  Forall stripped l -> map PyText.strip (map (String " ") l) = l.
Proof.
  induction 1 as [| y rest Hy _ IH]; [reflexivity |].
  cbn [map]. rewrite strip_after_space, Hy, IH. reflexivity.
Qed.

Lemma split_keys_join (l : list string) :
  l <> [] ->
  Forall (fun k => stripped k /\ comma_free k) l ->
  split_keys (PyText.join ", " l) = Ok l.
Proof.
  intros Hne H. destruct l as [| x rest]; [congruence |].
  assert (Hs : Forall stripped (x :: rest))
    by (eapply Forall_impl; [| exact H]; intros k [Hk _]; exact Hk).
  assert (Hc : Forall comma_free (x :: rest))
    by (eapply Forall_impl; [| exact H]; intros k [_ Hk]; exact Hk).
  rewrite split_keys_eq, comma_pieces_join by exact Hc.
  inversion Hs as [| ? ? Hx Hrest]; subst.
  cbn [map]. rewrite Hx, strip_spaced by exact Hrest. reflexivity.
Qed.

(** ** The keychain *)

(** X1. A non-empty text under GEMINI_KEYS in the secrets always gives a
    non-empty pool, whatever the text: one key more than it has commas, each
    key stripped of surrounding blanks and free of commas.  The environment
    is not consulted, and the pool is non-empty even when every key in it is
    the empty text. *)
Theorem load_keys_from_text (s : string) (environ_get : Res (option string))
        (before : list string) :
  s <> "" ->
  exists keys,
    load_keys (Ok (SvStr s)) environ_get before = (Ok tt, keys) /\
    keys <> [] /\
    List.length keys = S (count_commas s) /\
    Forall (fun k => PyText.strip k = k /\ PyStr.contains "," k = false) keys.
Proof.
  intros Hs. destruct (split_keys_shape s) as (keys & Hsplit & Hlen & Hall).
  exists keys.
  assert (Hne : keys <> []) by (destruct keys; [discriminate Hlen | discriminate]).
  split; [| split; [exact Hne | split; [exact Hlen | exact Hall]]].
  unfold load_keys, bind, put_state, try_except, lift_res, get_state, ret. simpl.
  assert (String.eqb s "" = false) as -> by (apply String.eqb_neq; exact Hs).
  simpl. rewrite Hsplit. simpl.
  destruct keys; [congruence | reflexivity].
Qed.

(** X2. The secrets come first and the environment second: a non-empty list in
    the secrets is the pool as it stands, unstripped, whatever the
    environment holds; when the secrets give nothing usable (the lookup
    raises an error, or finds nothing, an empty text, an empty list or a
    value that is neither text nor list) the pool is what the environment
    variable gives, or empty without one. *)
Theorem load_keys_precedence (environ_get : Res (option string)) (before : list string) :
  (forall e, environ_get = Raise e -> is_Exception e = true) ->
  (forall l, l <> [] ->
     load_keys (Ok (SvList l)) environ_get before = (Ok tt, l)) /\
  (forall secrets_get,
     (exists e, secrets_get = Raise e /\ is_Exception e = true) \/
     secrets_get = Ok SvNone \/ secrets_get = Ok (SvStr "") \/
     secrets_get = Ok (SvList []) \/ (exists b, secrets_get = Ok (SvOther b)) ->
     load_keys secrets_get environ_get before =
       (Ok tt, keys_from_environ environ_get)).
Proof.
  intros Henv. split.
  - intros l Hl. destruct l as [| k l]; [congruence |]. reflexivity.
  - assert (Hfall : load_keys (Ok SvNone) environ_get before =
                      (Ok tt, keys_from_environ environ_get)).
    { unfold load_keys, keys_from_environ, bind, put_state, try_except, lift_res,
        get_state, ret. simpl.
      destruct environ_get as [[s |] | e]; simpl.
      - destruct (String.eqb s ""); simpl; [reflexivity |].
        rewrite split_keys_eq. reflexivity.
      - reflexivity.
      - rewrite (Henv e eq_refl). reflexivity. }
    intros secrets_get [(e & -> & He) | [-> | [-> | [-> | (b & ->)]]]];
      try exact Hfall.
    + unfold load_keys, bind, put_state, try_except, lift_res. simpl. rewrite He.
      exact Hfall.
    + destruct b; exact Hfall.
Qed.

(** ** The interests editor *)

(** X3. Showing the interests and storing them back unedited gives the same
    list, provided it is not empty and no entry has a comma or a blank at
    either end.  The empty list does not survive: it comes back as the list
    of one empty entry. *)
Theorem interests_round_trip (interests : list string) :
  (interests <> [] ->
   Forall (fun x => PyText.strip x = x /\ PyStr.contains "," x = false) interests ->
   update_interests (interests_text interests) = Ok interests) /\
  update_interests (interests_text []) = Ok [""].
Proof.
  split; [| reflexivity].
  intros Hne H. apply (split_keys_join interests Hne H).
Qed.

(** X4. Whatever text is stored, the list it gives is shown as a text that
    stores to the same list: a second "Update" without an edit changes
    nothing. *)
Theorem update_interests_stable (curr : string) :
  exists interests,
    update_interests curr = Ok interests /\
    update_interests (interests_text interests) = Ok interests.
Proof.
  destruct (split_keys_shape curr) as (l & Hsplit & Hlen & Hall).
  exists l. split; [exact Hsplit |].
  apply (split_keys_join l); [| exact Hall].
  destruct l; [discriminate Hlen | discriminate].
Qed.

(** ** The curriculum manager *)

Lemma py_in_list_In (u : string) (units : list string) :
  py_in_list u units = true <-> In u units.
Proof.
  unfold py_in_list. rewrite existsb_exists. split.
  - intros (x & Hx & E). apply String.eqb_eq in E. subst x. exact Hx.
  - intros H. exists u. split; [exact H | apply String.eqb_refl].
Qed.

Lemma py_in_list_not_In (u : string) (units : list string) :
  py_in_list u units = false <-> ~ In u units.
Proof.
  rewrite <- py_in_list_In. destruct (py_in_list u units); split; congruence.
Qed.

Lemma add_units_general (adds current_units : list string) (changed : bool) :
  exists extra,
    fst (add_units adds current_units changed) = current_units ++ extra /\
    NoDup extra /\
    (forall u, In u extra <-> In u adds /\ ~ In u current_units) /\
    snd (add_units adds current_units changed) =
      changed || match extra with [] => false | _ => true end.
Proof.
  revert current_units changed.
  induction adds as [| u rest IH]; intros cur ch.
  - exists []. simpl. rewrite app_nil_r, orb_false_r.
    repeat split; try constructor; intros; tauto.
  - cbn [add_units]. destruct (py_in_list u cur) eqn:Hin; cbn [negb].
    + apply py_in_list_In in Hin.
      destruct (IH cur ch) as (extra & Hfst & Hnd & Hiff & Hsnd).
      exists extra. split; [exact Hfst |]. split; [exact Hnd |].
      split; [| exact Hsnd].
      intros x. rewrite Hiff. simpl. split; [tauto |].
      intros [[E | Hx] Hn]; [subst; contradiction | tauto].
    + apply py_in_list_not_In in Hin.
      destruct (IH (cur ++ [u]) true) as (extra & Hfst & Hnd & Hiff & Hsnd).
      exists (u :: extra). rewrite Hfst, Hsnd, <- app_assoc, orb_true_r.
      split; [reflexivity |]. split.
      { constructor; [| exact Hnd]. intros Hx. apply Hiff in Hx as [_ Hx].
        apply Hx, in_or_app. right. left. reflexivity. }
      split; [| reflexivity].
      intros x. split.
      * intros [E | Hx]; [subst x; simpl; tauto |].
        apply Hiff in Hx as [Hr Hn]. split; [right; exact Hr |].
        intros Hc. apply Hn, in_or_app. left. exact Hc.
      * intros [[E | Hx] Hn]; [left; exact E |].
        destruct (string_dec u x) as [E | E]; [left; exact E | right].
        apply Hiff. split; [exact Hx |].
        intros Hc. apply in_app_or in Hc as [Hc | [Hc | []]]; congruence.
Qed.

Lemma add_units_app (a1 a2 current_units : list string) (changed : bool) :
  add_units (a1 ++ a2) current_units changed =
    add_units a2 (fst (add_units a1 current_units changed))
              (snd (add_units a1 current_units changed)).
Proof.
  revert current_units changed. induction a1 as [| u rest IH]; intros cur ch; [reflexivity |].
  cbn [app add_units]. destruct (negb (py_in_list u cur)); apply IH.
Qed.

(** X5. "Add" only appends: the units come out as they were, followed by the
    selected units that were not among them, each once and in the order of
    the selection: however the selection is cut in two, the new units of
    the first part come before those of the second.  A list without repeats
    stays without repeats, and [changed] tells exactly whether anything was
    appended. *)
Theorem add_units_appends_new (adds current_units : list string) :
  exists extra,
    fst (add_units adds current_units false) = current_units ++ extra /\
    NoDup extra /\
    (forall u, In u extra <-> In u adds /\ ~ In u current_units) /\
    (forall a1 a2, adds = a1 ++ a2 ->
       exists e1 e2,
         extra = e1 ++ e2 /\
         (forall u, In u e1 <-> In u a1 /\ ~ In u current_units) /\
         (forall u, In u e2 -> In u a2)) /\
    (snd (add_units adds current_units false) = false <-> extra = []) /\
    (forall u, In u adds -> In u (fst (add_units adds current_units false))) /\
    (NoDup current_units -> NoDup (fst (add_units adds current_units false))).
Proof.
  destruct (add_units_general adds current_units false)
    as (extra & Hfst & Hnd & Hiff & Hsnd).
  exists extra. rewrite Hsnd.
  split; [exact Hfst |]. split; [exact Hnd |]. split; [exact Hiff |].
  split; [| split; [| split]].
  - intros a1 a2 E.
    destruct (add_units_general a1 current_units false) as (e1 & H1 & _ & Hiff1 & _).
    destruct (add_units_general a2 (current_units ++ e1)
                (snd (add_units a1 current_units false)))
      as (e2 & H2 & _ & Hiff2 & _).
    exists e1, e2. split; [| split; [exact Hiff1 |]].
    + rewrite E, add_units_app, H1, H2, <- app_assoc in Hfst.
      apply app_inv_head in Hfst. symmetry. exact Hfst.
    + intros u Hu. apply Hiff2 in Hu. tauto.
  - cbn [orb]. destruct extra; split; congruence.
  - rewrite Hfst. intros u Hu. apply in_or_app.
    destruct (in_dec string_dec u current_units) as [Hc | Hc]; [left; exact Hc | right].
    apply Hiff. tauto.
  - rewrite Hfst. intros Hcur. apply NoDup_app; try assumption.
    intros x Hx Hx'. apply Hiff in Hx'. tauto.
Qed.

Section DropFacts.

Variable checked : string -> bool.
Variable save_config_result : nat -> list string -> Res bool.

Lemma list_remove_checked (u : string) (l l' : list string) :
  list_remove u l = Some l' ->
  checked u = true ->
  unchecked checked l' = unchecked checked l /\
  S (List.length l') = List.length l /\
  (forall x, In x l' -> In x l).
Proof.
  revert l'. induction l as [| y rest IH]; intros l' H Hc; [discriminate H |].
  cbn [list_remove] in H. destruct (String.eqb u y) eqn:E.
  - apply String.eqb_eq in E. subst y. injection H as <-.
    unfold unchecked. cbn [filter]. rewrite Hc. cbn [negb].
    repeat split. intros x Hx. right. exact Hx.
  - destruct (list_remove u rest) as [rest' |]; [| discriminate H].
    injection H as <-. destruct (IH rest' eq_refl Hc) as (Hf & Hlen & Hin).
    unfold unchecked in *. cbn [filter List.length]. rewrite Hf.
    repeat split; [lia |].
    intros x [Hx | Hx]; [left; exact Hx | right; apply Hin, Hx].
Qed.

Lemma list_remove_at (done rest : list string) (u : string) :
  ~ In u done ->
  list_remove u (done ++ u :: rest) = Some (done ++ rest).
Proof.
  induction done as [| y done IH]; intros Hn.
  - cbn [app list_remove]. rewrite String.eqb_refl. reflexivity.
  - cbn [app list_remove].
    assert (String.eqb u y = false) as ->
      by (apply String.eqb_neq; intros E; apply Hn; left; symmetry; exact E).
    rewrite IH; [reflexivity |]. intros H. apply Hn. right. exact H.
Qed.

Lemma drop_loop_general (fuel i : nat) (s : DropState) (r : Res bool) (s' : DropState) :
  drop_loop checked save_config_result fuel i s = (r, s') ->
  unchecked checked (ds_units s') = unchecked checked (ds_units s) /\
  (List.length (ds_units s') + ds_saves s' = List.length (ds_units s) + ds_saves s
   /\ ds_saves s <= ds_saves s')%nat /\
  (forall x, In x (ds_units s') -> In x (ds_units s)) /\
  (List.length (ds_units s) <= i + fuel -> r <> Ok false)%nat.
Proof.
  revert i s r s'. induction fuel as [| fuel IH]; intros i s r s' H;
    cbn [drop_loop] in H;
    destruct (nth_error (ds_units s) i) as [u |] eqn:E;
    try (injection H as <- <-; repeat split; auto; intros _; discriminate).
  - assert (i < List.length (ds_units s))%nat by (apply nth_error_Some; congruence).
    injection H as <- <-. repeat split; auto. intros Hle. lia.
  - assert (Hi : (i < List.length (ds_units s))%nat)
      by (apply nth_error_Some; congruence).
    unfold bind, st_checkbox, units_remove, drop_save, lift_res, ret in H.
    destruct (py_in_list u (ds_keys s));
      [injection H as <- <-; repeat split; auto; intros _; discriminate |].
    destruct (checked u) eqn:Hc; cbn [ds_units ds_keys ds_saves] in H.
    + destruct (list_remove u (ds_units s)) as [l |] eqn:Hrm;
        [| injection H as <- <-; repeat split; auto; intros _; discriminate].
      destruct (list_remove_checked u _ _ Hrm Hc) as (Hf & Hlen & Hin).
      cbn [ds_units ds_keys ds_saves] in H.
      destruct (save_config_result (ds_saves s) l) as [[|] | e];
        try (injection H as <- <-; cbn [ds_units ds_saves];
             repeat split; auto; try lia; intros _; discriminate).
      apply IH in H. cbn [ds_units ds_saves] in H.
      destruct H as (Hf1 & [Hlen1 Hmono1] & Hin1 & Hfuel1).
      repeat split.
      * rewrite Hf1. exact Hf.
      * lia.
      * lia.
      * intros x Hx. apply Hin, (Hin1 x Hx).
      * intros Hle. apply Hfuel1. lia.
    + apply IH in H. cbn [ds_units ds_saves] in H.
      destruct H as (Hf1 & [Hlen1 Hmono1] & Hin1 & Hfuel1).
      repeat split; try assumption.
      intros Hle. apply Hfuel1. lia.
Qed.

(** X6. The "Drop" loop runs to its end or stops in a rerun or an error, and in
    every case: the units whose box is not ticked are all still there, in
    their order; nothing is in the list that was not there before; and as
    many units are gone as saves were attempted. *)
Theorem drop_units_spares_unchecked (s : DropState) :
  let r := drop_units checked save_config_result s in
  fst r <> Ok false /\
  filter (fun u => negb (checked u)) (ds_units (snd r)) =
    filter (fun u => negb (checked u)) (ds_units s) /\
  (forall x, In x (ds_units (snd r)) -> In x (ds_units s)) /\
  (List.length (ds_units (snd r)) + (ds_saves (snd r) - ds_saves s) =
     List.length (ds_units s))%nat.
Proof.
  intros r. subst r. unfold drop_units.
  destruct (drop_loop checked save_config_result (List.length (ds_units s)) 0 s)
    as [r s'] eqn:E.
  destruct (drop_loop_general _ _ _ _ _ E) as (Hf & [Hlen Hmono] & Hin & Hfuel).
  cbn [fst snd]. repeat split; [apply Hfuel; lia | exact Hf | exact Hin | lia].
Qed.

End DropFacts.

Section DropRuns.

Variable checked : string -> bool.
Variable save_config_result : nat -> list string -> Res bool.

Lemma nth_error_middle (done rest : list string) :
  nth_error (done ++ rest) (List.length done) = nth_error rest 0.
Proof.
  rewrite nth_error_app2 by lia. rewrite Nat.sub_diag. reflexivity.
Qed.

Lemma drop_loop_end (fuel : nat) (done : list string) (keys : list string) (n : nat) :
  drop_loop checked save_config_result fuel (List.length done) (mkDrop done keys n) =
    (Ok true, mkDrop done keys n).
Proof.
  assert (E : nth_error done (List.length done) = None)
    by (apply nth_error_None; lia).
  destruct fuel; cbn [drop_loop ds_units]; rewrite E; reflexivity.
Qed.

Lemma drop_loop_step (fuel : nat) (done rest : list string) (u : string)
      (keys : list string) (n : nat) :
  ~ In u keys ->
  drop_loop checked save_config_result (S fuel) (List.length done)
            (mkDrop (done ++ u :: rest) keys n) =
    if checked u then
      match list_remove u (done ++ u :: rest) with
      | Some l =>
          match save_config_result n l with
          | Ok true => (Raise RerunException, mkDrop l (u :: keys) (S n))
          | Ok false =>
              drop_loop checked save_config_result fuel (S (List.length done))
                        (mkDrop l (u :: keys) (S n))
          | Raise e => (Raise e, mkDrop l (u :: keys) (S n))
          end
      | None => (Raise RemoveError, mkDrop (done ++ u :: rest) (u :: keys) n)
      end
    else drop_loop checked save_config_result fuel (S (List.length done))
                   (mkDrop (done ++ u :: rest) (u :: keys) n).
Proof.
  intros Hk. apply py_in_list_not_In in Hk.
  cbn [drop_loop ds_units]. rewrite nth_error_middle. cbn [nth_error].
  unfold bind, st_checkbox, units_remove, drop_save, lift_res, ret.
  cbn [ds_units ds_keys ds_saves]. rewrite Hk.
  destruct (checked u); [| reflexivity].
  cbn [ds_units ds_keys ds_saves].
  destruct (list_remove u (done ++ u :: rest)) as [l |]; [| reflexivity].
  cbn [ds_units ds_keys ds_saves].
  destruct (save_config_result n l) as [[|] | e]; reflexivity.
Qed.

Lemma drop_loop_first_ticked (u : string) (post : list string) :
  checked u = true ->
  forall (pre done : list string) (fuel : nat) (keys : list string) (n : nat),
    (List.length pre < fuel)%nat ->
    NoDup (done ++ pre ++ u :: post) ->
    (forall x, In x (pre ++ [u]) -> ~ In x keys) ->
    (forall x, In x pre -> checked x = false) ->
    save_config_result n (done ++ pre ++ post) = Ok true ->
    drop_loop checked save_config_result fuel (List.length done)
              (mkDrop (done ++ pre ++ u :: post) keys n) =
      (Raise RerunException, mkDrop (done ++ pre ++ post) (u :: rev pre ++ keys) (S n)).
Proof.
  intros Hu. induction pre as [| x pre IH]; intros done fuel keys n Hfuel Hnd Hkeys Hpre Hsave;
    (destruct fuel as [| fuel]; [cbn [List.length] in Hfuel; lia |]).
  - cbn [app] in *. rewrite drop_loop_step by (apply Hkeys; left; reflexivity).
    rewrite Hu. rewrite list_remove_at.
    + rewrite Hsave. reflexivity.
    + apply NoDup_remove_2 in Hnd. intros H. apply Hnd, in_or_app. left. exact H.
  - cbn [app] in *. rewrite drop_loop_step by (apply Hkeys; left; reflexivity).
    rewrite (Hpre x (or_introl eq_refl)).
    replace (done ++ x :: pre ++ u :: post) with ((done ++ [x]) ++ pre ++ u :: post)
      by (rewrite <- app_assoc; reflexivity).
    replace (S (List.length done)) with (List.length (done ++ [x]))
      by (rewrite length_app; cbn [List.length]; lia).
    rewrite IH.
    + rewrite <- !app_assoc. cbn [app rev]. rewrite <- app_assoc. reflexivity.
    + cbn [List.length] in Hfuel. lia.
    + rewrite <- app_assoc. exact Hnd.
    + intros y Hy [E | Hk].
      * subst y. apply NoDup_remove_2 in Hnd. apply Hnd, in_or_app. right.
        apply in_app_or in Hy as [Hy | [Hy | []]].
        -- apply in_or_app. left. exact Hy.
        -- subst. apply in_or_app. right. left. reflexivity.
      * apply (Hkeys y); [right; exact Hy | exact Hk].
    + intros y Hy. apply Hpre. right. exact Hy.
    + rewrite <- app_assoc. exact Hsave.
Qed.

(** X7. With no repeated unit and no clash with a widget key: when the save
    succeeds, "Drop" removes exactly the first ticked unit, saves once and
    reruns, the units after it not looked at. *)
Theorem drop_units_first_ticked (pre post : list string) (u : string)
        (keys : list string) (n : nat) :
  NoDup (pre ++ u :: post) ->
  (forall x, In x (pre ++ [u]) -> ~ In x keys) ->
  (forall x, In x pre -> checked x = false) ->
  checked u = true ->
  save_config_result n (pre ++ post) = Ok true ->
  drop_units checked save_config_result (mkDrop (pre ++ u :: post) keys n) =
    (Raise RerunException, mkDrop (pre ++ post) (u :: rev pre ++ keys) (S n)).
Proof.
  intros Hnd Hkeys Hpre Hu Hsave. unfold drop_units. cbn [ds_units].
  apply (drop_loop_first_ticked u post Hu pre [] _ keys n); try assumption.
  rewrite length_app. cbn [List.length]. lia.
Qed.

Lemma drop_loop_none_ticked (rest : list string) :
  forall (done : list string) (fuel : nat) (keys : list string) (n : nat),
    (List.length rest <= fuel)%nat ->
    NoDup rest ->
    (forall x, In x rest -> ~ In x keys) ->
    (forall x, In x rest -> checked x = false) ->
    drop_loop checked save_config_result fuel (List.length done)
              (mkDrop (done ++ rest) keys n) =
      (Ok true, mkDrop (done ++ rest) (rev rest ++ keys) n).
Proof.
  induction rest as [| x rest IH]; intros done fuel keys n Hfuel Hnd Hkeys Hun.
  - rewrite app_nil_r. apply drop_loop_end.
  - destruct fuel as [| fuel]; [cbn [List.length] in Hfuel; lia |].
    rewrite drop_loop_step by (apply Hkeys; left; reflexivity).
    rewrite (Hun x (or_introl eq_refl)).
    replace (done ++ x :: rest) with ((done ++ [x]) ++ rest)
      by (rewrite <- app_assoc; reflexivity).
    replace (S (List.length done)) with (List.length (done ++ [x]))
      by (rewrite length_app; cbn [List.length]; lia).
    inversion Hnd as [| ? ? Hx Hnd']; subst.
    rewrite IH.
    + cbn [rev]. rewrite <- !app_assoc. reflexivity.
    + cbn [List.length] in Hfuel. lia.
    + exact Hnd'.
    + intros y Hy [E | Hk]; [subst y; contradiction |].
      apply (Hkeys y); [right; exact Hy | exact Hk].
    + intros y Hy. apply Hun. right. exact Hy.
Qed.

(** X8. With no repeated unit, no clash with a widget key and no box ticked,
    the loop shows a box for every unit, in order, removes and saves
    nothing, and ends normally. *)
Theorem drop_units_none_ticked (units keys : list string) (n : nat) :
  NoDup units ->
  (forall x, In x units -> ~ In x keys) ->
  (forall x, In x units -> checked x = false) ->
  drop_units checked save_config_result (mkDrop units keys n) =
    (Ok true, mkDrop units (rev units ++ keys) n).
Proof.
  intros Hnd Hkeys Hun. unfold drop_units. cbn [ds_units].
  apply (drop_loop_none_ticked units [] _ keys n); auto.
Qed.

Lemma drop_loop_skips (fuel : nat) :
  (forall k l, save_config_result k l = Ok false) ->
  forall (done rest keys : list string) (n : nat),
    (List.length rest <= fuel)%nat ->
    NoDup (done ++ rest) ->
    (forall x, In x rest -> ~ In x keys) ->
    (forall x, In x rest -> checked x = true) ->
    exists keys' n',
      drop_loop checked save_config_result fuel (List.length done)
                (mkDrop (done ++ rest) keys n) =
        (Ok true, mkDrop (done ++ odd_positions rest) keys' n').
Proof.
  intros Hsave. induction fuel as [| fuel IH]; intros done rest keys n Hfuel Hnd Hkeys Hall.
  - destruct rest; [| cbn [List.length] in Hfuel; lia].
    cbn [odd_positions]. rewrite app_nil_r. do 2 eexists. apply drop_loop_end.
  - destruct rest as [| x rest].
    { cbn [odd_positions]. rewrite app_nil_r. do 2 eexists. apply drop_loop_end. }
    rewrite drop_loop_step by (apply Hkeys; left; reflexivity).
    rewrite (Hall x (or_introl eq_refl)).
    rewrite list_remove_at
      by (apply NoDup_remove_2 in Hnd; intros H; apply Hnd, in_or_app; left; exact H).
    rewrite Hsave.
    destruct rest as [| y rest].
    + cbn [odd_positions]. rewrite app_nil_r. do 2 eexists.
      assert (E : nth_error done (S (List.length done)) = None)
        by (apply nth_error_None; lia).
      destruct fuel; cbn [drop_loop ds_units]; rewrite E; reflexivity.
    + cbn [odd_positions].
      replace (done ++ y :: rest) with ((done ++ [y]) ++ rest)
        by (rewrite <- app_assoc; reflexivity).
      replace (done ++ y :: odd_positions rest) with ((done ++ [y]) ++ odd_positions rest)
        by (rewrite <- app_assoc; reflexivity).
      replace (S (List.length done)) with (List.length (done ++ [y]))
        by (rewrite length_app; cbn [List.length]; lia).
      apply IH.
      * cbn [List.length] in Hfuel. lia.
      * apply NoDup_remove_1 in Hnd. rewrite <- app_assoc. exact Hnd.
      * intros z Hz [E | Hk].
        -- subst z. apply NoDup_remove_2 in Hnd. apply Hnd, in_or_app. right. right. exact Hz.
        -- apply (Hkeys z); [right; right; exact Hz | exact Hk].
      * intros z Hz. apply Hall. right. right. exact Hz.
Qed.

(** X9. When the saves fail the loop goes on over the list it has just
    shortened, and the unit after each removed one is passed over: with
    every box ticked and every save failing, one pass removes the units at
    the even positions and leaves those at the odd ones. *)
Theorem drop_units_skips_after_failed_save (units keys : list string) (n : nat) :
  NoDup units ->
  (forall x, In x units -> ~ In x keys) ->
  (forall x, In x units -> checked x = true) ->
  (forall k l, save_config_result k l = Ok false) ->
  exists keys' n',
    drop_units checked save_config_result (mkDrop units keys n) =
      (Ok true, mkDrop (odd_positions units) keys' n').
Proof.
  intros Hnd Hkeys Hall Hsave. unfold drop_units. cbn [ds_units].
  apply (drop_loop_skips (List.length units) Hsave [] units keys n); auto.
Qed.

End DropRuns.

(** ** The quiz form *)

Section QuizFacts.

Variable Val : Type.
Variable py_eq : Val -> Val -> bool.

Lemma grade_from_general (quiz_data : list (Question Val)) (answers : nat -> Val) :
  forall i score,
    let r := grade_from Val py_eq i quiz_data answers score in
    (score <= fst r <= score + List.length quiz_data)%nat /\
    (fst r = (score + List.length quiz_data)%nat <-> all_correct Val py_eq i quiz_data answers) /\
    ~ In (QuizBalloons Val) (snd r) /\
    (forall s t, ~ In (QuizMetric Val s t) (snd r)).
Proof.
  induction quiz_data as [| q rest IH]; intros i score r; subst r.
  - cbn [grade_from fst snd List.length]. split; [lia |]. split; [| split].
    + split; [| lia]. intros _ j q' H. destruct j; discriminate H.
    + intros [].
    + intros s t [].
  - cbn [grade_from]. destruct (py_eq (answers i) (q_answer Val q)) eqn:E.
    + specialize (IH (S i) (S score)). cbv zeta in IH.
      destruct (grade_from Val py_eq (S i) rest answers (S score)) as [final shown].
      cbn [fst snd List.length] in *. destruct IH as (Hb & Hiff & Hball & Hmet).
      split; [lia |]. split; [| split].
      * split.
        -- intros Hf j q' Hj. destruct j as [| j].
           ++ injection Hj as <-. rewrite Nat.add_0_r. exact E.
           ++ replace (i + S j)%nat with (S i + j)%nat by lia.
              apply Hiff; [lia | exact Hj].
        -- intros Hall. assert (final = (S score + List.length rest)%nat); [| lia].
           apply Hiff. intros j q' Hj.
           replace (S i + j)%nat with (i + S j)%nat by lia. apply Hall. exact Hj.
      * intros [H | H]; [discriminate H | exact (Hball H)].
      * intros s t [H | H]; [discriminate H | exact (Hmet s t H)].
    + specialize (IH (S i) score). cbv zeta in IH.
      destruct (grade_from Val py_eq (S i) rest answers score) as [final shown].
      cbn [fst snd List.length] in *. destruct IH as (Hb & Hiff & Hball & Hmet).
      split; [lia |]. split; [| split].
      * split; [lia |].
        intros Hall. specialize (Hall 0%nat q eq_refl).
        rewrite Nat.add_0_r in Hall. congruence.
      * intros [H | [H | H]]; [discriminate H | discriminate H | exact (Hball H)].
      * intros s t [H | [H | H]]; [discriminate H | discriminate H | exact (Hmet s t H)].
Qed.

(** X10. The score of a submitted quiz is never above the number of questions;
    it equals that number exactly when every question was answered with a
    value equal to its key; the balloons are shown in that case and in no
    other -- so also for a quiz without questions; and the metric shown is
    that score over that number. *)
Theorem submit_quiz_score (quiz_data : list (Question Val)) (answers : nat -> Val) :
  let score := quiz_score Val py_eq quiz_data answers in
  let total := List.length quiz_data in
  (score <= total)%nat /\
  (score = total <-> all_correct Val py_eq 0 quiz_data answers) /\
  (In (QuizBalloons Val) (submit_quiz Val py_eq quiz_data answers) <-> score = total) /\
  (forall s t, In (QuizMetric Val s t) (submit_quiz Val py_eq quiz_data answers) <->
               s = score /\ t = total).
Proof.
  intros score total. subst score total. unfold quiz_score, submit_quiz.
  pose proof (grade_from_general quiz_data answers 0 0) as H. cbv zeta in H.
  destruct (grade_from Val py_eq 0 quiz_data answers 0) as [final shown].
  cbn [fst snd] in *. destruct H as (Hb & Hiff & Hball & Hmet).
  split; [lia |]. split; [exact Hiff |]. split.
  - rewrite !in_app_iff. destruct (Nat.eqb_spec final (List.length quiz_data)) as [E | E].
    + split; [intros _; exact E | intros _; right; right; left; reflexivity].
    + split; [| contradiction].
      intros [H | [[H | []] | []]]; [contradiction | discriminate H].
  - intros s t. rewrite !in_app_iff. split.
    + intros [H | [[H | []] | H]].
      * exfalso. exact (Hmet s t H).
      * injection H as <- <-. split; reflexivity.
      * destruct (Nat.eqb final (List.length quiz_data)); [| contradiction].
        destruct H as [H | []]. discriminate H.
    + intros [-> ->]. right. left. left. reflexivity.
Qed.

End QuizFacts.

(** ** Archiving a chat *)

Lemma summarise_short (msg : string) :
  (PyText.len (summarise msg) <= 43)%nat /\
  ((PyText.len msg <= 40)%nat -> summarise msg = msg).
Proof.
  unfold summarise. destruct (Nat.ltb_spec 40 (PyText.len msg)) as [H | H].
  - split; [| lia]. rewrite text_len_app. pose proof (take_len 40 msg).
    assert (PyText.len "..." = 3%nat) as -> by reflexivity. lia.
  - split; [lia | reflexivity].
Qed.

(** X11. "New Chat" on a chat with messages files it first in the archives,
    under the clock reading and a summary of at most 43 characters (the
    first message of the user itself when it has 40 characters or fewer),
    with all its messages; behind it come the archives there were, in their
    order, up to nine of them, so that at most [MAX_ARCHIVED_SESSIONS] are
    kept and the oldest goes when the store is full.  An empty chat files
    nothing. *)
Theorem archive_session_keeps_latest (now : string) (archived_sessions : option (list Archive))
        (current_msgs : list Message) :
  let existing := match archived_sessions with Some l => l | None => [] end in
  (current_msgs <> [] ->
   exists filed,
     archive_session now archived_sessions current_msgs =
       Some (filed :: firstn 9 existing) /\
     timestamp filed = now /\
     messages filed = current_msgs /\
     (PyText.len (summary filed) <= 43)%nat /\
     ((PyText.len (first_user_msg current_msgs) <= 40)%nat ->
      summary filed = first_user_msg current_msgs) /\
     List.length (filed :: firstn 9 existing) =
       Nat.min MAX_ARCHIVED_SESSIONS (S (List.length existing))) /\
  (current_msgs = [] ->
   archive_session now archived_sessions current_msgs = archived_sessions).
Proof.
  intros existing. split.
  - intros Hne. destruct current_msgs as [| m rest]; [congruence |].
    eexists. split; [reflexivity |]. cbn [timestamp messages summary].
    split; [reflexivity |]. split; [reflexivity |].
    split; [apply summarise_short |]. split; [apply summarise_short |].
    cbn [List.length]. rewrite length_firstn. unfold MAX_ARCHIVED_SESSIONS. lia.
  - intros ->. reflexivity.
Qed.

(** ** The difficulty selector *)

Lemma list_index_nth (x : string) (l : list string) (n : nat) :
  list_index x l = Some n -> nth_error l n = Some x.
Proof.
  revert n. induction l as [| y rest IH]; intros n H; [discriminate H |].
  cbn [list_index] in H. destruct (String.eqb x y) eqn:E.
  - injection H as <-. apply String.eqb_eq in E. subst. reflexivity.
  - destruct (list_index x rest) as [k |]; [| discriminate H].
    injection H as <-. cbn [nth_error]. apply IH. reflexivity.
Qed.

Lemma list_index_In (x : string) (l : list string) :
  In x l -> exists n, list_index x l = Some n.
Proof.
  induction l as [| y rest IH]; intros H; [contradiction |].
  cbn [list_index]. destruct (String.eqb x y) eqn:E; [eauto |].
  destruct H as [H | H]; [subst; rewrite String.eqb_refl in E; discriminate E |].
  destruct (IH H) as (n & ->). eauto.
Qed.

(** X12. The index handed to the selector is always one of its four entries.
    Left untouched, the selector changes nothing and asks for no save when
    the stored difficulty is one of the four or is missing; a stored
    difficulty that is none of the four is replaced by the last entry and
    saved, without the user choosing anything. *)
Theorem difficulty_selector_default (difficulty : option string) :
  (difficulty_index difficulty < List.length diffs)%nat /\
  (In (curr_diff difficulty) diffs ->
   nth_error diffs (difficulty_index difficulty) = Some (curr_diff difficulty) /\
   difficulty_update difficulty (default_choice difficulty) = (difficulty, false)) /\
  (~ In (curr_diff difficulty) diffs ->
   difficulty_index difficulty = 3%nat /\
   difficulty_update difficulty (default_choice difficulty) =
     (Some "Asian Parent Expectations (Extreme)", true)) /\
  (difficulty = None ->
   difficulty_update difficulty (default_choice difficulty) = (None, false)).
Proof.
  assert (Hin : In (curr_diff difficulty) diffs ->
                nth_error diffs (difficulty_index difficulty) = Some (curr_diff difficulty)).
  { intros H. unfold difficulty_index.
    assert (py_in_list (curr_diff difficulty) diffs = true) as -> by (apply py_in_list_In, H).
    destruct (list_index_In _ _ H) as (n & Hn). rewrite Hn.
    apply list_index_nth, Hn. }
  assert (Hout : ~ In (curr_diff difficulty) diffs -> difficulty_index difficulty = 3%nat).
  { intros H. unfold difficulty_index.
    assert (py_in_list (curr_diff difficulty) diffs = false) as ->
      by (apply py_in_list_not_In, H). reflexivity. }
  split; [| split; [| split]].
  - destruct (in_dec string_dec (curr_diff difficulty) diffs) as [H | H].
    + apply nth_error_Some. rewrite (Hin H). discriminate.
    + rewrite (Hout H). cbn. lia.
  - intros H. split; [exact (Hin H) |].
    unfold difficulty_update, default_choice.
    rewrite (nth_error_nth _ _ "" (Hin H)), String.eqb_refl. reflexivity.
  - intros H. split; [exact (Hout H) |].
    unfold difficulty_update, default_choice. rewrite (Hout H).
    cbn [nth diffs].
    destruct (String.eqb_spec "Asian Parent Expectations (Extreme)" (curr_diff difficulty))
      as [E | E]; [| reflexivity].
    exfalso. apply H. rewrite <- E. cbn. tauto.
  - intros ->. reflexivity.
Qed.

(** * More on the dispatcher *)

(** What one turn of the loop adds to the history, whatever the backend
    answers: one request through the current handle, at most one rotation. *)
Lemma attempt_effect (prompt : string) (max_retries attempt : Z) (st : State) :
  let st' := snd (ask_orbit_attempt prompt max_retries attempt st) in
  generated (trace (genai st')) = generated (trace (genai st)) ++ [model st] /\
  (rotations (trace (genai st)) <= rotations (trace (genai st')) <=
     S (rotations (trace (genai st))))%nat.
Proof.
  assert (Hlog : forall evs,
    generated evs = [model st] -> (rotations evs <= 1)%nat ->
    generated (trace (genai (log evs st))) = generated (trace (genai st)) ++ [model st] /\
    (rotations (trace (genai st)) <= rotations (trace (genai (log evs st))) <=
       S (rotations (trace (genai st))))%nat).
  { intros evs Hg Hr. unfold log; simpl. rewrite generated_app, rotations_app, Hg.
    split; [reflexivity | lia]. }
  cbv zeta.
  destruct (generate_content (trace (genai st)) (model st) prompt) as [r | e] eqn:Hg.
  - rewrite (attempt_success _ _ _ _ _ Hg). apply Hlog; [reflexivity | cbn; lia].
  - destruct (is_Exception e) eqn:He.
    + destruct (rotates e) eqn:Hr.
      * rewrite (attempt_rotating _ _ _ _ _ Hg He Hr).
        destruct (len GEMINI_API_KEYS <=? 1).
        -- apply Hlog; [reflexivity | cbn; lia].
        -- destruct (quota_round_fields prompt st) as (_ & _ & _ & Hgen & Hrot).
           cbn [snd]. rewrite Hgen, Hrot. split; [reflexivity | lia].
      * rewrite (attempt_transient _ _ _ _ _ Hg He Hr).
        destruct (attempt <? max_retries - 1); apply Hlog;
          try reflexivity; cbn; lia.
    + rewrite (attempt_uncaught _ _ _ _ _ Hg He). apply Hlog; [reflexivity | cbn; lia].
Qed.

Lemma for_in_cons {S A B} (x : A) (rest : list A) (body : A -> M S (Flow B)) (s : S) :
  for_in (x :: rest) body s =
    match body x s with
    | (Ok Continue, s1) => for_in rest body s1
    | (Ok (Return b), s1) => (Ok (Return b), s1)
    | (Raise e, s1) => (Raise e, s1)
    end.
Proof.
  cbn [for_in]. unfold bind. destruct (body x s) as [[[| b] | e] s1]; reflexivity.
Qed.

Lemma loop_effect (prompt : string) (max_retries : Z) :
  forall (attempts : list Z) (st : State),
    let st' := snd (for_in attempts (ask_orbit_attempt prompt max_retries) st) in
    exists requests,
      generated (trace (genai st')) = generated (trace (genai st)) ++ requests /\
      (List.length requests <= List.length attempts)%nat /\
      (attempts <> [] -> 1 <= List.length requests)%nat /\
      (rotations (trace (genai st)) <= rotations (trace (genai st')) <=
         rotations (trace (genai st)) + List.length requests)%nat.
Proof.
  induction attempts as [| a rest IH]; intros st st'; subst st'.
  - exists []. cbn. rewrite app_nil_r. repeat split; try lia. congruence.
  - destruct (attempt_effect prompt max_retries a st) as [Hg Hr].
    rewrite for_in_cons.
    destruct (ask_orbit_attempt prompt max_retries a st) as [[[| r] | e] st1];
      cbn [snd] in *.
    + destruct (IH st1) as (requests & Hg' & Hlen & _ & Hr').
      exists (model st :: requests). rewrite Hg', Hg, <- app_assoc.
      cbn [List.length app]. repeat split; try lia.
    + exists [model st]. cbn [List.length]. repeat split; try assumption; lia.
    + exists [model st]. cbn [List.length]. repeat split; try assumption; lia.
Qed.

(** X13. Whatever the backend does, one call of [ask_orbit] sends at least one
    request and at most [N + 1], where [N] is the number of keys, and rotates
    at most once per request. *)
Theorem ask_orbit_within_budget (prompt : string) (st : State) :
  let st' := snd (ask_orbit prompt st) in
  exists requests,
    generated (trace (genai st')) = generated (trace (genai st)) ++ requests /\
    (1 <= List.length requests <= List.length GEMINI_API_KEYS + 1)%nat /\
    (rotations (trace (genai st)) <= rotations (trace (genai st')) <=
       rotations (trace (genai st)) + List.length requests)%nat.
Proof.
  cbv zeta. rewrite ask_orbit_unfold.
  destruct (loop_effect prompt (len GEMINI_API_KEYS + 1)
              (0 :: map Z.of_nat (seq 1 (List.length GEMINI_API_KEYS))) st)
    as (requests & Hg & Hlen & Hpos & Hrot).
  cbn [List.length] in Hlen. rewrite length_map, length_seq in Hlen.
  destruct (for_in _ _ st) as [[[| r] | e] st']; cbn [snd] in *;
    exists requests; (split; [exact Hg |]); (split; [| exact Hrot]);
    (split; [apply Hpos; discriminate | lia]).
Qed.

Lemma ask_orbit_env_unfold (lib : list Event -> Call -> option PyExc) (prompt : string)
      (st : State) :
  ask_orbit_env lib prompt st =
    match for_in (0 :: map Z.of_nat (seq 1 (List.length GEMINI_API_KEYS)))
                 (ask_orbit_attempt_env lib prompt (len GEMINI_API_KEYS + 1)) st with
    | (Ok (Return r), st') => (Ok r, st')
    | (Ok Continue, st') => (Ok None, st')
    | (Raise e, st') => (Raise e, st')
    end.
Proof.
  unfold ask_orbit_env. cbv zeta.
  replace (range (len GEMINI_API_KEYS + 1))
    with (0 :: map Z.of_nat (seq 1 (List.length GEMINI_API_KEYS)))
    by (symmetry; apply range_cons).
  unfold bind at 1.
  destruct (for_in _ _ st) as [[[| r] | e] st']; reflexivity.
Qed.

(** X14. What [ask_orbit] raises is never of its own making: it is an object a
    request raised, outside the [Exception] class, or an object that one of
    the library calls of [rotate_key] and of the handler raised
    ([genai.configure] outside the [Exception] class, the others whatever
    they raise).  Both happen.  A first request that raises outside the
    class ends the call at once, with no rotation and no retry; and when
    the first request fails with a Transient error and the [print] of the
    handler raises, what it raises reaches the caller after the request and
    the [print], with no pause and no retry. *)
Theorem ask_orbit_raises_only_passthrough (lib : list Event -> Call -> option PyExc)
        (prompt : string) (st : State) :
  (forall e st',
     ask_orbit_env lib prompt st = (Raise e, st') ->
     (is_Exception e = false /\ exists tr h, generate_content tr h prompt = Raise e) \/
     (exists tr c, lib tr c = Some e /\ (protected c = true -> is_Exception e = false))) /\
  (forall e,
     generate_content (trace (genai st)) (model st) prompt = Raise e ->
     is_Exception e = false ->
     ask_orbit_env lib prompt st = (Raise e, log [EvGenerate (model st) prompt] st)) /\
  (forall e e',
     generate_content (trace (genai st)) (model st) prompt = Raise e ->
     is_Exception e = true ->
     rotates e = false ->
     lib (trace (genai st) ++ [EvGenerate (model st) prompt])
         (Logged (EvPrintChatError (exc_str e))) = Some e' ->
     ask_orbit_env lib prompt st =
       (Raise e', log [EvGenerate (model st) prompt; EvPrintChatError (exc_str e)] st)).
Proof.
  split; [| split].
  - intros e st' H.
    apply (ask_orbit_env_raises lib prompt
             (fun e => (is_Exception e = false /\
                        exists tr h, generate_content tr h prompt = Raise e) \/
                       (exists tr c, lib tr c = Some e /\
                                     (protected c = true -> is_Exception e = false))))
      with st st'; [| | exact H].
    + intros tr c e0 Hl Hp. right. eauto.
    + intros tr h e0 Hg He. left. eauto.
  - intros e Hg He. rewrite ask_orbit_env_unfold. cbn [for_in]. unfold bind at 1.
    assert (Ha : ask_orbit_attempt_env lib prompt (len GEMINI_API_KEYS + 1) 0 st =
                 (Raise e, log [EvGenerate (model st) prompt] st)).
    { unfold ask_orbit_attempt_env, try_except, bind, model_generate_content, get_model,
        lift_genai.
      simpl. rewrite Hg, He. reflexivity. }
    rewrite Ha. reflexivity.
  - intros e e' Hg He Hr Hp. rewrite ask_orbit_env_unfold. cbn [for_in]. unfold bind at 1.
    assert (Ha : ask_orbit_attempt_env lib prompt (len GEMINI_API_KEYS + 1) 0 st =
                 (Raise e',
                  log [EvGenerate (model st) prompt; EvPrintChatError (exc_str e)] st)).
    { unfold rotates in Hr.
      unfold ask_orbit_attempt_env, try_except, bind, model_generate_content, get_model,
        lift_genai, emit_env.
      simpl. rewrite Hg, He, Hr. simpl. rewrite Hp.
      unfold log. simpl. rewrite <- app_assoc. reflexivity. }
    rewrite Ha. reflexivity.
Qed.

(** The loop when every request fails with an error, of whatever class,
    and there are keys to rotate over: [attempt] is the index of the next
    turn and [n] the number of turns left. *)
Lemma failing_loop (prompt : string) :
  2 <= len GEMINI_API_KEYS ->
  (forall tr h, exists e,
      generate_content tr h prompt = Raise e /\ is_Exception e = true) ->
  forall (n attempt : nat) (st : State),
    (attempt + n = S (List.length GEMINI_API_KEYS))%nat ->
    exists fl st' requests,
      for_in (map Z.of_nat (seq attempt n))
             (ask_orbit_attempt prompt (len GEMINI_API_KEYS + 1)) st = (Ok fl, st') /\
      (fl = Continue \/ fl = Return None) /\
      generated (trace (genai st')) = generated (trace (genai st)) ++ requests /\
      List.length requests = n.
Proof.
  intros HN Hfail. induction n as [| n IH]; intros attempt st Hsum.
  - exists Continue, st, []. cbn. rewrite app_nil_r. auto.
  - destruct (Hfail (trace (genai st)) (model st)) as (e & Hg & He).
    destruct (attempt_effect prompt (len GEMINI_API_KEYS + 1) (Z.of_nat attempt) st)
      as [Hgen _].
    cbn [seq map for_in]. unfold bind at 1.
    assert (Hnext : forall st1,
      generated (trace (genai st1)) = generated (trace (genai st)) ++ [model st] ->
      exists fl st' requests,
        for_in (map Z.of_nat (seq (S attempt) n))
               (ask_orbit_attempt prompt (len GEMINI_API_KEYS + 1)) st1 = (Ok fl, st') /\
        (fl = Continue \/ fl = Return None) /\
        generated (trace (genai st')) = generated (trace (genai st)) ++ requests /\
        List.length requests = S n).
    { intros st1 H1. destruct (IH (S attempt) st1) as (fl & st' & requests & Hrun & Hfl & Hreq & Hlen);
        [lia |].
      exists fl, st', (model st :: requests). rewrite Hreq, H1, <- app_assoc.
      cbn [List.length app]. auto. }
    destruct (rotates e) eqn:Hr.
    + rewrite (attempt_rotating _ _ _ _ _ Hg He Hr) in *.
      destruct (Z.leb_spec (len GEMINI_API_KEYS) 1); [lia |].
      apply Hnext. exact Hgen.
    + rewrite (attempt_transient _ _ _ _ _ Hg He Hr) in *.
      destruct (Z.ltb_spec (Z.of_nat attempt) (len GEMINI_API_KEYS + 1 - 1)) as [Hlt | Hge].
      * apply Hnext. exact Hgen.
      * assert (n = 0%nat) by (unfold len in Hge; lia). subst n.
        do 2 eexists. exists [model st]. split; [reflexivity |].
        split; [right; reflexivity |]. split; [exact Hgen | reflexivity].
Qed.

(** X15. With at least two keys, when every request fails with an error, be it
    of the Quota, the Auth or the Transient class and in whatever mix,
    [ask_orbit] sends exactly [N + 1] requests and returns [None]. *)
Theorem ask_orbit_all_failing (prompt : string) (st : State) :
  2 <= len GEMINI_API_KEYS ->
  (forall tr h, exists e,
      generate_content tr h prompt = Raise e /\ is_Exception e = true) ->
  exists st' requests,
    ask_orbit prompt st = (Ok None, st') /\
    generated (trace (genai st')) = generated (trace (genai st)) ++ requests /\
    List.length requests = S (List.length GEMINI_API_KEYS).
Proof.
  intros HN Hfail.
  destruct (failing_loop prompt HN Hfail (S (List.length GEMINI_API_KEYS)) 0%nat st eq_refl)
    as (fl & st' & requests & Hrun & Hfl & Hreq & Hlen).
  exists st', requests. rewrite ask_orbit_unfold.
  change (0 :: map Z.of_nat (seq 1 (List.length GEMINI_API_KEYS)))
    with (map Z.of_nat (seq 0 (S (List.length GEMINI_API_KEYS)))).
  rewrite Hrun. destruct Hfl as [-> | ->]; auto.
Qed.

(** ** The handle follows the cursor *)

Lemma log_bound (evs : list Event) (st : State) : bound st -> bound (log evs st).
Proof. intros H. exact H. Qed.

Lemma rotated_bound (st : State) : 2 <= len GEMINI_API_KEYS -> bound (rotated st).
Proof.
  intros HN. unfold bound, rotated. cbn [key_index model model_name genai api_key].
  rewrite Z.mod_mod by lia. split; reflexivity.
Qed.

Lemma attempt_bound (prompt : string) (max_retries attempt : Z) (st : State) :
  bound st -> bound (snd (ask_orbit_attempt prompt max_retries attempt st)).
Proof.
  intros Hb.
  destruct (generate_content (trace (genai st)) (model st) prompt) as [r | e] eqn:Hg.
  - rewrite (attempt_success _ _ _ _ _ Hg). exact Hb.
  - destruct (is_Exception e) eqn:He.
    + destruct (rotates e) eqn:Hr.
      * rewrite (attempt_rotating _ _ _ _ _ Hg He Hr).
        destruct (Z.leb_spec (len GEMINI_API_KEYS) 1); [exact Hb |].
        cbn [snd]. unfold quota_round. apply log_bound, rotated_bound. lia.
      * rewrite (attempt_transient _ _ _ _ _ Hg He Hr).
        destruct (attempt <? max_retries - 1); exact Hb.
    + rewrite (attempt_uncaught _ _ _ _ _ Hg He). exact Hb.
Qed.

Lemma loop_bound (prompt : string) (max_retries : Z) :
  forall (attempts : list Z) (st : State),
    bound st ->
    let st' := snd (for_in attempts (ask_orbit_attempt prompt max_retries) st) in
    bound st' /\
    forall requests,
      generated (trace (genai st')) = generated (trace (genai st)) ++ requests ->
      Forall (fun h => exists cursor,
                h = mkHandle (model_name st)
                             (Some (credential (cursor mod len GEMINI_API_KEYS))))
             requests.
Proof.
  induction attempts as [| a rest IH]; intros st Hb st'; subst st'.
  - cbn. split; [exact Hb |]. intros requests H.
    rewrite <- (app_nil_r (generated _)) in H at 1. apply app_inv_head in H.
    subst. constructor.
  - pose proof (attempt_bound prompt max_retries a st Hb) as Hb1.
    destruct (attempt_effect prompt max_retries a st) as [Hg _].
    destruct (attempt_same_resolution prompt max_retries a st) as [Hname _].
    assert (Hfirst : exists cursor,
      model st = mkHandle (model_name st)
                          (Some (credential (cursor mod len GEMINI_API_KEYS))))
      by (exists (key_index st); apply Hb).
    rewrite for_in_cons.
    destruct (ask_orbit_attempt prompt max_retries a st) as [[[| r] | e] st1];
      cbn [snd] in *.
    + destruct (IH st1 Hb1) as [Hb' Hreq]. split; [exact Hb' |].
      intros requests H.
      destruct (loop_effect prompt max_retries rest st1) as (rs & Hrs & _).
      specialize (Hreq rs Hrs). rewrite Hname in Hreq.
      rewrite Hrs, Hg, <- app_assoc in H. apply app_inv_head in H.
      subst requests. cbn [app]. constructor; [exact Hfirst | exact Hreq].
    + split; [exact Hb1 |]. intros requests H. rewrite Hg in H.
      apply app_inv_head in H. subst. constructor; [exact Hfirst | constructor].
    + split; [exact Hb1 |]. intros requests H. rewrite Hg in H.
      apply app_inv_head in H. subst. constructor; [exact Hfirst | constructor].
Qed.

(** X16. When the handle and the client configuration are those of the
    credential under the cursor (taken modulo the pool length), they still
    are after [ask_orbit], whatever the backend did; and every request of
    the call went through a handle under the session's model name on the
    credential some cursor value selects. *)
Theorem ask_orbit_handle_follows_cursor (prompt : string) (st : State) :
  bound st ->
  let st' := snd (ask_orbit prompt st) in
  bound st' /\
  model_name st' = model_name st /\
  forall requests,
    generated (trace (genai st')) = generated (trace (genai st)) ++ requests ->
    Forall (fun h => exists cursor,
              h = mkHandle (model_name st)
                           (Some (credential (cursor mod len GEMINI_API_KEYS))))
           requests.
Proof.
  intros Hb. cbv zeta.
  destruct (ask_orbit_same_resolution prompt st) as [Hname _].
  split; [| split; [exact Hname |]].
  - rewrite ask_orbit_unfold.
    destruct (loop_bound prompt (len GEMINI_API_KEYS + 1)
                (0 :: map Z.of_nat (seq 1 (List.length GEMINI_API_KEYS))) st Hb) as [H _].
    destruct (for_in _ _ st) as [[[| r] | e] st']; exact H.
  - rewrite ask_orbit_unfold.
    destruct (loop_bound prompt (len GEMINI_API_KEYS + 1)
                (0 :: map Z.of_nat (seq 1 (List.length GEMINI_API_KEYS))) st Hb) as [_ H].
    destruct (for_in _ _ st) as [[[| r] | e] st']; exact H.
Qed.

(** ** The top of the script *)

Lemma credential_in_pool (cursor : Z) :
  GEMINI_API_KEYS <> [] ->
  In (credential (cursor mod len GEMINI_API_KEYS)) GEMINI_API_KEYS.
Proof.
  intros Hne. pose proof (len_pos _ Hne) as Hpos.
  pose proof (Z.mod_pos_bound cursor (len GEMINI_API_KEYS) Hpos) as Hb.
  unfold credential. apply nth_In. unfold len in *. lia.
Qed.

Lemma script_top_returns (s : Script) (st : State) (s1 : Script) :
  GEMINI_API_KEYS <> [] ->
  script_top s = (Ok st, s1) ->
  let k := match ss_key_index (fst s) with Some k => k | None => 0 end in
  key_index st = k /\
  bound st /\
  fst s1 = mkStore (Some k) (Some (model_name st)) /\
  (forall n, ss_model_name (fst s) = Some n -> model_name st = n).
Proof.
  intros Hne H k. destruct s as [[ki mn] g]. cbn [fst ss_key_index ss_model_name] in *.
  unfold script_top in H. rewrite (pool_nonempty_test Hne) in H.
  destruct mn as [n |].
  - assert (E : script_top (mkStore ki (Some n), g) =
                (Ok (mkState k n (mkHandle n (api_key (snd (configure_genai k g))))
                             (snd (configure_genai k g))),
                 (mkStore (Some k) (Some n), snd (configure_genai k g)))).
    { unfold script_top. rewrite (pool_nonempty_test Hne).
      destruct (configure_genai_total k g) as (b & Hc & _).
      destruct ki as [k' |]; unfold bind, ret, has_key_index, has_model_name,
        write_key_index, read_key_index, read_model_name, lift_lib, GenerativeModel;
        simpl; fold k; rewrite Hc; reflexivity. }
    unfold script_top in E. rewrite (pool_nonempty_test Hne) in E.
    rewrite E in H. injection H as <- <-.
    cbn [key_index model_name fst]. repeat split.
    + unfold bound. cbn [model model_name key_index genai].
      rewrite configure_genai_ok by exact Hne. reflexivity.
    + unfold bound. cbn [model model_name key_index genai].
      rewrite configure_genai_ok by exact Hne. reflexivity.
    + intros n' E'. congruence.
  - pose proof (resolve_model_name_eq k g) as Hres. cbv zeta in Hres.
    set (g1 := snd (configure_genai k g)) in *.
    set (g2 := mkGenai (api_key g1) (trace g1 ++ [EvListModels])) in *.
    destruct (configure_genai_total k g2) as (b2 & Hc2 & _).
    destruct (resolve_model_name k g) as [[nm | e] g'] eqn:Er.
    + assert (g' = g2) by congruence. subst g'.
      assert (E : script_top (mkStore ki None, g) =
                  (Ok (mkState k nm (mkHandle nm (api_key (snd (configure_genai k g2))))
                               (snd (configure_genai k g2))),
                   (mkStore (Some k) (Some nm), snd (configure_genai k g2)))).
      { unfold script_top. rewrite (pool_nonempty_test Hne).
        destruct ki as [k' |]; unfold bind, ret, has_key_index, has_model_name,
          write_key_index, write_model_name, read_key_index, read_model_name, lift_lib,
          GenerativeModel; simpl; fold k; rewrite Er; simpl; rewrite Hc2; reflexivity. }
      unfold script_top in E. rewrite (pool_nonempty_test Hne) in E.
      rewrite E in H. injection H as <- <-.
      cbn [key_index model_name fst]. repeat split.
      * unfold bound. cbn [model model_name key_index genai].
        rewrite configure_genai_ok by exact Hne. reflexivity.
      * unfold bound. cbn [model model_name key_index genai].
        rewrite configure_genai_ok by exact Hne. reflexivity.
      * intros n' E'. discriminate E'.
    + exfalso.
      assert (E : fst (script_top (mkStore ki None, g)) = Raise e).
      { unfold script_top. rewrite (pool_nonempty_test Hne).
        destruct ki as [k' |]; unfold bind, ret, has_key_index, has_model_name,
          write_key_index, write_model_name, read_key_index, read_model_name, lift_lib,
          GenerativeModel; simpl; fold k; rewrite Er; reflexivity. }
      unfold script_top in E. rewrite (pool_nonempty_test Hne) in E.
      rewrite H in E. discriminate E.
Qed.

(** X17. The top of the script is a gate on the pool.  With an empty pool it
    shows the error and stops, before the session is touched or the client
    configured.  With a non-empty pool, when it returns, the cursor is the
    session's one (0 in a fresh session), whatever its value the handle
    and the client are on the credential it selects modulo the pool length,
    a model name already in the session is the one in use, and both entries
    are in the session afterwards. *)
Theorem script_top_gate (s : Script) :
  (GEMINI_API_KEYS = [] ->
   script_top s =
     (Raise StopException,
      (fst s, mkGenai (api_key (snd s)) (trace (snd s) ++ [EvNoKeysError])))) /\
  (GEMINI_API_KEYS <> [] ->
   forall st s1,
     script_top s = (Ok st, s1) ->
     key_index st = match ss_key_index (fst s) with Some k => k | None => 0 end /\
     model st =
       mkHandle (model_name st)
                (Some (credential (key_index st mod len GEMINI_API_KEYS))) /\
     api_key (genai st) = Some (credential (key_index st mod len GEMINI_API_KEYS)) /\
     In (credential (key_index st mod len GEMINI_API_KEYS)) GEMINI_API_KEYS /\
     fst s1 = mkStore (Some (key_index st)) (Some (model_name st)) /\
     (forall n, ss_model_name (fst s) = Some n -> model_name st = n)).
Proof.
  split.
  - apply script_top_stops.
  - intros Hne st s1 H.
    destruct (script_top_returns s st s1 Hne H) as (Hk & [Hm Ha] & Hs & Hn).
    split; [exact Hk |]. split; [exact Hm |]. split; [exact Ha |].
    split; [| split; [rewrite Hk; exact Hs | exact Hn]].
    apply credential_in_pool. exact Hne.
Qed.

(** ** The error classes *)

(** X18. A message is of the Quota class when it holds "quota" in any mix of
    capitals, "429" or "ResourceExhausted", and of the Auth class when it
    holds "leaked" in any mix of capitals, "403" or "API key", wherever in
    the message; a message with "quota" or "leaked" in any mix of capitals
    makes the dispatcher take the rotating branch. *)
Theorem error_classes_by_substring (before word after : string) :
  (PyStr.lower word = "quota" \/ word = "429" \/ word = "ResourceExhausted" ->
   is_quota (before ++ word ++ after) = true) /\
  (PyStr.lower word = "leaked" \/ word = "403" \/ word = "API key" ->
   is_auth (before ++ word ++ after) = true) /\
  (forall e,
     exc_str e = (before ++ word ++ after)%string ->
     PyStr.lower word = "quota" \/ PyStr.lower word = "leaked" ->
     rotates e = true).
Proof.
  assert (Hq : PyStr.lower word = "quota" -> is_quota (before ++ word ++ after) = true).
  { intros H. unfold is_quota.
    rewrite (lower_found "quota" before word after H) by (discriminate || reflexivity).
    rewrite orb_true_r. reflexivity. }
  assert (Ha : PyStr.lower word = "leaked" -> is_auth (before ++ word ++ after) = true).
  { intros H. unfold is_auth.
    rewrite (lower_found "leaked" before word after H) by (discriminate || reflexivity).
    rewrite orb_true_r. reflexivity. }
  split; [| split].
  - intros [H | [-> | ->]]; [exact (Hq H) | |]; unfold is_quota;
      rewrite contains_found; rewrite ?orb_true_r; reflexivity.
  - intros [H | [-> | ->]]; [exact (Ha H) | |]; unfold is_auth;
      rewrite contains_found; rewrite ?orb_true_r; reflexivity.
  - intros e He [H | H]; unfold rotates; rewrite He.
    + rewrite (Hq H). reflexivity.
    + rewrite (Ha H). apply orb_true_r.
Qed.

(** ** The chat tab *)

Lemma last_n_suffix {A} (n : nat) (l : list A) :
  List.length (last_n n l) = Nat.min n (List.length l) /\
  l = firstn (List.length l - n) l ++ last_n n l.
Proof.
  unfold last_n. split.
  - rewrite length_skipn. lia.
  - symmetry. apply firstn_skipn.
Qed.

(** The context of a chat turn holds the newest messages, six at most, in
    their order, the message just typed last. *)
Lemma chat_context_window (msgs : list Message) (m : Message) :
  let window := last_n 6 (msgs ++ [m]) in
  List.length window = Nat.min 6 (S (List.length msgs)) /\
  (exists older, msgs ++ [m] = older ++ window) /\
  (exists before, window = before ++ [m]).
Proof.
  intros window. subst window.
  destruct (last_n_suffix 6 (msgs ++ [m])) as [Hlen Hsplit].
  split; [rewrite Hlen, length_app; cbn [List.length]; lia |].
  split; [eexists; exact Hsplit |].
  unfold last_n. rewrite length_app. cbn [List.length].
  rewrite skipn_app.
  replace (List.length msgs + 1 - 6 - List.length msgs)%nat with 0%nat by lia.
  cbn [skipn]. eexists. reflexivity.
Qed.

Section ChatFacts.

Variable response_text : Response -> Res string.
Variable render_ctx : list string -> string -> list Message -> string -> string.
Variable save_config : list ChatEvent -> option (list Message) -> Res bool.

Lemma chat_turn_eq (prompt : string) (c : Chat) (d : string) :
  difficulty c = Some d ->
  chat_turn response_text render_ctx save_config prompt c =
    let msgs := chat_messages c ++ [mkMessage "user" prompt] in
    let shown1 := shown c ++ [ChatMarkdown "user" prompt] in
    match ask_orbit (turn_ctx render_ctx prompt c d) (dispatcher c) with
    | (Raise e, st) =>
        (Raise e, mkChat st msgs (active_session c) (current_units c) (difficulty c) shown1)
    | (Ok None, st) =>
        (Ok tt, mkChat st msgs (active_session c) (current_units c) (difficulty c)
                       (shown1 ++ [ChatError]))
    | (Ok (Some r), st) =>
        match response_text r with
        | Raise e =>
            (Raise e, mkChat st msgs (active_session c) (current_units c) (difficulty c) shown1)
        | Ok text =>
            if String.eqb text "" then
              (Ok tt, mkChat st msgs (active_session c) (current_units c) (difficulty c)
                             (shown1 ++ [ChatError]))
            else
              let msgs2 := msgs ++ [mkMessage "assistant" text] in
              let shown2 := shown1 ++ [ChatMarkdown "assistant" text] in
              (match save_config shown2 (Some msgs2) with
               | Ok _ => Ok tt
               | Raise e => Raise e
               end,
               mkChat st msgs2 ActiveShared (current_units c) (difficulty c)
                      (shown2 ++ [ChatSave (Some msgs2)]))
        end
    end.
Proof.
  intros Hd. unfold chat_turn, bind, messages_append, chat_show, get_chat, read_difficulty,
    chat_ask_orbit, share_active, chat_save, lift_res, ret, turn_ctx, active_value.
  cbn [dispatcher chat_messages active_session current_units difficulty shown].
  rewrite Hd.
  destruct (ask_orbit _ (dispatcher c)) as [[[r |] | e] st]; try reflexivity.
  cbn [dispatcher chat_messages active_session current_units difficulty shown].
  destruct (response_text r) as [text | e]; [| reflexivity].
  destruct (String.eqb text ""); reflexivity.
Qed.

(** X19. A turn that gets no answer: with at least two keys and every request
    failing with an error, the turn ends normally after [N + 1] requests;
    the typed message has joined the session's messages, the notice of an
    interrupted connection is shown, and nothing is saved.  When the
    config's active session is the very list of the session's messages, it
    too now ends with the unanswered message. *)
Theorem chat_turn_unanswered (prompt : string) (c : Chat) (d : string) :
  2 <= len GEMINI_API_KEYS ->
  difficulty c = Some d ->
  (forall tr h, exists e,
      generate_content tr h (turn_ctx render_ctx prompt c d) = Raise e /\ is_Exception e = true) ->
  exists st' requests,
    chat_turn response_text render_ctx save_config prompt c =
      (Ok tt,
       mkChat st' (chat_messages c ++ [mkMessage "user" prompt]) (active_session c)
              (current_units c) (difficulty c)
              (shown c ++ [ChatMarkdown "user" prompt; ChatError])) /\
    generated (trace (genai st')) = generated (trace (genai (dispatcher c))) ++ requests /\
    List.length requests = S (List.length GEMINI_API_KEYS) /\
    (active_session c = ActiveShared ->
     active_value (snd (chat_turn response_text render_ctx save_config prompt c)) =
       Some (chat_messages c ++ [mkMessage "user" prompt])).
Proof.
  intros HN Hd Hfail.
  destruct (failing_loop (turn_ctx render_ctx prompt c d) HN Hfail
              (S (List.length GEMINI_API_KEYS)) 0%nat (dispatcher c) eq_refl)
    as (fl & st' & requests & Hloop & Hfl & Hgen & Hlen).
  assert (Hrun : ask_orbit (turn_ctx render_ctx prompt c d) (dispatcher c) = (Ok None, st')).
  { rewrite ask_orbit_unfold.
    change (0 :: map Z.of_nat (seq 1 (List.length GEMINI_API_KEYS)))
      with (map Z.of_nat (seq 0 (S (List.length GEMINI_API_KEYS)))).
    rewrite Hloop. destruct Hfl as [-> | ->]; reflexivity. }
  exists st', requests. rewrite (chat_turn_eq prompt c d Hd). cbv zeta. rewrite Hrun.
  rewrite <- app_assoc. cbn [app].
  split; [reflexivity |]. split; [exact Hgen |]. split; [exact Hlen |].
  intros Hs. unfold active_value. cbn [snd active_session chat_messages].
  rewrite Hs. reflexivity.
Qed.

(** X20. A turn answered at the first request by a non-empty text: the typed
    message and the answer join the session's messages in that order, the
    config's active session becomes that very list, one save is asked for
    with it, and the dispatcher has made that one request and no rotation. *)
Theorem chat_turn_answered (prompt : string) (c : Chat) (d : string)
        (r : Response) (text : string) :
  difficulty c = Some d ->
  generate_content (trace (genai (dispatcher c))) (model (dispatcher c))
                   (turn_ctx render_ctx prompt c d) = Ok r ->
  response_text r = Ok text ->
  text <> "" ->
  let msgs := chat_messages c ++ [mkMessage "user" prompt; mkMessage "assistant" text] in
  let shown2 := shown c ++ [ChatMarkdown "user" prompt; ChatMarkdown "assistant" text] in
  snd (chat_turn response_text render_ctx save_config prompt c) =
    mkChat (log [EvGenerate (model (dispatcher c)) (turn_ctx render_ctx prompt c d)] (dispatcher c))
           msgs ActiveShared (current_units c) (difficulty c)
           (shown2 ++ [ChatSave (Some msgs)]) /\
  fst (chat_turn response_text render_ctx save_config prompt c) =
    match save_config shown2 (Some msgs) with
    | Ok _ => Ok tt
    | Raise e => Raise e
    end.
Proof.
  intros Hd Hg Ht Hne msgs shown2. subst msgs shown2.
  rewrite (chat_turn_eq prompt c d Hd). cbv zeta.
  assert (Hrun : ask_orbit (turn_ctx render_ctx prompt c d) (dispatcher c) =
                 (Ok (Some r),
                  log [EvGenerate (model (dispatcher c)) (turn_ctx render_ctx prompt c d)]
                      (dispatcher c))).
  { rewrite ask_orbit_unfold. cbn [for_in]. unfold bind at 1.
    rewrite (attempt_success _ _ _ _ _ Hg). reflexivity. }
  rewrite Hrun, Ht.
  assert (String.eqb text "" = false) as -> by (apply String.eqb_neq; exact Hne).
  rewrite <- !app_assoc. cbn [app fst snd]. split; reflexivity.
Qed.

End ChatFacts.

(** ** Cleaning the quiz answer *)

Lemma replace_scan_skip (old new : string) (s : string) (k : nat) :
  PyStr.replace_scan old new k s = PyStr.replace_scan old new 0 (string_drop k s).
Proof.
  revert k. induction s as [| c s IH]; intros k.
  - destruct k; reflexivity.
  - destruct k as [| k]; [reflexivity |].
    cbn [PyStr.replace_scan string_drop]. apply IH.
Qed.

Lemma unfence_cons (c : ascii) (rest : string) :
  PyStr.replace "```" "" (String c rest) =
    if String.prefix "```" (String c rest)
    then PyStr.replace "```" "" (string_drop 2 rest)
    else String c (PyStr.replace "```" "" rest).
Proof.
  unfold PyStr.replace. cbn [PyStr.replace_scan String.length Nat.sub].
  destruct (String.prefix "```" (String c rest)); [| reflexivity].
  cbn [String.append]. apply replace_scan_skip.
Qed.

Lemma unfenced_all (s : string) :
  unfenced s /\ unfenced (string_drop 1 s) /\ unfenced (string_drop 2 s).
Proof.
  induction s as [| c rest (IH0 & IH1 & IH2)].
  - assert (unfenced "") by (repeat split; cbn; intros H; discriminate H).
    auto.
  - split; [| split; [exact IH0 | exact IH1]].
    destruct IH0 as (Hc & H2 & H1). unfold unfenced. rewrite unfence_cons.
    destruct (String.prefix "```" (String c rest)) eqn:E.
    + split; [apply IH2 |]. split; intros _.
      * apply (prefix_weaken "``" "`"), E.
      * apply (prefix_weaken "`" "``"), E.
    + split; [| split].
      * cbn [PyStr.contains]. rewrite Hc, orb_false_r.
        rewrite prefix_cons in *. destruct (ascii_dec "`" c); [| reflexivity].
        destruct (String.prefix "``" (PyStr.replace "```" "" rest)) eqn:E2;
          [| reflexivity].
        rewrite (H2 eq_refl) in E. discriminate E.
      * rewrite !prefix_cons. destruct (ascii_dec "`" c); [| discriminate].
        exact H1.
      * rewrite !prefix_cons. destruct (ascii_dec "`" c); [| discriminate].
        intros _. apply prefix_empty.
Qed.

(** X21. No code fence is left in the cleaned answer, whatever the model
    wrote: neither three backticks in a row nor, with them, the "```json"
    opener. *)
Theorem clean_text_has_no_fence (text : string) :
  PyStr.contains "```" (clean_text text) = false /\
  PyStr.contains "```json" (clean_text text) = false.
Proof.
  assert (H : PyStr.contains "```" (clean_text text) = false).
  { unfold clean_text.
    destruct (PyStr.contains "```" (PyText.strip _)) eqn:E; [| reflexivity].
    apply strip_contains in E.
    destruct (unfenced_all (PyStr.replace "```json" "" text)) as ((Hc & _) & _).
    congruence. }
  split; [exact H |].
  destruct (PyStr.contains "```json" (clean_text text)) eqn:E; [| reflexivity].
  apply (contains_weaken "```" "json") in E. congruence.
Qed.

End Orbit.

(** ** The statements at sample inputs *)

Lemma configure_genai_wraps_cursor_witness :
  three_keys <> [] /\
  py_getitem three_keys (7 mod len three_keys) = Ok "key-B" /\
  configure_genai three_keys 7 (mkGenai None []) =
    (Ok true, mkGenai (Some "key-B") [EvConfigure "key-B"]).
Proof.
  assert (H : three_keys <> []) by discriminate.
  destruct (configure_genai_wraps_cursor three_keys 7 (mkGenai None []) H)
    as (_ & _ & Hget & _ & Hcfg).
  split; [exact H |]. split; [exact Hget | exact Hcfg].
Defined.

Lemma rotate_key_contract_witness :
  (2 <= len two_keys /\
   fst (rotate_key two_keys (sample_state 1)) = Ok true /\
   key_index (snd (rotate_key two_keys (sample_state 1))) = 0) /\
  (len one_key = 1 /\
   fst (rotate_key one_key (sample_state 5)) = Ok false /\
   key_index (snd (rotate_key one_key (sample_state 5))) = 5).
Proof.
  assert (H2 : 2 <= len two_keys) by (unfold len; simpl; lia).
  assert (H1 : len one_key = 1) by reflexivity.
  split.
  - split; [exact H2 |].
    exact (proj1 (rotate_key_contract two_keys (sample_state 1)) H2).
  - split; [exact H1 |].
    exact (proj2 (rotate_key_contract one_key (sample_state 5)) H1).
Defined.

Lemma rotate_key_full_cycle_witness :
  2 <= len three_keys /\
  NoDup [7; 2; 0] /\
  key_index (rotate_n three_keys 3 (sample_state 7)) = 1 /\
  (key_index (rotate_n three_keys 3 (sample_state 1)) = 1 <-> 0 <= 1 < 3).
Proof.
  assert (HN : 2 <= len three_keys) by (unfold len; simpl; lia).
  split; [exact HN |].
  split; [exact (proj1 (rotate_key_full_cycle three_keys (sample_state 7) HN)) |].
  split; [exact (proj1 (proj2 (rotate_key_full_cycle three_keys (sample_state 7) HN))) |].
  exact (proj2 (proj2 (rotate_key_full_cycle three_keys (sample_state 1) HN))).
Defined.

(** The cursor outlives the pool it was computed for: a run over three keys
    that rotates twice leaves it at 2, and the next run, over a pool of two,
    starts from there, [configure_genai] wrapping it to the first key. *)
Example stale_cursor_after_pool_shrinks :
  let s1 := snd (script_run string three_keys sample_catalog quota_twice ["ping"]
                   (fresh_session, mkGenai None [])) in
  ss_key_index (fst s1) = Some 2 /\
  exists st s2,
    script_top two_keys sample_catalog s1 = (Ok st, s2) /\
    key_index st = 2 /\
    model st = mkHandle "gemini-1.5-flash" (Some "key-A").
Proof.
  split; [vm_compute; reflexivity |].
  do 2 eexists. split; [vm_compute; reflexivity |].
  split; reflexivity.
Qed.

(** C8 as stated fails from a cursor outside the pool: with two keys and
    the cursor at 2, two rotations leave it at 0. *)
Lemma rotate_key_cycle_out_of_range :
  ~ (2 <= len two_keys ->
     key_index (rotate_n two_keys (List.length two_keys) (sample_state 2)) =
       key_index (sample_state 2) /\
     NoDup (key_index (sample_state 2)
              :: cursors two_keys (List.length two_keys - 1) (sample_state 2))).
Proof.
  intros H. assert (HN : 2 <= len two_keys) by (unfold len; simpl; lia).
  destruct (H HN) as [Hback _]. vm_compute in Hback. discriminate Hback.
Qed.

Lemma ask_orbit_first_success_witness :
  always_answers [] sample_handle "ping" = Ok "pong" /\
  ask_orbit string three_keys always_answers "ping" (sample_state 0) =
    (Ok (Some "pong"),
     mkState 0 "gemini-1.5-flash" sample_handle
             (mkGenai (Some "key-A") [EvGenerate sample_handle "ping"])).
Proof.
  assert (H : always_answers (trace (genai (sample_state 0))) (model (sample_state 0)) "ping"
              = Ok "pong") by reflexivity.
  split; [exact H |].
  exact (proj1 (ask_orbit_first_success string three_keys always_answers "ping"
                  (sample_state 0) "pong" H)).
Defined.

Lemma ask_orbit_single_key_terminal_witness :
  len one_key = 1 /\
  always_quota [] sample_handle "ping" = Raise quota_error /\
  is_Exception quota_error = true /\
  is_quota (exc_str quota_error) || is_auth (exc_str quota_error) = true /\
  ask_orbit string one_key always_quota "ping" (sample_state 0) =
    (Ok None,
     mkState 0 "gemini-1.5-flash" sample_handle
             (mkGenai (Some "key-A") [EvGenerate sample_handle "ping"; EvToastNoBackup])).
Proof.
  assert (H1 : len one_key = 1) by reflexivity.
  assert (Hg : always_quota (trace (genai (sample_state 0))) (model (sample_state 0)) "ping"
               = Raise quota_error) by reflexivity.
  assert (He : is_Exception quota_error = true) by reflexivity.
  assert (Hr : is_quota (exc_str quota_error) || is_auth (exc_str quota_error) = true)
    by (vm_compute; reflexivity).
  repeat (split; [assumption |]).
  exact (proj1 (proj2 (ask_orbit_single_key_terminal string one_key always_quota "ping"
                         (sample_state 0) quota_error H1 Hg He Hr))).
Defined.

Lemma ask_orbit_transient_retry_witness :
  three_keys <> [] /\
  (flaky_once [] sample_handle "ping" = Raise server_error /\
   is_Exception server_error = true /\
   is_quota (exc_str server_error) || is_auth (exc_str server_error) = false /\
   ask_orbit string three_keys flaky_once "ping" (sample_state 0) =
     (Ok (Some "pong"),
      mkState 0 "gemini-1.5-flash" sample_handle
        (mkGenai (Some "key-A")
           [EvGenerate sample_handle "ping";
            EvPrintChatError "500 An internal error has occurred."; EvSleep 1;
            EvGenerate sample_handle "ping"]))) /\
  (exists st',
     ask_orbit string three_keys always_server_error "ping" (sample_state 0) = (Ok None, st') /\
     key_index st' = 0 /\
     generated (trace (genai st')) = repeat sample_handle 4).
Proof.
  assert (Hne : three_keys <> []) by discriminate.
  assert (He : is_Exception server_error = true) by reflexivity.
  assert (Hr : is_quota (exc_str server_error) || is_auth (exc_str server_error) = false)
    by (vm_compute; reflexivity).
  split; [exact Hne |]. split.
  - assert (Hg : flaky_once (trace (genai (sample_state 0))) (model (sample_state 0)) "ping"
                 = Raise server_error) by reflexivity.
    split; [exact Hg |]. split; [exact He |]. split; [exact Hr |].
    destruct (ask_orbit_transient_retry string three_keys flaky_once "ping"
                (sample_state 0) Hne) as (_ & Hsecond & _).
    exact (proj1 (Hsecond server_error "pong" Hg He Hr eq_refl)).
  - destruct (ask_orbit_transient_retry string three_keys always_server_error "ping"
                (sample_state 0) Hne) as (_ & _ & Hall).
    destruct Hall as (st' & Hrun & Hk & _ & Hgen & _).
    { intros tr. exists server_error. split; [reflexivity |]. split; [exact He | exact Hr]. }
    exists st'. split; [exact Hrun |]. split; [exact Hk | exact Hgen].
Defined.

Lemma ask_orbit_all_quota_witness :
  2 <= len three_keys /\
  (forall tr h, exists e,
      always_quota tr h "ping" = Raise e /\
      is_Exception e = true /\ is_quota (exc_str e) = true) /\
  exists st',
    ask_orbit string three_keys always_quota "ping" (sample_state 0) = (Ok None, st') /\
    generated (trace (genai st')) =
      [ sample_handle;
        mkHandle "gemini-1.5-flash" (Some "key-B");
        mkHandle "gemini-1.5-flash" (Some "key-C");
        mkHandle "gemini-1.5-flash" (Some "key-A") ] /\
    rotations (trace (genai st')) = 4%nat /\
    key_index st' = 1.
Proof.
  assert (HN : 2 <= len three_keys) by (unfold len; simpl; lia).
  assert (Hq : forall tr h, exists e,
      always_quota tr h "ping" = Raise e /\
      is_Exception e = true /\ is_quota (exc_str e) = true).
  { intros tr h. exists quota_error. split; [reflexivity |].
    split; [reflexivity | vm_compute; reflexivity]. }
  split; [exact HN |]. split; [exact Hq |].
  destruct (ask_orbit_all_quota string three_keys always_quota "ping" (sample_state 0) HN Hq)
    as (st' & requests & Hrun & Hgen & Hreq & _ & _ & Hrot & Hk & _).
  exists st'. split; [exact Hrun |]. rewrite Hgen, Hreq, Hrot, Hk.
  repeat split.
Defined.

Lemma ask_orbit_never_raises_witness :
  (forall tr h e, quota_twice tr h "ping" = Raise e -> is_Exception e = true) /\
  (forall tr c e, configure_refused tr c = Some e ->
                  protected c = true /\ is_Exception e = true) /\
  exists r st',
    ask_orbit_env string three_keys quota_twice configure_refused "ping" (sample_state 0) =
      (Ok r, st').
Proof.
  assert (H : forall tr h e, quota_twice tr h "ping" = Raise e -> is_Exception e = true).
  { intros tr h e. unfold quota_twice. destruct (generated tr) as [| ? [| ? ?]].
    - intros E. injection E as <-. reflexivity.
    - intros E. injection E as <-. reflexivity.
    - discriminate. }
  assert (Hl : forall tr c e, configure_refused tr c = Some e ->
                              protected c = true /\ is_Exception e = true).
  { intros tr c e. destruct c as [[] |]; cbn; try discriminate.
    intros E. injection E as <-. split; reflexivity. }
  split; [exact H |]. split; [exact Hl |].
  destruct (ask_orbit_never_raises string three_keys quota_twice configure_refused "ping"
              (sample_state 0) H Hl)
    as (r & st' & Hrun & _).
  exists r, st'. exact Hrun.
Defined.

(** C3 as stated fails twice over.  A request that raises outside the
    [Exception] class, here [KeyboardInterrupt], is not caught; and when a
    request fails with a server error and the [print] of the handler raises
    in its turn, here because the output cannot encode the cross mark of
    the line, that error, an [Exception], reaches the caller. *)
Lemma ask_orbit_propagates :
  ask_orbit string three_keys always_interrupted "ping" (sample_state 0) =
    (Raise keyboard_interrupt,
     mkState 0 "gemini-1.5-flash" sample_handle
             (mkGenai (Some "key-A") [EvGenerate sample_handle "ping"])) /\
  (forall tr h e, always_server_error tr h "ping" = Raise e -> is_Exception e = true) /\
  ask_orbit_env string three_keys always_server_error print_fails "ping" (sample_state 0) =
    (Raise UnicodeEncodeError,
     mkState 0 "gemini-1.5-flash" sample_handle
             (mkGenai (Some "key-A")
                      [EvGenerate sample_handle "ping";
                       EvPrintChatError "500 An internal error has occurred."])) /\
  ~ (forall (backend : list Event -> ModelHandle -> string -> Res string)
            (prompt : string) (st : State),
       exists r st', ask_orbit string three_keys backend prompt st = (Ok r, st')).
Proof.
  split; [vm_compute; reflexivity |].
  split; [intros tr h e E; injection E as <-; reflexivity |].
  split; [vm_compute; reflexivity |].
  intros H. destruct (H always_interrupted "ping" (sample_state 0)) as (r & st' & E).
  vm_compute in E. discriminate E.
Qed.

Lemma resolve_model_name_priority_witness :
  (exists models,
     sample_catalog [EvConfigure "key-A"] (Some "key-A") = Ok models /\
     In "models/gemini-1.5-flash" (valid_models_of models) /\
     (forall m, In m (valid_models_of models) ->
                m = "models/gemini-1.5-flash" \/ m = "models/gemini-1.5-flash-latest")) /\
  fst (resolve_model_name three_keys sample_catalog 0 (mkGenai None [])) =
    Ok "gemini-1.5-flash".
Proof.
  pose (models := [ mkModelInfo "models/gemini-1.5-flash-latest" ["generateContent"; "countTokens"];
                    mkModelInfo "models/embedding-001" ["embedContent"];
                    mkModelInfo "models/gemini-1.5-flash" ["generateContent"; "countTokens"] ]).
  assert (Hp : sample_catalog [EvConfigure "key-A"] (Some "key-A") = Ok models) by reflexivity.
  assert (Hin : In "models/gemini-1.5-flash" (valid_models_of models))
    by (simpl; auto).
  assert (Hall : forall m, In m (valid_models_of models) ->
                 m = "models/gemini-1.5-flash" \/ m = "models/gemini-1.5-flash-latest").
  { intros m [E | [E | []]]; subst m; auto. }
  split; [exists models; auto |].
  destruct (resolve_model_name_priority three_keys sample_catalog 0 (mkGenai None []))
    as (_ & _ & _ & _ & _ & _ & Hex).
  exact (Hex models Hp Hin Hall).
Defined.

Lemma rotation_keeps_resolved_name_witness :
  (2 <= len three_keys /\
   model (snd (rotate_key three_keys (sample_state 0))) =
     mkHandle "gemini-1.5-flash" (Some "key-B") /\
   model_name (snd (rotate_key three_keys (sample_state 0))) = "gemini-1.5-flash") /\
  ((forall tr key e, sample_catalog tr key = Raise e -> is_Exception e = true) /\
   (probes (trace (snd (session string three_keys sample_catalog always_quota
                          [["a"]; ["b"; "c"]; []]
                          (fresh_session, mkGenai None [])))) <= 1)%nat).
Proof.
  assert (HN : 2 <= len three_keys) by (unfold len; simpl; lia).
  assert (Hexc : forall tr key e, sample_catalog tr key = Raise e -> is_Exception e = true)
    by (intros tr key e E; discriminate E).
  destruct (rotation_keeps_resolved_name string three_keys sample_catalog always_quota)
    as (Hrot & _ & Hsession).
  split.
  - split; [exact HN |].
    destruct (Hrot (sample_state 0) HN) as (_ & Hname & Hmodel & _).
    split; [exact Hmodel | exact Hname].
  - split; [exact Hexc |].
    exact (Hsession Hexc [["a"]; ["b"; "c"]; []] (mkGenai None [])).
Defined.

(** ** The statements about the rest of the page at sample inputs *)

Lemma load_keys_from_text_witness :
  sample_keys_text <> "" /\
  exists keys,
    load_keys (Ok (SvStr sample_keys_text)) (Ok None) [] = (Ok tt, keys) /\
    List.length keys = 2%nat.
Proof.
  assert (H : sample_keys_text <> "") by discriminate.
  split; [exact H |].
  destruct (load_keys_from_text sample_keys_text (Ok None) [] H)
    as (keys & Hrun & _ & Hlen & _).
  exists keys. split; [exact Hrun | exact Hlen].
Defined.

Lemma load_keys_precedence_witness :
  (forall e, Ok (Some "key-C") = Raise e -> is_Exception e = true) /\
  load_keys (Ok (SvList two_keys)) (Ok (Some "key-C")) [] = (Ok tt, two_keys) /\
  load_keys (Ok SvNone) (Ok (Some "key-C")) [] = (Ok tt, ["key-C"]).
Proof.
  assert (H : forall e, Ok (Some "key-C") = Raise e -> is_Exception e = true)
    by (intros e E; discriminate E).
  destruct (load_keys_precedence (Ok (Some "key-C")) [] H) as [Hlist Hfall].
  split; [exact H |]. split.
  - apply Hlist. discriminate.
  - exact (Hfall (Ok SvNone) (or_intror (or_introl eq_refl))).
Defined.

Lemma interests_round_trip_witness :
  sample_interests <> [] /\
  update_interests (interests_text sample_interests) = Ok sample_interests.
Proof.
  assert (H : sample_interests <> []) by discriminate.
  split; [exact H |].
  apply (proj1 (interests_round_trip sample_interests) H).
  repeat constructor.
Defined.

Lemma add_units_appends_new_witness :
  NoDup ["Physics"] /\
  NoDup (fst (add_units ["Calculus"; "Physics"; "Calculus"] ["Physics"] false)).
Proof.
  assert (H : NoDup ["Physics"]) by (constructor; [intros [] | constructor]).
  split; [exact H |].
  destruct (add_units_appends_new ["Calculus"; "Physics"; "Calculus"] ["Physics"])
    as (extra & _ & _ & _ & _ & _ & _ & Hnd).
  exact (Hnd H).
Defined.

Lemma drop_units_first_ticked_witness :
  NoDup sample_units /\
  physics_ticked "Physics" = true /\
  drop_units physics_ticked save_succeeds (mkDrop sample_units [] 0%nat) =
    (Raise RerunException,
     mkDrop ["Calculus"; "Chemistry"; "Biology"] ["Physics"; "Calculus"] 1%nat).
Proof.
  assert (Hnd : NoDup sample_units)
    by (repeat (constructor; [simpl; intuition discriminate |]); constructor).
  split; [exact Hnd |]. split; [reflexivity |].
  apply (drop_units_first_ticked physics_ticked save_succeeds
           ["Calculus"] ["Chemistry"; "Biology"] "Physics" [] 0%nat).
  - exact Hnd.
  - intros x _ [].
  - intros x [<- | []]. reflexivity.
  - reflexivity.
  - reflexivity.
Defined.

Lemma drop_units_none_ticked_witness :
  NoDup sample_units /\
  drop_units none_ticked save_succeeds (mkDrop sample_units [] 0%nat) =
    (Ok true, mkDrop sample_units (rev sample_units) 0%nat).
Proof.
  assert (Hnd : NoDup sample_units)
    by (repeat (constructor; [simpl; intuition discriminate |]); constructor).
  split; [exact Hnd |].
  apply (drop_units_none_ticked none_ticked save_succeeds sample_units [] 0%nat).
  - exact Hnd.
  - intros x _ [].
  - intros x _. reflexivity.
Defined.

Lemma drop_units_skips_after_failed_save_witness :
  NoDup sample_units /\
  exists keys' n',
    drop_units all_ticked save_fails (mkDrop sample_units [] 0%nat) =
      (Ok true, mkDrop ["Physics"; "Biology"] keys' n').
Proof.
  assert (Hnd : NoDup sample_units)
    by (repeat (constructor; [simpl; intuition discriminate |]); constructor).
  split; [exact Hnd |].
  apply (drop_units_skips_after_failed_save all_ticked save_fails sample_units [] 0%nat).
  - exact Hnd.
  - intros x _ [].
  - intros x _. reflexivity.
  - intros k l. reflexivity.
Defined.

Lemma archive_session_keeps_latest_witness :
  [mkMessage "user" "hello"] <> [] /\
  exists filed,
    archive_session "2024-05-01 10:00" None [mkMessage "user" "hello"] = Some [filed] /\
    timestamp filed = "2024-05-01 10:00" /\
    messages filed = [mkMessage "user" "hello"].
Proof.
  assert (H : [mkMessage "user" "hello"] <> []) by discriminate.
  split; [exact H |].
  destruct (proj1 (archive_session_keeps_latest "2024-05-01 10:00" None
                     [mkMessage "user" "hello"]) H)
    as (filed & Hrun & Ht & Hm & _).
  exists filed. split; [exact Hrun |]. split; [exact Ht | exact Hm].
Defined.

Lemma difficulty_selector_default_witness :
  ~ In (curr_diff (Some "Impossible")) diffs /\
  difficulty_update (Some "Impossible") (default_choice (Some "Impossible")) =
    (Some "Asian Parent Expectations (Extreme)", true).
Proof.
  assert (H : ~ In (curr_diff (Some "Impossible")) diffs)
    by (simpl; intuition discriminate).
  split; [exact H |].
  exact (proj2 (proj1 (proj2 (proj2 (difficulty_selector_default (Some "Impossible")))) H)).
Defined.

Lemma ask_orbit_raises_only_passthrough_witness :
  (always_interrupted [] sample_handle "ping" = Raise keyboard_interrupt /\
   is_Exception keyboard_interrupt = false /\
   ask_orbit_env string three_keys always_interrupted quiet "ping" (sample_state 0) =
     (Raise keyboard_interrupt, log [EvGenerate sample_handle "ping"] (sample_state 0))) /\
  (always_server_error [] sample_handle "ping" = Raise server_error /\
   is_Exception server_error = true /\
   rotates server_error = false /\
   print_fails [EvGenerate sample_handle "ping"]
               (Logged (EvPrintChatError (exc_str server_error))) = Some UnicodeEncodeError /\
   ask_orbit_env string three_keys always_server_error print_fails "ping" (sample_state 0) =
     (Raise UnicodeEncodeError,
      log [EvGenerate sample_handle "ping"; EvPrintChatError (exc_str server_error)]
          (sample_state 0))).
Proof.
  assert (Hr : rotates server_error = false) by (vm_compute; reflexivity).
  split.
  - split; [reflexivity |]. split; [reflexivity |].
    exact (proj1 (proj2 (ask_orbit_raises_only_passthrough string three_keys
                           always_interrupted quiet "ping" (sample_state 0)))
                 keyboard_interrupt eq_refl eq_refl).
  - split; [reflexivity |]. split; [reflexivity |]. split; [exact Hr |].
    split; [reflexivity |].
    exact (proj2 (proj2 (ask_orbit_raises_only_passthrough string three_keys
                           always_server_error print_fails "ping" (sample_state 0)))
                 server_error UnicodeEncodeError eq_refl eq_refl Hr eq_refl).
Defined.

Lemma ask_orbit_all_failing_witness :
  2 <= len three_keys /\
  (forall tr h, exists e,
      quota_then_server tr h "ping" = Raise e /\ is_Exception e = true) /\
  exists st' requests,
    ask_orbit string three_keys quota_then_server "ping" (sample_state 0) = (Ok None, st') /\
    generated (trace (genai st')) = requests /\
    List.length requests = 4%nat.
Proof.
  assert (HN : 2 <= len three_keys) by (unfold len; simpl; lia).
  assert (Hfail : forall tr h, exists e,
             quota_then_server tr h "ping" = Raise e /\ is_Exception e = true).
  { intros tr h. unfold quota_then_server.
    destruct (generated tr); eexists; split; reflexivity. }
  split; [exact HN |]. split; [exact Hfail |].
  destruct (ask_orbit_all_failing string three_keys quota_then_server "ping"
              (sample_state 0) HN Hfail)
    as (st' & requests & Hrun & Hgen & Hlen).
  exists st', requests. split; [exact Hrun |]. split; [exact Hgen | exact Hlen].
Defined.

Lemma ask_orbit_handle_follows_cursor_witness :
  bound three_keys (sample_state 0) /\
  bound three_keys (snd (ask_orbit string three_keys quota_twice "ping" (sample_state 0))) /\
  model_name (snd (ask_orbit string three_keys quota_twice "ping" (sample_state 0))) =
    "gemini-1.5-flash".
Proof.
  assert (H : bound three_keys (sample_state 0)) by (split; reflexivity).
  split; [exact H |].
  destruct (ask_orbit_handle_follows_cursor string three_keys quota_twice "ping"
              (sample_state 0) H)
    as (Hb & Hname & _).
  split; [exact Hb | exact Hname].
Defined.

Lemma script_top_gate_witness :
  script_top [] sample_catalog (fresh_session, mkGenai None []) =
    (Raise StopException, (fresh_session, mkGenai None [EvNoKeysError])) /\
  three_keys <> [] /\
  exists st s1,
    script_top three_keys sample_catalog (fresh_session, mkGenai None []) = (Ok st, s1) /\
    key_index st = 0 /\
    In (credential three_keys (key_index st mod len three_keys)) three_keys /\
    fst s1 = mkStore (Some (key_index st)) (Some (model_name st)).
Proof.
  split; [| split; [discriminate |]].
  - exact (proj1 (script_top_gate [] sample_catalog (fresh_session, mkGenai None []))
                 eq_refl).
  - assert (Hne : three_keys <> []) by discriminate.
    assert (E : exists st s1,
               script_top three_keys sample_catalog (fresh_session, mkGenai None []) =
                 (Ok st, s1))
      by (do 2 eexists; vm_compute; reflexivity).
    destruct E as (st & s1 & E).
    destruct (proj2 (script_top_gate three_keys sample_catalog
                       (fresh_session, mkGenai None [])) Hne st s1 E)
      as (Hk & _ & _ & Hin & Hs & _).
    exists st, s1. split; [exact E |]. split; [exact Hk |]. split; [exact Hin | exact Hs].
Defined.

Lemma error_classes_by_substring_witness :
  PyStr.lower "QUOTA" = "quota" /\
  is_quota "Daily QUOTA exceeded" = true /\
  is_auth "This API key was reported" = true.
Proof.
  split; [reflexivity |]. split.
  - exact (proj1 (error_classes_by_substring "Daily " "QUOTA" " exceeded")
                 (or_introl eq_refl)).
  - exact (proj1 (proj2 (error_classes_by_substring "This " "API key" " was reported"))
                 (or_intror (or_intror eq_refl))).
Defined.

Lemma chat_turn_unanswered_witness :
  2 <= len three_keys /\
  difficulty sample_chat = Some "Easy (Review)" /\
  exists c',
    chat_turn string three_keys quota_then_server sample_response_text sample_render_ctx
              sample_save_config "hi" sample_chat = (Ok tt, c') /\
    chat_messages c' = [mkMessage "user" "hi"] /\
    shown c' = [ChatMarkdown "user" "hi"; ChatError] /\
    active_value c' = Some [mkMessage "user" "hi"].
Proof.
  assert (HN : 2 <= len three_keys) by (unfold len; simpl; lia).
  assert (Hd : difficulty sample_chat = Some "Easy (Review)") by reflexivity.
  split; [exact HN |]. split; [exact Hd |].
  destruct (chat_turn_unanswered string three_keys quota_then_server sample_response_text
              sample_render_ctx sample_save_config "hi" sample_chat "Easy (Review)" HN Hd)
    as (st' & requests & Hrun & _).
  { intros tr h. unfold quota_then_server.
    destruct (generated tr); eexists; split; reflexivity. }
  eexists. split; [exact Hrun |]. split; [reflexivity |]. split; reflexivity.
Defined.

Lemma chat_turn_answered_witness :
  difficulty sample_chat = Some "Easy (Review)" /\
  sample_response_text "pong" = Ok "pong" /\
  "pong" <> "" /\
  chat_messages
    (snd (chat_turn string three_keys always_answers sample_response_text sample_render_ctx
                    sample_save_config "hi" sample_chat)) =
    [mkMessage "user" "hi"; mkMessage "assistant" "pong"] /\
  active_value
    (snd (chat_turn string three_keys always_answers sample_response_text sample_render_ctx
                    sample_save_config "hi" sample_chat)) =
    Some [mkMessage "user" "hi"; mkMessage "assistant" "pong"] /\
  fst (chat_turn string three_keys always_answers sample_response_text sample_render_ctx
                 sample_save_config "hi" sample_chat) = Ok tt.
Proof.
  assert (Hd : difficulty sample_chat = Some "Easy (Review)") by reflexivity.
  assert (Ht : sample_response_text "pong" = Ok "pong") by reflexivity.
  assert (Hne : "pong" <> "") by discriminate.
  split; [exact Hd |]. split; [exact Ht |]. split; [exact Hne |].
  destruct (chat_turn_answered string three_keys always_answers sample_response_text
              sample_render_ctx sample_save_config "hi" sample_chat "Easy (Review)"
              "pong" "pong" Hd eq_refl Ht Hne)
    as [Hs Hf].
  rewrite Hs, Hf. split; [reflexivity |]. split; reflexivity.
Defined.

(** ** The text methods on characters outside ASCII *)

(** [strip()] removes a no-break space as it removes a space, so an
    interest that ends in one does not come back from the editor as it
    was. *)
Example strip_removes_no_break_space :
  PyText.strip ("chess" ++ no_break_space) = "chess" /\
  update_interests (interests_text ["chess" ++ no_break_space; "rust"])%string =
    Ok ["chess"; "rust"].
Proof. split; vm_compute; reflexivity. Qed.

(** [lower()] turns the Kelvin sign into "k": a message that spells
    "leaked" with it is of the Auth class, and the dispatcher rotates. *)
Example kelvin_sign_is_auth :
  PyStr.lower (exc_str leaked_with_kelvin_sign) = "your key was leaked." /\
  is_auth (exc_str leaked_with_kelvin_sign) = true /\
  rotates leaked_with_kelvin_sign = true.
Proof. repeat split; vm_compute; reflexivity. Qed.

(** [len()] and the slice count characters, not bytes: 41 accented letters
    are 82 bytes, and their summary is the first 40 of them and three
    dots. *)
Example summary_counts_characters :
  PyText.len (text_repeat 41 e_acute) = 41%nat /\
  String.length (text_repeat 41 e_acute) = 82%nat /\
  summarise (text_repeat 41 e_acute) = (text_repeat 40 e_acute ++ "...")%string /\
  PyText.len (summarise (text_repeat 41 e_acute)) = 43%nat.
Proof. repeat split; vm_compute; reflexivity. Qed.
